(** * Particle integrators of Athena (src/particles/integrators_particle.c)

    A shallow embedding of the three second-order particle integrators
    (explicit, semi-implicit, fully implicit), of the corrector feedback,
    of the ghost purge and of the drag and force models, followed by the
    properties proved about them.

    Conventions of the embedding.
    - [Real] (a C floating-point type, declared in defs.h) is interpreted by
      the rationals [Q]: arithmetic is exact, rounding is not modelled, and
      computed values are compared with [==].  Values that the code merely
      copies are compared with Leibniz equality.
    - C integers ([int], [long], [short]) are [Z]; no arithmetic of this file
      can leave their range except the decrement of a species counter,
      which is left unbounded.
    - The build-time flags [SHEARING_BOX], [FARGO], [VERTICAL_GRAVITY] and
      [FEEDBACK] are the booleans of a [Config]; [PARTICLES] is defined.
    - The functions of utils_particle.c called here, the hooks of the
      problem file and [sqrt] of math.h are not part of this file: they are
      the fields of [Collaborators], with the signatures of their call
      sites.
    - [ath_perr] and [ath_pout] append to the output of the run; a run either
      returns or aborts the process ([Outcome]). *)

From Stdlib Require Import ZArith QArith Qabs Lqa Lia String.
From stdpp Require Import base list.

Local Open Scope Q_scope.

(** ** Numbers *)

Abbreviation Real := Q.

(** [SQR] of defs.h. *)
Definition SQR (x : Real) : Real := x * x.

(** [a >= b] and [a < b] on [Real], as C conditions. *)
Definition Rgeb (a b : Real) : bool := Qle_bool b a.
Definition Rltb (a b : Real) : bool := negb (Qle_bool b a).

(** ** Data model *)

Module Vector.
Record t := mk { x1 : Real; x2 : Real; x3 : Real }.
Definition add_x1 (v : t) (e : Real) : t := mk (x1 v + e) (x2 v) (x3 v).
Definition add_x2 (v : t) (e : Real) : t := mk (x1 v) (x2 v + e) (x3 v).
Definition add_x3 (v : t) (e : Real) : t := mk (x1 v) (x2 v) (x3 v + e).
End Vector.
Abbreviation Vector := Vector.t.

(** The fields of [Grain] that this file reads or writes. *)
Record Grain := mkGrain {
  x1 : Real; x2 : Real; x3 : Real;
  v1 : Real; v2 : Real; v3 : Real;
  property : Z;
  pos : Z;
  shift : Real
}.

#[global] Instance Grain_inhabited : Inhabited Grain :=
  populate (mkGrain 0 0 0 0 0 0 0%Z 0%Z 0).

Definition set_pos (g : Grain) (s : Z) : Grain :=
  mkGrain (x1 g) (x2 g) (x3 g) (v1 g) (v2 g) (v3 g) (property g) s (shift g).
Definition set_shift (g : Grain) (s : Real) : Grain :=
  mkGrain (x1 g) (x2 g) (x3 g) (v1 g) (v2 g) (v3 g) (property g) (pos g) s.
Definition set_xv (g : Grain) (a1 a2 a3 b1 b2 b3 : Real) : Grain :=
  mkGrain a1 a2 a3 b1 b2 b3 (property g) (pos g) (shift g).

(** The fields of an entry of [grproperty] used here. *)
Record Grain_Property := mkGrain_Property { m : Real; num : Z }.

#[global] Instance Grain_Property_inhabited : Inhabited Grain_Property :=
  populate (mkGrain_Property 0 0%Z).

Definition dec_num (gp : Grain_Property) : Grain_Property :=
  mkGrain_Property (m gp) (num gp - 1)%Z.

(** Build-time flags. *)
Record Config := mkConfig {
  SHEARING_BOX : bool;
  FARGO : bool;
  VERTICAL_GRAVITY : bool;
  FEEDBACK : bool
}.

(** Global variables of globals.h read by this file. *)
Record Globals := mkGlobals {
  Omega : Real;
  x1lpar : Real; x1upar : Real;
  x2lpar : Real; x2upar : Real;
  x3lpar : Real; x3upar : Real
}.

(** The interpolation stencil [Real weight[3][3][3]]. *)
Definition Weight := list (list (list Real)).

(** What [getvalues] writes through its five output pointers. *)
Record GasValues := mkGasValues {
  rho : Real; u1 : Real; u2 : Real; u3 : Real; cs : Real
}.

(** One line of diagnostic output: which of the two logging functions was
    called, its level, its format and its integer arguments. *)
Inductive Msg :=
| Perr (level : Z) (fmt : string) (args : list Z)
| Pout (level : Z) (fmt : string) (args : list Z).

(** A run returns a value and its output, or terminates the process. *)
Inductive Outcome (A : Type) :=
| Returns (a : A) (out : list Msg)
| Aborts (out : list Msg).
Arguments Returns {A} a out.
Arguments Aborts {A} out.

Definition ret {A} (a : A) : Outcome A := Returns a [].

Definition bind {A B} (c : Outcome A) (f : A -> Outcome B) : Outcome B :=
  match c with
  | Returns a o =>
      match f a with
      | Returns b o' => Returns b (o ++ o')
      | Aborts o' => Aborts (o ++ o')
      end
  | Aborts o => Aborts o
  end.

Declare Scope run_scope.
Delimit Scope run_scope with run.
Notation "'let*' x ':=' c1 'in' c2" := (bind c1 (fun x => c2))
  (at level 10, x pattern, c1 at level 100, c2 at level 200) : run_scope.
Local Open Scope run_scope.

Definition ath_perr (level : Z) (fmt : string) (args : list Z) : Outcome unit :=
  Returns tt [Perr level fmt args].
Definition ath_pout (level : Z) (fmt : string) (args : list Z) : Outcome unit :=
  Returns tt [Pout level fmt args].

(** Total correctness of a run: it returns, and value and output satisfy [Q]. *)
Definition wp {A} (c : Outcome A) (Q : A -> list Msg -> Prop) : Prop :=
  match c with
  | Returns a o => Q a o
  | Aborts _ => False
  end.

Section Integrators.

(** Type of the gas arrays and of the feedback array of the grid. *)
Context {GasT FeedbackT : Type}.

(** The fields of [Grid] that this file reads or writes. *)
Record Grid := mkGrid {
  Nx1 : Z; Nx2 : Z; Nx3 : Z;
  dx1 : Real; dx2 : Real; dx3 : Real;
  dt : Real;
  time : Real;
  my_id : Z;
  nparticle : Z;
  particle : list Grain;
  grproperty : list Grain_Property;
  U : GasT;
  feedback : FeedbackT
}.

Definition set_nparticle (pG : Grid) (n : Z) : Grid :=
  mkGrid (Nx1 pG) (Nx2 pG) (Nx3 pG) (dx1 pG) (dx2 pG) (dx3 pG) (dt pG) (time pG)
    (my_id pG) n (particle pG) (grproperty pG) (U pG) (feedback pG).
Definition set_particle (pG : Grid) (l : list Grain) : Grid :=
  mkGrid (Nx1 pG) (Nx2 pG) (Nx3 pG) (dx1 pG) (dx2 pG) (dx3 pG) (dt pG) (time pG)
    (my_id pG) (nparticle pG) l (grproperty pG) (U pG) (feedback pG).
Definition set_grproperty (pG : Grid) (t : list Grain_Property) : Grid :=
  mkGrid (Nx1 pG) (Nx2 pG) (Nx3 pG) (dx1 pG) (dx2 pG) (dx3 pG) (dt pG) (time pG)
    (my_id pG) (nparticle pG) (particle pG) t (U pG) (feedback pG).
Definition set_feedback (pG : Grid) (f : FeedbackT) : Grid :=
  mkGrid (Nx1 pG) (Nx2 pG) (Nx3 pG) (dx1 pG) (dx2 pG) (dx3 pG) (dt pG) (time pG)
    (my_id pG) (nparticle pG) (particle pG) (grproperty pG) (U pG) f.

(** [pG->particle[i]] and [pG->grproperty[i]].  An index outside the array is
    undefined behaviour in C; the model then reads the default entry and
    writes nothing. *)
Definition particle_at (pG : Grid) (i : Z) : Grain :=
  particle pG !!! Z.to_nat i.
Definition store_particle (pG : Grid) (i : Z) (g : Grain) : Grid :=
  if (0 <=? i)%Z then set_particle pG (<[Z.to_nat i := g]> (particle pG)) else pG.
Definition grproperty_at (pG : Grid) (i : Z) : Grain_Property :=
  grproperty pG !!! Z.to_nat i.
Definition alter_grproperty (pG : Grid) (i : Z) (f : Grain_Property -> Grain_Property) : Grid :=
  if (0 <=? i)%Z then set_grproperty pG (alter f (Z.to_nat i) (grproperty pG)) else pG.

(** Functions called by this file and defined elsewhere (utils_particle.c,
    the problem file, math.h).  Those that write into the grid write the
    feedback array only, and return its new content. *)
Record Collaborators := mkCollaborators {
  getweight : Grid -> Real -> Real -> Real -> Vector -> Weight * Z * Z * Z;
  getvalues : Grid -> Weight -> Z -> Z -> Z -> Z * GasValues;
  gasvshift : Real -> Real -> Real -> Real * Real * Real -> Real * Real * Real;
  get_ts : Grid -> Z -> Real -> Real -> Real -> Real;
  sqrt : Real -> Real;
  feedback_clear : Grid -> FeedbackT;
  distrFB : Grid -> Weight -> Z -> Z -> Z -> Vector -> FeedbackT;
  distrFB_shear : Grid -> Weight -> Z -> Z -> Z -> Vector -> FeedbackT
}.

Variable cfg : Config.
Variable gl : Globals.
Variable co : Collaborators.

(** ** Private functions *)

(** [Get_Force]: the forces other than the gas drag. *)
Definition Get_Force (pG : Grid) (x1 x2 x3 v1 v2 v3 : Real) : Vector :=
  let ft := Vector.mk 0.0 0.0 0.0 in
  if SHEARING_BOX cfg then
    let omg2 := SQR (Omega gl) in
    if (Nx3 pG >? 1)%Z then
      (* 3D shearing sheet (x1,x2,x3)=(X,Y,Z) *)
      let ft :=
        if FARGO cfg then
          let ft := Vector.add_x1 ft (2.0 * v2 * Omega gl) in
          Vector.add_x2 ft ((-0.5) * v1 * Omega gl)
        else
          let ft := Vector.add_x1 ft (3.0 * omg2 * x1 + 2.0 * v2 * Omega gl) in
          Vector.add_x2 ft ((-2.0) * v1 * Omega gl) in
      if VERTICAL_GRAVITY cfg then Vector.add_x3 ft (- omg2 * x3) else ft
    else
      (* 2D shearing sheet (x1,x2,x3)=(X,Z,Y) *)
      let ft := Vector.add_x1 ft (3.0 * omg2 * x1 + 2.0 * v3 * Omega gl) in
      let ft := Vector.add_x3 ft ((-2.0) * v1 * Omega gl) in
      if VERTICAL_GRAVITY cfg then Vector.add_x2 ft (- omg2 * x2) else ft
  else ft.

(** [Get_Drag]: the drag force, returned together with [*tstop1]. *)
Definition Get_Drag (pG : Grid) (type : Z) (x1 x2 x3 v1 v2 v3 : Real)
    (cell1 : Vector) : Outcome (Vector * Real) :=
  let '(weight, is', js, ks) := getweight co pG x1 x2 x3 cell1 in
  let '(status, gv) := getvalues co pG weight is' js ks in
  let* (vd1, vd2, vd3, ts1) :=
    (if (status =? 0)%Z then
       (* particle in the grid *)
       let '(u1, u2, u3) := gasvshift co x1 x2 x3 (u1 gv, u2 gv, u3 gv) in
       let vd1 := v1 - u1 in
       let vd2 := v2 - u2 in
       let vd3 := v3 - u3 in
       let vd := sqrt co (SQR vd1 + SQR vd2 + SQR vd3) in
       let tstop := get_ts co pG type (rho gv) (cs gv) vd in
       let ts1 := 1.0 / tstop in
       ret (vd1, vd2, vd3, ts1)
     else
       (* particle out of the grid, free motion, with warning sign *)
       let* _ := ath_perr 1 "Particle move out of grid %d!\n" [my_id pG] in
       ret (0.0, 0.0, 0.0, 0.0)) in
  let fd := Vector.mk (- ts1 * vd1) (- ts1 * vd2) (- ts1 * vd3) in
  ret (fd, ts1).

(** [Delete_Ghost].  Every iteration of the [while] either removes a grain
    or advances [p], so [nparticle - p] iterations are enough; [k] counts
    the iterations left. *)
Fixpoint Delete_Ghost_loop (k : nat) (p : Z) (pG : Grid) : Grid :=
  match k with
  | O => pG
  | S k' =>
      if (p <? nparticle pG)%Z then
        let gr := particle_at pG p in
        if (pos gr =? 0)%Z then
          (* gr is a ghost particle *)
          let pG := set_nparticle pG (nparticle pG - 1) in
          let pG := alter_grproperty pG (property gr) dec_num in
          let pG := store_particle pG p (particle_at pG (nparticle pG)) in
          Delete_Ghost_loop k' p pG
        else
          Delete_Ghost_loop k' (p + 1) pG
      else pG
  end.

Definition Delete_Ghost (pG : Grid) : Grid :=
  Delete_Ghost_loop (Z.to_nat (nparticle pG)) 0 pG.

(** ** Public functions *)

(** [cell1]: one over dx1, dx2, dx3, and dimension indicator. *)
Definition cell1_of (pG : Grid) : Vector :=
  Vector.mk (if (Nx1 pG >? 1)%Z then 1.0 / dx1 pG else 0.0)
            (if (Nx2 pG >? 1)%Z then 1.0 / dx2 pG else 0.0)
            (if (Nx3 pG >? 1)%Z then 1.0 / dx3 pG else 0.0).

(** The two calls that end [feedback_corrector]: [distrFB], and in the 3D
    shearing box without FARGO also [distrFB_shear]. *)
Definition distribute (pG : Grid) (weight : Weight) (is' js ks : Z) (fb : Vector)
    : Grid :=
  let pG := set_feedback pG (distrFB co pG weight is' js ks fb) in
  if SHEARING_BOX cfg && negb (FARGO cfg) then
    if (Nx3 pG >? 1)%Z then
      (* 3D shearing box *)
      set_feedback pG (distrFB_shear co pG weight is' js ks fb)
    else pG
  else pG.

(** [feedback_corrector]: the feedback of one particle, for the corrector
    step.  [gri] is the grain before the update, [grf] the updated one. *)
Definition feedback_corrector (pG : Grid) (gri grf : Grain) (cell1 : Vector)
    (dv1 dv2 dv3 : Real) : Grid :=
  let mgr := m (grproperty_at pG (property gri)) in
  let x1 := 0.5 * (x1 gri + x1 grf) in
  let x2 := 0.5 * (x2 gri + x2 grf) in
  let x3 := 0.5 * (x3 gri + x3 grf) in
  let v1 := 0.5 * (v1 gri + v1 grf) in
  let v2 := 0.5 * (v2 gri + v2 grf) in
  let v3 := 0.5 * (v3 gri + v3 grf) in
  (* Force other than drag force *)
  let fb := Get_Force pG x1 x2 x3 v1 v2 v3 in
  let fb := Vector.mk (dv1 - dt pG * Vector.x1 fb)
                      (dv2 - dt pG * Vector.x2 fb)
                      (dv3 - dt pG * Vector.x3 fb) in
  (* Drag force density *)
  let fb := Vector.mk (mgr * Vector.x1 fb) (mgr * Vector.x2 fb) (mgr * Vector.x3 fb) in
  (* distribute the drag force (density) to the grid *)
  let '(weight, is', js, ks) := getweight co pG x1 x2 x3 cell1 in
  distribute pG weight is' js ks fb.

(** The condition of step 7 under which a grain is marked as crossing out. *)
Definition crossing (curP : Grain) : bool :=
  if negb (FARGO cfg) then
    (* if it crosses the grid boundary, mark it as a crossing out particle *)
    Rgeb (x1 curP) (x1upar gl) || Rltb (x1 curP) (x1lpar gl)
    || Rgeb (x2 curP) (x2upar gl) || Rltb (x2 curP) (x2lpar gl)
    || Rgeb (x3 curP) (x3upar gl) || Rltb (x3 curP) (x3lpar gl)
  else
    (* FARGO will naturally return the "crossing out" particles in the
       x2 direction to the grid *)
    Rgeb (x1 curP) (x1upar gl) || Rltb (x1 curP) (x1lpar gl)
    || Rgeb (x3 curP) (x3upar gl) || Rltb (x3 curP) (x3lpar gl).

(** Steps 5 to 7 of the loop body, which the three integrators share word
    for word: update of the temporary [curP], FARGO shift, feedback, tagging
    of a grain that crossed the boundary, and copy back into [particle[p]].
    [curG] points into the array: the shift is stored before the feedback is
    computed.  Of the temporary, only position and velocity are ever read;
    its other fields are filled with those of [curG]. *)
Definition update_particle (pG : Grid) (p : Z) (cell1 : Vector)
    (dv : Real * Real * Real) : Grid :=
  let '(dv1, dv2, dv3) := dv in
  let curG := particle_at pG p in
  (* Step 5: particle update to curP *)
  let curP_v1 := v1 curG + dv1 in
  let curP_v2 := v2 curG + dv2 in
  let curP_v3 := v3 curG + dv3 in
  let curP_x1 :=
    if (Nx1 pG >? 1)%Z then x1 curG + 0.5 * dt pG * (v1 curG + curP_v1)
    else x1 curG in
  let curP_x2 :=
    if (Nx2 pG >? 1)%Z then x2 curG + 0.5 * dt pG * (v2 curG + curP_v2)
    else x2 curG in
  let curP_x3 :=
    if (Nx3 pG >? 1)%Z then x3 curG + 0.5 * dt pG * (v3 curG + curP_v3)
    else x3 curG in
  let curP := set_xv curG curP_x1 curP_x2 curP_x3 curP_v1 curP_v2 curP_v3 in
  let pG :=
    if FARGO cfg then
      (* shift = -3/2 * Omega * x * dt *)
      store_particle pG p
        (set_shift curG ((-0.75) * Omega gl * (x1 curG + x1 curP) * dt pG))
    else pG in
  (* step 6: calculate feedback force to the gas *)
  let pG :=
    if FEEDBACK cfg then
      feedback_corrector pG (particle_at pG p) curP cell1 dv1 dv2 dv3
    else pG in
  (* step 7: update the particle in pG *)
  let pG :=
    if crossing curP then store_particle pG p (set_pos (particle_at pG p) 10)
    else pG in
  store_particle pG p
    (set_xv (particle_at pG p) (x1 curP) (x2 curP) (x3 curP)
       (v1 curP) (v2 curP) (v3 curP)).

(** The loop body of an integrator whose steps 1 to 4 are [steps14]. *)
Definition loop_body
    (steps14 : Grid -> Vector -> Grain -> Outcome (Real * Real * Real))
    (cell1 : Vector) (p : Z) (pG : Grid) : Outcome Grid :=
  let* dv := steps14 pG cell1 (particle_at pG p) in
  ret (update_particle pG p cell1 dv).

(** The [while (p < pG->nparticle)] of the integrators.  A body leaves
    [nparticle] alone and [p] advances every time, so [nparticle - p]
    iterations are enough; [k] counts the iterations left. *)
Fixpoint particle_loop (body : Z -> Grid -> Outcome Grid) (k : nat) (p : Z)
    (pG : Grid) : Outcome Grid :=
  match k with
  | O => ret pG
  | S k' =>
      if (p <? nparticle pG)%Z then
        let* pG := body p pG in
        particle_loop body k' (p + 1) pG
      else ret pG
  end.

(** *** Fully implicit integrator *)

(** Step 4, first part: the total force. *)
Definition fulimp_ft (pG : Grid) (fc fp : Vector) (ts11 : Real) : Vector :=
  let b0 := 1.0 + dt pG * ts11 in
  let ft := Vector.mk (0.5 * (Vector.x1 fc + b0 * Vector.x1 fp))
                      (0.5 * (Vector.x2 fc + b0 * Vector.x2 fp))
                      (0.5 * (Vector.x3 fc + b0 * Vector.x3 fp)) in
  if SHEARING_BOX cfg then
    let oh := Omega gl * dt pG in
    if (Nx3 pG >? 1)%Z then
      (* 3D shearing sheet (x1,x2,x3)=(X,Y,Z) *)
      let ft := Vector.add_x1 ft (- oh * Vector.x2 fp) in
      if FARGO cfg then Vector.add_x2 ft (0.25 * oh * Vector.x1 fp)
      else Vector.add_x2 ft (oh * Vector.x1 fp)
    else
      (* 2D shearing sheet (x1,x2,x3)=(X,Z,Y) *)
      let ft := Vector.add_x1 ft (- oh * Vector.x3 fp) in
      Vector.add_x3 ft (oh * Vector.x1 fp)
  else ft.

(** Step 4, second part: the inverse matrix elements. *)
Definition fulimp_D (pG : Grid) (ts11 ts12 : Real) : Real :=
  1.0 + 0.5 * dt pG * (ts11 + ts12 + dt pG * ts11 * ts12).
Definition fulimp_B (pG : Grid) (ts11 ts12 : Real) : Real :=
  let oh := Omega gl * dt pG in
  oh * (-2.0 - (ts11 + ts12) * dt pG).
Definition fulimp_A (pG : Grid) (ts11 ts12 : Real) : Real :=
  let oh := Omega gl * dt pG in
  let oh2 := SQR oh in
  let D := fulimp_D pG ts11 ts12 in
  if FARGO cfg then D - 0.5 * oh2 else D - 2.0 * oh2.
Definition fulimp_C (pG : Grid) (ts11 ts12 : Real) : Real :=
  let B := fulimp_B pG ts11 ts12 in
  if FARGO cfg then (-0.25) * B else - B.

(** Step 4: the velocity update. *)
Definition fulimp_step4 (pG : Grid) (fc fp : Vector) (ts11 ts12 : Real)
    : Real * Real * Real :=
  let ft := fulimp_ft pG fc fp ts11 in
  let D := fulimp_D pG ts11 ts12 in
  if SHEARING_BOX cfg then
    let B := fulimp_B pG ts11 ts12 in
    let A := fulimp_A pG ts11 ts12 in
    let C := fulimp_C pG ts11 ts12 in
    let Det1 := 1.0 / (SQR A - B * C) in
    if (Nx3 pG >? 1)%Z then
      (dt pG * Det1 * (Vector.x1 ft * A - Vector.x2 ft * B),
       dt pG * Det1 * (- Vector.x1 ft * C + Vector.x2 ft * A),
       dt pG * Vector.x3 ft / D)
    else
      (dt pG * Det1 * (Vector.x1 ft * A - Vector.x3 ft * B),
       dt pG * Vector.x2 ft / D,
       dt pG * Det1 * (- Vector.x1 ft * C + Vector.x3 ft * A))
  else
    let D := 1.0 / D in
    (dt pG * Vector.x1 ft * D, dt pG * Vector.x2 ft * D, dt pG * Vector.x3 ft * D).

(** Step 1: predictor of the particle position after one time step. *)
Definition fulimp_step1 (pG : Grid) (curG : Grain) : Real * Real * Real :=
  let x1n := if (Nx1 pG >? 1)%Z then x1 curG + v1 curG * dt pG else x1 curG in
  let x2n := if (Nx2 pG >? 1)%Z then x2 curG + v2 curG * dt pG else x2 curG in
  let x3n := if (Nx3 pG >? 1)%Z then x3 curG + v3 curG * dt pG else x3 curG in
  let x2n :=
    if SHEARING_BOX cfg && negb (FARGO cfg) then
      (* advection part *)
      if (Nx3 pG >? 1)%Z then x2n - 0.75 * v1 curG * SQR (dt pG) else x2n
    else x2n in
  (x1n, x2n, x3n).

(** Steps 1 to 4 for the grain [curG]. *)
Definition fulimp_dv (pG : Grid) (cell1 : Vector) (curG : Grain)
    : Outcome (Real * Real * Real) :=
  let '(x1n, x2n, x3n) := fulimp_step1 pG curG in
  (* step 2: calculate the force at current position *)
  let* (fd, ts11) :=
    Get_Drag pG (property curG) (x1 curG) (x2 curG) (x3 curG)
      (v1 curG) (v2 curG) (v3 curG) cell1 in
  let fr := Get_Force pG (x1 curG) (x2 curG) (x3 curG) (v1 curG) (v2 curG) (v3 curG) in
  let fc := Vector.mk (Vector.x1 fd + Vector.x1 fr) (Vector.x2 fd + Vector.x2 fr)
                      (Vector.x3 fd + Vector.x3 fr) in
  (* step 3: calculate the force at the predicted position *)
  let* (fd, ts12) :=
    Get_Drag pG (property curG) x1n x2n x3n (v1 curG) (v2 curG) (v3 curG) cell1 in
  let fr := Get_Force pG x1n x2n x3n (v1 curG) (v2 curG) (v3 curG) in
  let fp := Vector.mk (Vector.x1 fd + Vector.x1 fr) (Vector.x2 fd + Vector.x2 fr)
                      (Vector.x3 fd + Vector.x3 fr) in
  (* step 4: calculate the velocity update *)
  ret (fulimp_step4 pG fc fp ts11 ts12).

(** [integrate_particle_fulimp].  The fractional shift [yshift_frac] that the
    C function computes first is never used and is left out. *)
Definition integrate_particle_fulimp (pG : Grid) : Outcome Grid :=
  let pG := if FEEDBACK cfg then set_feedback pG (feedback_clear co pG) else pG in
  let cell1 := cell1_of pG in
  (* delete all ghost particles *)
  let pG := Delete_Ghost pG in
  let* pG :=
    particle_loop (loop_body fulimp_dv cell1) (Z.to_nat (nparticle pG)) 0 pG in
  let* _ := ath_pout 0 "In processor %d, there are %ld particles.\n"
              [my_id pG; nparticle pG] in
  ret pG.

(** *** Semi-implicit integrator *)

(** Step 1 of the semi-implicit and of the explicit integrator, which is
    the same in both: predictor of the particle position after half a time
    step. *)
Definition half_step1 (pG : Grid) (curG : Grain) : Real * Real * Real :=
  let x1n := if (Nx1 pG >? 1)%Z then x1 curG + 0.5 * v1 curG * dt pG else x1 curG in
  let x2n := if (Nx2 pG >? 1)%Z then x2 curG + 0.5 * v2 curG * dt pG else x2 curG in
  let x3n := if (Nx3 pG >? 1)%Z then x3 curG + 0.5 * v3 curG * dt pG else x3 curG in
  let x2n :=
    if SHEARING_BOX cfg && negb (FARGO cfg) then
      (* advection part *)
      if (Nx3 pG >? 1)%Z then x2n - 0.1875 * v1 curG * SQR (dt pG) else x2n
    else x2n in
  (x1n, x2n, x3n).

(** Step 4: the velocity update from the total force [ft] and [ts1]. *)
Definition semimp_step4 (pG : Grid) (ft : Vector) (ts1 : Real)
    : Real * Real * Real :=
  let b := dt pG * ts1 + 2.0 in
  if SHEARING_BOX cfg then
    let oh := Omega gl * dt pG in
    let b1 :=
      if FARGO cfg then 1.0 / (SQR b + SQR oh)
      else 1.0 / (SQR b + 4.0 * SQR oh) in
    let b2 := b * b1 in
    if (Nx3 pG >? 1)%Z then
      (* 3D shearing sheet (x1,x2,x3)=(X,Y,Z) *)
      let dv1 := dt pG * 2.0 * b2 * Vector.x1 ft + dt pG * 4.0 * oh * b1 * Vector.x2 ft in
      let dv2 := dt pG * 2.0 * b2 * Vector.x2 ft in
      let dv2 :=
        if FARGO cfg then dv2 - dt pG * oh * b1 * Vector.x1 ft
        else dv2 - 4.0 * dt pG * oh * b1 * Vector.x1 ft in
      let dv3 := dt pG * 2.0 * Vector.x3 ft / b in
      (dv1, dv2, dv3)
    else
      (* 2D shearing sheet (x1,x2,x3)=(X,Z,Y) *)
      let dv1 := dt pG * 2.0 * b2 * Vector.x1 ft + dt pG * 4.0 * oh * b1 * Vector.x3 ft in
      let dv2 := dt pG * 2.0 * Vector.x2 ft / b in
      let dv3 := dt pG * 2.0 * b2 * Vector.x3 ft - 4.0 * dt pG * oh * b1 * Vector.x1 ft in
      (dv1, dv2, dv3)
  else
    let b2 := 1.0 / b in
    (dt pG * 2.0 * b2 * Vector.x1 ft,
     dt pG * 2.0 * b2 * Vector.x2 ft,
     dt pG * 2.0 * b2 * Vector.x3 ft).

(** Steps 1 to 4 for the grain [curG]. *)
Definition semimp_dv (pG : Grid) (cell1 : Vector) (curG : Grain)
    : Outcome (Real * Real * Real) :=
  let '(x1n, x2n, x3n) := half_step1 pG curG in
  (* Step 2: fluid density, velocity and sound speed at the predicted position *)
  let* (fd, ts1) :=
    Get_Drag pG (property curG) x1n x2n x3n (v1 curG) (v2 curG) (v3 curG) cell1 in
  let fr := Get_Force pG x1n x2n x3n (v1 curG) (v2 curG) (v3 curG) in
  let ft := Vector.mk (Vector.x1 fd + Vector.x1 fr) (Vector.x2 fd + Vector.x2 fr)
                      (Vector.x3 fd + Vector.x3 fr) in
  (* step 4: calculate velocity update *)
  ret (semimp_step4 pG ft ts1).

Definition integrate_particle_semimp (pG : Grid) : Outcome Grid :=
  let pG := if FEEDBACK cfg then set_feedback pG (feedback_clear co pG) else pG in
  let cell1 := cell1_of pG in
  (* delete all ghost particles *)
  let pG := Delete_Ghost pG in
  let* pG :=
    particle_loop (loop_body semimp_dv cell1) (Z.to_nat (nparticle pG)) 0 pG in
  let* _ := ath_pout 0 "In processor %d, there are %ld particles.\n"
              [my_id pG; nparticle pG] in
  ret pG.

(** *** Explicit integrator *)

(** Steps 1 to 4 for the grain [curG]. *)
Definition exp_dv (pG : Grid) (cell1 : Vector) (curG : Grain)
    : Outcome (Real * Real * Real) :=
  let '(x1n, x2n, x3n) := half_step1 pG curG in
  (* step 2: predictor of particle velocity after half a time step *)
  let* (fd, ts1) :=
    Get_Drag pG (property curG) (x1 curG) (x2 curG) (x3 curG)
      (v1 curG) (v2 curG) (v3 curG) cell1 in
  let fr := Get_Force pG (x1 curG) (x2 curG) (x3 curG) (v1 curG) (v2 curG) (v3 curG) in
  let ft := Vector.mk (Vector.x1 fd + Vector.x1 fr) (Vector.x2 fd + Vector.x2 fr)
                      (Vector.x3 fd + Vector.x3 fr) in
  let v1n := v1 curG + 0.5 * Vector.x1 ft * dt pG in
  let v2n := v2 curG + 0.5 * Vector.x2 ft * dt pG in
  let v3n := v3 curG + 0.5 * Vector.x3 ft * dt pG in
  (* step 3: calculate the force at the predicted position *)
  let* (fd, ts1) :=
    Get_Drag pG (property curG) x1n x2n x3n v1n v2n v3n cell1 in
  let fr := Get_Force pG x1n x2n x3n v1n v2n v3n in
  let ft := Vector.mk (Vector.x1 fd + Vector.x1 fr) (Vector.x2 fd + Vector.x2 fr)
                      (Vector.x3 fd + Vector.x3 fr) in
  (* step 4: calculate velocity update *)
  ret (Vector.x1 ft * dt pG, Vector.x2 ft * dt pG, Vector.x3 ft * dt pG).

Definition integrate_particle_exp (pG : Grid) : Outcome Grid :=
  let pG := if FEEDBACK cfg then set_feedback pG (feedback_clear co pG) else pG in
  let cell1 := cell1_of pG in
  (* delete all ghost particles *)
  let pG := Delete_Ghost pG in
  let* pG :=
    particle_loop (loop_body exp_dv cell1) (Z.to_nat (nparticle pG)) 0 pG in
  let* _ := ath_pout 0 "In processor %d, there are %ld particles.\n"
              [my_id pG; nparticle pG] in
  ret pG.

End Integrators.

Arguments Grid : clear implicits.
Arguments Collaborators : clear implicits.

(** ** Feedback for the predictor step *)

Section Predictor.

Context {GasT FeedbackT : Type}.
Variable co : Collaborators GasT FeedbackT.

(** [get_gasinfo] of utils_particle.c, which is not part of this file: it
    computes the gas information that the interpolation reads, and is taken
    to return the new content of the gas arrays. *)
Variable get_gasinfo : Grid GasT FeedbackT -> GasT.

Definition set_U (pG : Grid GasT FeedbackT) (u : GasT) : Grid GasT FeedbackT :=
  mkGrid (Nx1 pG) (Nx2 pG) (Nx3 pG) (dx1 pG) (dx2 pG) (dx3 pG) (dt pG) (time pG)
    (my_id pG) (nparticle pG) (particle pG) (grproperty pG) u (feedback pG).

(** [MAX] of defs.h: [a > b ? a : b]. *)
Definition MAX (a b : Real) : Real := if Rltb b a then a else b.

(** The body of the loop of [feedback_predictor] for the particle [p]. *)
Definition feedback_predictor_body (cell1 : Vector) (p : Z)
    (pG : Grid GasT FeedbackT) : Grid GasT FeedbackT :=
  let cur := particle_at pG p in
  (* interpolation to get fluid density and velocity *)
  let '(weight, is', js, ks) := getweight co pG (x1 cur) (x2 cur) (x3 cur) cell1 in
  let '(status, gv) := getvalues co pG weight is' js ks in
  if (status =? 0)%Z then
    (* particle is in the grid *)
    (* apply gas velocity shift due to pressure gradient *)
    let '(u1, u2, u3) :=
      gasvshift co (x1 cur) (x2 cur) (x3 cur) (u1 gv, u2 gv, u3 gv) in
    (* velocity difference *)
    let vd1 := u1 - v1 cur in
    let vd2 := u2 - v2 cur in
    let vd3 := u3 - v3 cur in
    let vd := sqrt co (vd1 * vd1 + vd2 * vd2 + vd3 * vd3) in
    (* calculate particle stopping time *)
    let tstop := MAX (get_ts co pG (property cur) (rho gv) (cs gv) vd) (dt pG) in
    let ts1h := 0.5 * dt pG / tstop in
    (* Drag force density *)
    let m := m (grproperty_at pG (property cur)) in
    let fb := Vector.mk (m * vd1 * ts1h) (m * vd2 * ts1h) (m * vd3 * ts1h) in
    (* distribute the drag force (density) to the grid *)
    set_feedback pG (distrFB co pG weight is' js ks fb)
  else pG.

(** The [for (p=0; p<pG->nparticle; p++)]; [k] counts the iterations left. *)
Fixpoint feedback_predictor_loop (cell1 : Vector) (k : nat) (p : Z)
    (pG : Grid GasT FeedbackT) : Grid GasT FeedbackT :=
  match k with
  | O => pG
  | S k' =>
      if (p <? nparticle pG)%Z then
        feedback_predictor_loop cell1 k' (p + 1) (feedback_predictor_body cell1 p pG)
      else pG
  end.

(** [feedback_predictor]: the feedback of all the particles, for the
    predictor step. *)
Definition feedback_predictor (pG : Grid GasT FeedbackT) : Grid GasT FeedbackT :=
  (* calculate gas information *)
  let pG := set_U pG (get_gasinfo pG) in
  (* clean the feedback array *)
  let pG := set_feedback pG (feedback_clear co pG) in
  let cell1 := cell1_of pG in
  feedback_predictor_loop cell1 (Z.to_nat (nparticle pG)) 0 pG.

End Predictor.

(** * Definitions used by the statements *)

Section Statements.

Context {GasT FeedbackT : Type}.
Variable cfg : Config.
Variable gl : Globals.
Variable co : Collaborators GasT FeedbackT.

Abbreviation Grid := (Grid GasT FeedbackT).
Implicit Types pG : Grid.

(** Two grids that differ at most in the grain array and the feedback array. *)
Definition same_frame (pG pG' : Grid) : Prop :=
  Nx1 pG' = Nx1 pG /\ Nx2 pG' = Nx2 pG /\ Nx3 pG' = Nx3 pG /\
  dx1 pG' = dx1 pG /\ dx2 pG' = dx2 pG /\ dx3 pG' = dx3 pG /\
  dt pG' = dt pG /\ time pG' = time pG /\ my_id pG' = my_id pG /\
  nparticle pG' = nparticle pG /\ grproperty pG' = grproperty pG /\
  U pG' = U pG.

(** The grain that steps 5 to 7 leave in [particle[p]], from the grain
    [curG] found there and the velocity update [dv]. *)
Definition stepped_grain (pG : Grid) (curG : Grain) (dv : Real * Real * Real)
    : Grain :=
  let '(dv1, dv2, dv3) := dv in
  let nv1 := v1 curG + dv1 in
  let nv2 := v2 curG + dv2 in
  let nv3 := v3 curG + dv3 in
  let nx1 := if (Nx1 pG >? 1)%Z then x1 curG + 0.5 * dt pG * (v1 curG + nv1)
             else x1 curG in
  let nx2 := if (Nx2 pG >? 1)%Z then x2 curG + 0.5 * dt pG * (v2 curG + nv2)
             else x2 curG in
  let nx3 := if (Nx3 pG >? 1)%Z then x3 curG + 0.5 * dt pG * (v3 curG + nv3)
             else x3 curG in
  let curP := set_xv curG nx1 nx2 nx3 nv1 nv2 nv3 in
  mkGrain nx1 nx2 nx3 nv1 nv2 nv3 (property curG)
    (if crossing cfg gl curP then 10%Z else pos curG)
    (if FARGO cfg then (-0.75) * Omega gl * (x1 curG + nx1) * dt pG
     else shift curG).

(** Steps 1 to 4 that return on every grain. *)
Definition total_steps14
    (K : Grid -> Vector -> Grain -> Outcome (Real * Real * Real)) : Prop :=
  forall pG cell1 g, wp (K pG cell1 g) (fun _ _ => True).

End Statements.

(** ** Ghost purge *)

(** A grain that the purge keeps, and a ghost of species [s]. *)
Definition live (g : Grain) : Prop := pos g <> 0%Z.
Definition ghost_of (s : Z) (g : Grain) : Prop := pos g = 0%Z /\ property g = s.

#[global] Instance live_dec g : Decision (live g).
Proof. unfold live. apply _. Defined.
#[global] Instance ghost_of_dec s g : Decision (ghost_of s g).
Proof. unfold ghost_of. apply _. Defined.

Section Purge.

Context {GasT FeedbackT : Type}.
Abbreviation Grid := (Grid GasT FeedbackT).
Implicit Types pG : Grid.

(** The grains of the array in slots [p..nparticle). *)
Definition grains_from (pG : Grid) (p : Z) : list Grain :=
  drop (Z.to_nat p) (take (Z.to_nat (nparticle pG)) (particle pG)).

(** The grains of the array: the first [nparticle] slots. *)
Definition grains (pG : Grid) : list Grain := grains_from pG 0.

(** [nparticle] is not negative and does not exceed the size of the array. *)
Definition well_sized (pG : Grid) : Prop :=
  (0 <= nparticle pG)%Z /\ (Z.to_nat (nparticle pG) <= length (particle pG))%nat.

(** Two grids that differ at most in the grains, their number and the
    species table. *)
Definition purge_frame (pG pG' : Grid) : Prop :=
  Nx1 pG' = Nx1 pG /\ Nx2 pG' = Nx2 pG /\ Nx3 pG' = Nx3 pG /\
  dx1 pG' = dx1 pG /\ dx2 pG' = dx2 pG /\ dx3 pG' = dx3 pG /\
  dt pG' = dt pG /\ time pG' = time pG /\ my_id pG' = my_id pG /\
  U pG' = U pG /\ feedback pG' = feedback pG.

End Purge.

Section PurgeResult.

Context {GasT FeedbackT : Type}.
Abbreviation Grid := (Grid GasT FeedbackT).

(** What the purge started at slot [p] of [pG] leaves in [pG']: the slots
    before [p] are as they were, the grains from [p] on are those that were
    live, in some order, and every species counter went down by the number
    of ghosts of the species removed. *)
Definition purged (p : Z) (pG pG' : Grid) : Prop :=
  purge_frame pG pG' /\
  (p <= nparticle pG' <= nparticle pG)%Z /\
  length (particle pG') = length (particle pG) /\
  take (Z.to_nat p) (particle pG') = take (Z.to_nat p) (particle pG) /\
  grains_from pG' p ≡ₚ filter live (grains_from pG p) /\
  length (grproperty pG') = length (grproperty pG) /\
  forall s : nat, (s < length (grproperty pG))%nat ->
    m (grproperty pG' !!! s) = m (grproperty pG !!! s) /\
    num (grproperty pG' !!! s)
    = (num (grproperty pG !!! s)
       - Z.of_nat (length (filter (ghost_of (Z.of_nat s)) (grains_from pG p))))%Z.

End PurgeResult.

(** ** Vectors up to [==] *)

Definition Veq (a b : Vector) : Prop :=
  Vector.x1 a == Vector.x1 b /\ Vector.x2 a == Vector.x2 b /\
  Vector.x3 a == Vector.x3 b.
Definition Vzero : Vector := Vector.mk 0 0 0.
Definition Vadd (a b : Vector) : Vector :=
  Vector.mk (Vector.x1 a + Vector.x1 b) (Vector.x2 a + Vector.x2 b)
            (Vector.x3 a + Vector.x3 b).
Definition Vsum (l : list Vector) : Vector := foldr Vadd Vzero l.

Section Feedback.

Context {GasT FeedbackT : Type}.
Variable cfg : Config.
Variable gl : Globals.
Variable co : Collaborators GasT FeedbackT.
Abbreviation Grid := (Grid GasT FeedbackT).
Implicit Types pG : Grid.

(** The non-drag force at the midpoint state of the grains [a] (before the
    update) and [b] (after it). *)
Definition midpoint_force (pG : Grid) (a b : Grain) : Vector :=
  Get_Force cfg gl pG
    (0.5 * (x1 a + x1 b)) (0.5 * (x2 a + x2 b)) (0.5 * (x3 a + x3 b))
    (0.5 * (v1 a + v1 b)) (0.5 * (v2 a + v2 b)) (0.5 * (v3 a + v3 b)).

(** The momentum that the drag alone took from a grain: [m (dv - dt f)],
    with [m] the mass of the species of [a], [dv] the velocity update and
    [f] the non-drag force at the midpoint state. *)
Definition drag_impulse (pG : Grid) (a b : Grain) (dv : Real * Real * Real)
    : Vector :=
  let mgr := m (grproperty_at pG (property a)) in
  let f := midpoint_force pG a b in
  Vector.mk (mgr * (dv.1.1 - dt pG * Vector.x1 f))
            (mgr * (dv.1.2 - dt pG * Vector.x2 f))
            (mgr * (dv.2 - dt pG * Vector.x3 f)).

(** [total] measures the momentum held by a feedback array, and the
    distribution of a momentum [fb] over the stencil adds [fb] to it. *)
Definition conserving (total : FeedbackT -> Vector) : Prop :=
  forall pG weight is' js ks fb,
    Veq (total (feedback (distribute cfg co pG weight is' js ks fb)))
        (Vadd (total (feedback pG)) fb).

(** What the loop started at slot [p] of [pG] leaves in [pG']: there are
    velocity updates [dvs], one per grain from [p] on and each returned by
    steps 1 to 4 on that grain, such that every such grain was replaced by
    its [stepped_grain]; and with feedback the momentum of the feedback
    array grew by the sum of the drag impulses of these grains. *)
Definition looped
    (K : Grid -> Vector -> Grain -> Outcome (Real * Real * Real))
    (cell1 : Vector) (p : Z) (pG pG' : Grid) : Prop :=
  same_frame pG pG' /\
  exists dvs : list (Real * Real * Real),
    Forall2 (fun a dv => exists pGi o, same_frame pG pGi /\
                                       K pGi cell1 a = Returns dv o)
      (grains_from pG p) dvs /\
    particle pG'
    = take (Z.to_nat p) (particle pG)
      ++ zip_with (stepped_grain cfg gl pG) (grains_from pG p) dvs
      ++ drop (Z.to_nat (nparticle pG)) (particle pG) /\
    (FEEDBACK cfg = false -> feedback pG' = feedback pG) /\
    (FEEDBACK cfg = true ->
     forall total, conserving total ->
       Veq (total (feedback pG'))
           (Vadd (total (feedback pG))
              (Vsum (zip_with
                       (fun a dv => drag_impulse pG a (stepped_grain cfg gl pG a dv) dv)
                       (grains_from pG p) dvs)))).

End Feedback.

Section IntegratorResult.

Context {GasT FeedbackT : Type}.
Variable cfg : Config.
Variable gl : Globals.
Variable co : Collaborators GasT FeedbackT.
Abbreviation Grid := (Grid GasT FeedbackT).
Implicit Types pG : Grid.

(** Two grids with the same mesh, time step and gas. *)
Definition same_mesh (pG pG' : Grid) : Prop :=
  Nx1 pG' = Nx1 pG /\ Nx2 pG' = Nx2 pG /\ Nx3 pG' = Nx3 pG /\
  dx1 pG' = dx1 pG /\ dx2 pG' = dx2 pG /\ dx3 pG' = dx3 pG /\
  dt pG' = dt pG /\ time pG' = time pG /\ my_id pG' = my_id pG /\
  U pG' = U pG.

(** What an integrator whose steps 1 to 4 are [K] makes of [pG]: the grains
    of the result are the grains of [pG] that were live, taken in some order
    ([survivors]) and each replaced by its [stepped_grain] for the velocity
    update that [K] returned on it; with feedback, the momentum of the
    feedback array is the sum of the drag impulses of the survivors. *)
Definition integrated
    (K : Grid -> Vector -> Grain -> Outcome (Real * Real * Real))
    (pG pG' : Grid) : Prop :=
  same_mesh pG pG' /\
  exists (survivors : list Grain) (dvs : list (Real * Real * Real)),
    survivors ≡ₚ filter live (grains pG) /\
    nparticle pG' = Z.of_nat (length survivors) /\
    Forall2 (fun a dv => exists pGi o, same_mesh pG pGi /\
                                       K pGi (cell1_of pG) a = Returns dv o)
      survivors dvs /\
    grains pG' = zip_with (stepped_grain cfg gl pG) survivors dvs /\
    (FEEDBACK cfg = false -> feedback pG' = feedback pG) /\
    (FEEDBACK cfg = true ->
     forall total, conserving cfg co total ->
       Veq (total (feedback_clear co pG)) Vzero ->
       Veq (total (feedback pG'))
           (Vsum (zip_with
                    (fun a dv => drag_impulse cfg gl pG a (stepped_grain cfg gl pG a dv) dv)
                    survivors dvs))).

End IntegratorResult.

(** ** Statements about the three integrators *)

(** [x] lies outside the half-open interval from [lo] to [up]. *)
Definition outside (x lo up : Real) : Prop := up <= x \/ x < lo.

Section ClaimStatements.

Context {GasT FeedbackT : Type}.
Variable cfg : Config.
Variable gl : Globals.
Variable co : Collaborators GasT FeedbackT.
Abbreviation Grid := (Grid GasT FeedbackT).
Implicit Types pG : Grid.

(** Each of the three integrators returns on [pG] with [Q]. *)
Definition every_integrator (pG : Grid) (Q : Grid -> list Msg -> Prop) : Prop :=
  wp (integrate_particle_exp cfg gl co pG) Q /\
  wp (integrate_particle_semimp cfg gl co pG) Q /\
  wp (integrate_particle_fulimp cfg gl co pG) Q.

(** The grains of [pG'] are the live grains of [pG], in some order, and each
    is related by [R] to what it was. *)
Definition grains_related (R : Grain -> Grain -> Prop) (pG pG' : Grid) : Prop :=
  exists survivors : list Grain,
    survivors ≡ₚ filter live (grains pG) /\ Forall2 R survivors (grains pG').

(** On a collapsed axis the position, respectively the velocity, of the
    grain [b] is that of [a]. *)
Definition collapsed_position_kept (pG : Grid) (a b : Grain) : Prop :=
  (Nx1 pG = 1%Z -> x1 b = x1 a) /\ (Nx2 pG = 1%Z -> x2 b = x2 a) /\
  (Nx3 pG = 1%Z -> x3 b = x3 a).
Definition collapsed_velocity_kept (pG : Grid) (a b : Grain) : Prop :=
  (Nx1 pG = 1%Z -> v1 b == v1 a) /\ (Nx2 pG = 1%Z -> v2 b == v2 a) /\
  (Nx3 pG = 1%Z -> v3 b == v3 a).

(** Tagging in FARGO mode with the azimuthal axis exempt: x2 when
    [Nx3 > 1], x3 when [Nx3 = 1].  First the exempt axis alone never tags,
    then every other active axis does. *)
Definition fargo_tagging_by_azimuth (pG : Grid) (a b : Grain) : Prop :=
  ((Nx3 pG > 1)%Z ->
   ~ outside (x1 b) (x1lpar gl) (x1upar gl) ->
   ~ outside (x3 b) (x3lpar gl) (x3upar gl) -> pos b = pos a) /\
  (Nx3 pG = 1%Z ->
   ~ outside (x1 b) (x1lpar gl) (x1upar gl) ->
   ~ outside (x2 b) (x2lpar gl) (x2upar gl) -> pos b = pos a) /\
  ((Nx1 pG > 1)%Z -> outside (x1 b) (x1lpar gl) (x1upar gl) -> pos b = 10%Z) /\
  (Nx3 pG = 1%Z -> (Nx2 pG > 1)%Z ->
   outside (x2 b) (x2lpar gl) (x2upar gl) -> pos b = 10%Z) /\
  ((Nx3 pG > 1)%Z -> outside (x3 b) (x3lpar gl) (x3upar gl) -> pos b = 10%Z).

(** Tagging in FARGO mode with x2 exempt. *)
Definition fargo_tagging_x2_exempt (a b : Grain) : Prop :=
  (~ outside (x1 b) (x1lpar gl) (x1upar gl) ->
   ~ outside (x3 b) (x3lpar gl) (x3upar gl) -> pos b = pos a) /\
  (outside (x1 b) (x1lpar gl) (x1upar gl) \/
   outside (x3 b) (x3lpar gl) (x3upar gl) -> pos b = 10%Z).

(** Apart from position and velocity, an integrator changes of a grain at
    most [pos], to 10, and with FARGO [shift]. *)
Definition grain_frame (a b : Grain) : Prop :=
  property b = property a /\
  (pos b = pos a \/ pos b = 10%Z) /\
  (FARGO cfg = false -> shift b = shift a).

(** The determinant of the fully implicit integrator for the grain [g] is
    not positive: [ts11] and [ts12] are what the two drag evaluations return. *)
Definition singular_grain (pG : Grid) (g : Grain) : Prop :=
  exists fd1 ts11 o1 fd2 ts12 o2,
    Get_Drag co pG (property g) (x1 g) (x2 g) (x3 g) (v1 g) (v2 g) (v3 g)
      (cell1_of pG) = Returns (fd1, ts11) o1 /\
    Get_Drag co pG (property g) (fulimp_step1 cfg pG g).1.1
      (fulimp_step1 cfg pG g).1.2 (fulimp_step1 cfg pG g).2
      (v1 g) (v2 g) (v3 g) (cell1_of pG) = Returns (fd2, ts12) o2 /\
    SQR (fulimp_A cfg gl pG ts11 ts12)
    - fulimp_B gl pG ts11 ts12 * fulimp_C cfg gl pG ts11 ts12 <= 0.

(** The fully implicit integrator aborts on a grid with a singular grain. *)
Definition aborts_when_singular (pG : Grid) : Prop :=
  (exists g, g ∈ grains pG /\ live g /\ singular_grain pG g) ->
  exists out, integrate_particle_fulimp cfg gl co pG = Aborts out.

(** The symmetrised drive [(fc + b0 fp) / 2] with [b0 = 1 + dt ts11]. *)
Definition spec_drive (dt ts11 : Real) (fc fp : Vector) : Vector :=
  let b0 := 1 + dt * ts11 in
  Vector.mk ((1 # 2) * (Vector.x1 fc + b0 * Vector.x1 fp))
            ((1 # 2) * (Vector.x2 fc + b0 * Vector.x2 fp))
            ((1 # 2) * (Vector.x3 fc + b0 * Vector.x3 fp)).

(** Coriolis contributions of the predictor in 3D, and the same with the
    indices 2 and 3 swapped; [w] is [Omega dt]. *)
Definition spec_coriolis_3D (fargo : bool) (w : Real) (fp : Vector) : Vector :=
  Vector.mk (- w * Vector.x2 fp)
            (if fargo then (1 # 4) * w * Vector.x1 fp else w * Vector.x1 fp)
            0.
Definition spec_coriolis_2D_swapped (fargo : bool) (w : Real) (fp : Vector)
    : Vector :=
  Vector.mk (- w * Vector.x3 fp)
            0
            (if fargo then (1 # 4) * w * Vector.x1 fp else w * Vector.x1 fp).

(** Matrix elements of the fully implicit scheme. *)
Definition spec_D (dt ts1 ts2 : Real) : Real :=
  1 + (1 # 2) * dt * (ts1 + ts2 + dt * ts1 * ts2).
Definition spec_B (w dt ts1 ts2 : Real) : Real :=
  w * (- (2) - (ts1 + ts2) * dt).
Definition spec_A (fargo : bool) (w D : Real) : Real :=
  if fargo then D - (1 # 2) * (w * w) else D - 2 * (w * w).
Definition spec_C (fargo : bool) (B : Real) : Real :=
  if fargo then - ((1 # 4) * B) else - B.

(** The velocity update [dv] of the fully implicit scheme in the 3D
    shearing sheet, from what the drag evaluations at the current position
    ([r1]) and at the predictor position ([r2]) of the grain [curG] returned:
    dv1 = dt (A F1 - B F2) / Det, dv2 = dt (- C F1 + A F2) / Det and
    dv3 = dt F3 / D. *)
Definition spec_fulimp_3D_update (pG : Grid) (curG : Grain)
    (r1 r2 : Vector * Real) (dv : Real * Real * Real) : Prop :=
  let ts11 := r1.2 in
  let ts12 := r2.2 in
  let fc := Vadd r1.1 (Get_Force cfg gl pG (x1 curG) (x2 curG) (x3 curG)
                         (v1 curG) (v2 curG) (v3 curG)) in
  let fp := Vadd r2.1 (Get_Force cfg gl pG (fulimp_step1 cfg pG curG).1.1
                         (fulimp_step1 cfg pG curG).1.2
                         (fulimp_step1 cfg pG curG).2
                         (v1 curG) (v2 curG) (v3 curG)) in
  let w := Omega gl * dt pG in
  let F := Vadd (spec_drive (dt pG) ts11 fc fp)
                (spec_coriolis_3D (FARGO cfg) w fp) in
  let D := spec_D (dt pG) ts11 ts12 in
  let B := spec_B w (dt pG) ts11 ts12 in
  let A := spec_A (FARGO cfg) w D in
  let C := spec_C (FARGO cfg) B in
  let Det := A * A - B * C in
  dv.1.1 == dt pG * (A * Vector.x1 F - B * Vector.x2 F) / Det /\
  dv.1.2 == dt pG * (- C * Vector.x1 F + A * Vector.x2 F) / Det /\
  dv.2 == dt pG * Vector.x3 F / D.

(** One step of relaxation of a velocity component [v] towards the gas
    velocity [u] over the time step [dt] with stopping time [tstop]:
    the new distance to [u] is (2 - a) / (2 + a) times the old one, with
    [a = dt / tstop], and is not larger than the old one. *)
Definition spec_relaxation (dt tstop u v vnew : Real) : Prop :=
  let a := dt / tstop in
  vnew - u == ((2 - a) / (2 + a)) * (v - u) /\
  Qabs (vnew - u) <= Qabs (v - u).


(** The drag that the gas of [pG] exerts at the point [x] on a grain of the
    species [type] and of velocity [v]: the point is inside the grid, the
    interpolated and shift-corrected gas velocity there is [u] and the
    stopping time is [tstop]. *)
Definition drag_at (pG : Grid) (cell1 : Vector) (type : Z)
    (x v u : Real * Real * Real) (tstop : Real) : Prop :=
  exists (weight : Weight) (is' js ks : Z) (gv : GasValues),
    getweight co pG x.1.1 x.1.2 x.2 cell1 = (weight, is', js, ks) /\
    getvalues co pG weight is' js ks = (0%Z, gv) /\
    gasvshift co x.1.1 x.1.2 x.2 (u1 gv, u2 gv, u3 gv) = u /\
    get_ts co pG type (rho gv) (cs gv)
      (sqrt co (SQR (v.1.1 - u.1.1) + SQR (v.1.2 - u.1.2) + SQR (v.2 - u.2)))
    = tstop.

(** The grain [b] is the grain [a] relaxed by one semi-implicit step: if the
    drag on [a] at its midpoint, the position predicted after half a time
    step, has the gas velocity [u] and the stopping time [tstop > 0] -
    whatever the grains that the grid holds when the drag is evaluated -
    then every component of the velocity of [b] is that of [a] relaxed
    towards [u]. *)
Definition semimp_relaxed (pG : Grid) (a b : Grain) : Prop :=
  forall (u : Real * Real * Real) (tstop : Real),
    (forall pGi : Grid, same_mesh pG pGi ->
       drag_at pGi (cell1_of pG) (property a) (half_step1 cfg pG a)
         (v1 a, v2 a, v3 a) u tstop) ->
    0 < tstop ->
    spec_relaxation (dt pG) tstop u.1.1 (v1 a) (v1 b) /\
    spec_relaxation (dt pG) tstop u.1.2 (v2 a) (v2 b) /\
    spec_relaxation (dt pG) tstop u.2 (v3 a) (v3 b).

End ClaimStatements.

(** ** Sample collaborators and grids *)

(** A uniform gas at rest with density and sound speed 1, a constant
    stopping time [ts], no drift correction; the feedback array is
    represented by the momentum it holds. *)
Definition ex_co (ts : Real) : Collaborators unit Vector :=
  {| getweight := fun _ _ _ _ _ => ([], 0%Z, 0%Z, 0%Z);
     getvalues := fun _ _ _ _ _ => (0%Z, mkGasValues 1 0 0 0 1);
     gasvshift := fun _ _ _ u => u;
     get_ts := fun _ _ _ _ _ => ts;
     sqrt := fun x => x;
     feedback_clear := fun _ => Vzero;
     distrFB := fun pG _ _ _ _ fb => Vadd (feedback pG) fb;
     distrFB_shear := fun pG _ _ _ _ _ => feedback pG |}.

(** The same, but every point is outside the integrable region. *)
Definition ex_co_outside : Collaborators unit Vector :=
  {| getweight := fun _ _ _ _ _ => ([], 0%Z, 0%Z, 0%Z);
     getvalues := fun _ _ _ _ _ => (1%Z, mkGasValues 0 0 0 0 0);
     gasvshift := fun _ _ _ u => u;
     get_ts := fun _ _ _ _ _ => 1;
     sqrt := fun x => x;
     feedback_clear := fun _ => Vzero;
     distrFB := fun pG _ _ _ _ fb => Vadd (feedback pG) fb;
     distrFB_shear := fun pG _ _ _ _ _ => feedback pG |}.

Definition ex_cfg_plain : Config := mkConfig false false false false.
Definition ex_cfg_feedback : Config := mkConfig false false false true.
Definition ex_cfg_shear : Config := mkConfig true false false false.
Definition ex_cfg_fargo : Config := mkConfig true true false false.

(** Live region from -4 to 4 on every axis, [Omega = 1]. *)
Definition ex_gl : Globals := mkGlobals 1 (-4) 4 (-4) 4 (-4) 4.

(** A grid with the given cell numbers, time step and grains, unit spacing
    and one species of mass 1 whose counter is the number of grains. *)
Definition ex_grid (N1 N2 N3 : Z) (h : Real) (l : list Grain) : Grid unit Vector :=
  mkGrid N1 N2 N3 1 1 1 h 0 0 (Z.of_nat (length l)) l
    [mkGrain_Property 1 (Z.of_nat (length l))] tt Vzero.

(** Five grains with [pos] 0, 1, 0, 2, 0. *)
Definition ex_five : list Grain :=
  map (fun s => mkGrain 0 0 0 0 0 0 0 s 0) [0; 1; 0; 2; 0]%Z.

(** A live grain at the origin moving along x2 with speed 1. *)
Definition ex_grain_y : Grain := mkGrain 0 0 0 0 1 0 0 1 0.

(** The same grain close to the upper x2 boundary. *)
Definition ex_grain_y_edge : Grain := mkGrain 0 3.5 0 0 1 0 0 1 0.

(** A live grain at rest at the origin. *)
Definition ex_grain_rest : Grain := mkGrain 0 0 0 0 0 0 0 1 0.

(** A 2D grid with the five sample grains followed by a grain that moves. *)
Definition ex_grid_mixed : Grid unit Vector :=
  ex_grid 8 8 1 (1 # 2) (ex_five ++ [ex_grain_y]).

(** A stand-in for [get_gasinfo] on the sample grids, whose gas is [tt]. *)
Definition ex_gasinfo (pG : Grid unit Vector) : unit := tt.

(** ** Further statements about the integrators *)

Section MoreStatements.

Context {GasT FeedbackT : Type}.
Variable cfg : Config.
Variable gl : Globals.
Abbreviation Grid := (Grid GasT FeedbackT).
Implicit Types pG : Grid.

(** On every active axis the position of [b] is that of [a] advanced by the
    time step times the mean of the velocities of [a] and [b]. *)
Definition trapezoidal_position (pG : Grid) (a b : Grain) : Prop :=
  ((Nx1 pG > 1)%Z -> x1 b == x1 a + (1 # 2) * dt pG * (v1 a + v1 b)) /\
  ((Nx2 pG > 1)%Z -> x2 b == x2 a + (1 # 2) * dt pG * (v2 a + v2 b)) /\
  ((Nx3 pG > 1)%Z -> x3 b == x3 a + (1 # 2) * dt pG * (v3 a + v3 b)).

(** The shift of [b] is -3/4 Omega (x1 a + x1 b) dt. *)
Definition fargo_shift (pG : Grid) (a b : Grain) : Prop :=
  shift b == - (3 # 4) * Omega gl * (x1 a + x1 b) * dt pG.

(** Tagging without FARGO: [pos] becomes 10 when one of the three
    coordinates of [b] is outside its interval and is kept otherwise. *)
Definition tagging_all_axes (a b : Grain) : Prop :=
  (outside (x1 b) (x1lpar gl) (x1upar gl) \/
   outside (x2 b) (x2lpar gl) (x2upar gl) \/
   outside (x3 b) (x3lpar gl) (x3upar gl) -> pos b = 10%Z) /\
  (~ outside (x1 b) (x1lpar gl) (x1upar gl) ->
   ~ outside (x2 b) (x2lpar gl) (x2upar gl) ->
   ~ outside (x3 b) (x3lpar gl) (x3upar gl) -> pos b = pos a).

(** The warning of [Get_Drag] on the processor [id], and the status line
    of an integrator that leaves [n] particles. *)
Definition out_of_grid_warning (id : Z) : Msg :=
  Perr 1 "Particle move out of grid %d!\n" [id].
Definition status_line (id n : Z) : Msg :=
  Pout 0 "In processor %d, there are %ld particles.\n" [id; n].

(** Steps 1 to 4 whose output consists of out-of-grid warnings. *)
Definition warning_steps14
    (K : Grid -> Vector -> Grain -> Outcome (Real * Real * Real)) : Prop :=
  forall pG cell1 g,
    wp (K pG cell1 g) (fun _ o => Forall (fun msg => msg = out_of_grid_warning (my_id pG)) o).

End MoreStatements.

Section SchemeStatements.

Context {GasT FeedbackT : Type}.
Variable cfg : Config.
Variable gl : Globals.
Abbreviation Grid := (Grid GasT FeedbackT).
Implicit Types pG : Grid.

(** The velocity update [dv] of the grain [curG] solves the implicit
    midpoint rule [dv = dt F (x', v + dv / 2)] at the position [x'], where
    [F] is the sum of the non-drag force and of the linear drag of frequency
    [ts1] whose value at the velocity [v] is [fd]. *)
Definition spec_implicit_midpoint (pG : Grid) (curG : Grain)
    (x' : Real * Real * Real) (fd : Vector) (ts1 : Real)
    (dv : Real * Real * Real) : Prop :=
  let F := Get_Force cfg gl pG x'.1.1 x'.1.2 x'.2
             (v1 curG + dv.1.1 / 2) (v2 curG + dv.1.2 / 2) (v3 curG + dv.2 / 2) in
  dv.1.1 == dt pG * (Vector.x1 fd - ts1 * (dv.1.1 / 2) + Vector.x1 F) /\
  dv.1.2 == dt pG * (Vector.x2 fd - ts1 * (dv.1.2 / 2) + Vector.x2 F) /\
  dv.2 == dt pG * (Vector.x3 fd - ts1 * (dv.2 / 2) + Vector.x3 F).

(** The explicit scheme on a linear drag: the distance of a velocity
    component to the gas velocity [u] is multiplied by 1 - a + a^2 / 2 with
    [a = dt / tstop]; it does not grow when [dt <= 2 tstop] and grows when
    [dt > 2 tstop]. *)
Definition spec_explicit_relaxation (dt tstop u v vnew : Real) : Prop :=
  let a := dt / tstop in
  vnew - u == (1 - a + a * a / 2) * (v - u) /\
  (dt <= 2 * tstop -> Qabs (vnew - u) <= Qabs (v - u)) /\
  (2 * tstop < dt -> ~ v == u -> Qabs (v - u) < Qabs (vnew - u)).

(** The fully implicit scheme on a linear drag: the distance to the gas
    velocity is divided by 1 + a + a^2 / 2, so that it shrinks and keeps
    its sign. *)
Definition spec_implicit_relaxation (dt tstop u v vnew : Real) : Prop :=
  let a := dt / tstop in
  vnew - u == (v - u) / (1 + a + a * a / 2) /\
  Qabs (vnew - u) <= Qabs (v - u) /\
  0 <= (vnew - u) * (v - u).

End SchemeStatements.

Section UniformDrag.

Context {GasT FeedbackT : Type}.
Variable co : Collaborators GasT FeedbackT.
Abbreviation Grid := (Grid GasT FeedbackT).

(** For the species [type] the gas of [pG] gives a linear drag towards a
    uniform velocity: every point is inside the grid, the interpolated and
    shifted gas velocity is [u] everywhere, and the stopping time is
    [tstop] whatever the gas state and the relative velocity. *)
Definition uniform_drag (pG : Grid) (type : Z) (u : Real * Real * Real)
    (tstop : Real) : Prop :=
  forall (x1 x2 x3 : Real) (cell1 : Vector) (vd : Real),
    let '(weight, is', js, ks) := getweight co pG x1 x2 x3 cell1 in
    exists gv,
      getvalues co pG weight is' js ks = (0%Z, gv) /\
      gasvshift co x1 x2 x3 (u1 gv, u2 gv, u3 gv) = u /\
      get_ts co pG type (rho gv) (cs gv) vd = tstop.

End UniformDrag.

Section PredictorStatements.

Context {GasT FeedbackT : Type}.
Variable co : Collaborators GasT FeedbackT.
Abbreviation Grid := (Grid GasT FeedbackT).
Implicit Types pG : Grid.

(** The status that [getvalues] returns at the position of the grain [g]. *)
Definition gas_status (pG : Grid) (cell1 : Vector) (g : Grain) : Z :=
  let '(weight, is', js, ks) := getweight co pG (x1 g) (x2 g) (x3 g) cell1 in
  (getvalues co pG weight is' js ks).1.

(** The grid on which the loop of [feedback_predictor] starts: the gas
    information is refreshed and the feedback array is clean. *)
Definition predictor_start (get_gasinfo : Grid -> GasT) (pG : Grid) : Grid :=
  set_feedback (set_U pG (get_gasinfo pG))
    (feedback_clear co (set_U pG (get_gasinfo pG))).

(** Two grids that differ at most in the feedback array. *)
Definition same_but_feedback (pG pG' : Grid) : Prop :=
  same_frame pG pG' /\ particle pG' = particle pG.

(** [total] measures the momentum held by a feedback array, and [distrFB]
    adds to it the momentum that it distributes. *)
Definition distrFB_adds (total : FeedbackT -> Vector) : Prop :=
  forall pG weight is' js ks fb,
    Veq (total (distrFB co pG weight is' js ks fb)) (Vadd (total (feedback pG)) fb).

(** The momentum [fb] is at most half of [mgr (u - v)], component by
    component and in absolute value. *)
Definition at_most_half_of_the_momentum_gap (mgr : Real) (u : Real * Real * Real)
    (g : Grain) (fb : Vector) : Prop :=
  Qabs (Vector.x1 fb) <= (1 # 2) * Qabs (mgr * (u.1.1 - v1 g)) /\
  Qabs (Vector.x2 fb) <= (1 # 2) * Qabs (mgr * (u.1.2 - v2 g)) /\
  Qabs (Vector.x3 fb) <= (1 # 2) * Qabs (mgr * (u.2 - v3 g)).

(** The momentum that the loop of [feedback_predictor] distributes for the
    grain [g] on the grid [pG]: m (u - v) dt / (2 max (t_s, dt)) inside the
    grid, nothing outside. *)
Definition predictor_deposit (pG : Grid) (cell1 : Vector) (g : Grain) : Vector :=
  let '(weight, is', js, ks) := getweight co pG (x1 g) (x2 g) (x3 g) cell1 in
  let '(status, gv) := getvalues co pG weight is' js ks in
  if (status =? 0)%Z then
    let '(ua, ub, uc) := gasvshift co (x1 g) (x2 g) (x3 g) (u1 gv, u2 gv, u3 gv) in
    let vd := sqrt co ((ua - v1 g) * (ua - v1 g) + (ub - v2 g) * (ub - v2 g)
                       + (uc - v3 g) * (uc - v3 g)) in
    let tstop := MAX (get_ts co pG (property g) (rho gv) (cs gv) vd) (dt pG) in
    let mgr := m (grproperty_at pG (property g)) in
    Vector.mk (mgr * (ua - v1 g) * (0.5 * dt pG / tstop))
              (mgr * (ub - v2 g) * (0.5 * dt pG / tstop))
              (mgr * (uc - v3 g) * (0.5 * dt pG / tstop))
  else Vzero.

End PredictorStatements.

Section StoredVelocities.

Context {GasT FeedbackT : Type}.
Variable cfg : Config.
Variable co : Collaborators GasT FeedbackT.
Abbreviation Grid := (Grid GasT FeedbackT).
Implicit Types pG : Grid.

(** The grain [b] is the grain [a] after one explicit step on a linear
    drag: if the gas gives the species of [a] a uniform drag of velocity [u]
    and stopping time [tstop > 0] - whatever the grains that the grid holds
    when the drag is evaluated - every component of the velocity of [b] is
    that of [a] relaxed towards [u] by the explicit scheme. *)
Definition exp_relaxed (pG : Grid) (a b : Grain) : Prop :=
  forall (u : Real * Real * Real) (tstop : Real),
    (forall pGi : Grid, same_mesh pG pGi -> uniform_drag co pGi (property a) u tstop) ->
    0 < tstop ->
    spec_explicit_relaxation (dt pG) tstop u.1.1 (v1 a) (v1 b) /\
    spec_explicit_relaxation (dt pG) tstop u.1.2 (v2 a) (v2 b) /\
    spec_explicit_relaxation (dt pG) tstop u.2 (v3 a) (v3 b).

(** The same for the fully implicit scheme. *)
Definition fulimp_relaxed (pG : Grid) (a b : Grain) : Prop :=
  forall (u : Real * Real * Real) (tstop : Real),
    (forall pGi : Grid, same_mesh pG pGi -> uniform_drag co pGi (property a) u tstop) ->
    0 < tstop ->
    spec_implicit_relaxation (dt pG) tstop u.1.1 (v1 a) (v1 b) /\
    spec_implicit_relaxation (dt pG) tstop u.1.2 (v2 a) (v2 b) /\
    spec_implicit_relaxation (dt pG) tstop u.2 (v3 a) (v3 b).

(** The status that [getvalues] returns at the point [x]. *)
Definition status_at (pG : Grid) (cell1 : Vector) (x : Real * Real * Real) : Z :=
  let '(weight, is', js, ks) := getweight co pG x.1.1 x.1.2 x.2 cell1 in
  (getvalues co pG weight is' js ks).1.

(** If the position of [a] predicted after half a time step is outside the
    grid - whatever the grains that the grid holds when the gas is
    interpolated - the grain [b] has the v1^2 + 4 v2^2 of [a]. *)
Definition epicyclic_energy_kept (pG : Grid) (a b : Grain) : Prop :=
  (forall pGi : Grid, same_mesh pG pGi ->
     status_at pGi (cell1_of pG) (half_step1 cfg pG a) <> 0%Z) ->
  v1 b * v1 b + 4 * (v2 b * v2 b) == v1 a * v1 a + 4 * (v2 a * v2 a).

End StoredVelocities.

(** * Properties *)

(** ** Runs *)

Lemma wp_ret {A} (a : A) (Q : A -> list Msg -> Prop) : Q a [] -> wp (ret a) Q.
Proof. intros H; exact H. Qed.

Lemma wp_bind {A B} (c : Outcome A) (f : A -> Outcome B) (Q : B -> list Msg -> Prop) :
  wp c (fun a o => wp (f a) (fun b o' => Q b (o ++ o'))) -> wp (bind c f) Q.
Proof.
  destruct c as [a o|o]; simpl; [|tauto].
  destruct (f a) as [b o'|o']; simpl; tauto.
Qed.

Lemma wp_mono {A} (c : Outcome A) (P Q : A -> list Msg -> Prop) :
  (forall a o, P a o -> Q a o) -> wp c P -> wp c Q.
Proof. destruct c; simpl; auto. Qed.

Lemma wp_returns {A} (c : Outcome A) (Q : A -> list Msg -> Prop) :
  wp c Q <-> exists a o, c = Returns a o /\ Q a o.
Proof.
  destruct c as [a o|o]; simpl; split.
  - intros H; exists a, o; auto.
  - intros (a' & o' & E & H); injection E as -> ->; exact H.
  - tauto.
  - intros (a' & o' & E & _); discriminate E.
Qed.

Lemma wp_conj {A} (c : Outcome A) (P Q : A -> list Msg -> Prop) :
  wp c P -> wp c Q -> wp c (fun a o => P a o /\ Q a o).
Proof. destruct c; simpl; auto. Qed.

Section Properties.

Context {GasT FeedbackT : Type}.
Variable cfg : Config.
Variable gl : Globals.
Variable co : Collaborators GasT FeedbackT.

Abbreviation Grid := (Grid GasT FeedbackT).
Implicit Types pG : Grid.

(** ** The drag and the steps 1 to 4 always return *)

Lemma Get_Drag_total (pG : Grid) type x1 x2 x3 v1 v2 v3 cell1 :
  wp (Get_Drag co pG type x1 x2 x3 v1 v2 v3 cell1) (fun _ _ => True).
Proof.
  unfold Get_Drag.
  destruct (getweight co pG x1 x2 x3 cell1) as [[[w i] j] k].
  destruct (getvalues co pG w i j k) as [status gv].
  destruct (status =? 0)%Z.
  - destruct (gasvshift co x1 x2 x3 (u1 gv, u2 gv, u3 gv)) as [[a b] c]. exact I.
  - exact I.
Qed.


Lemma exp_dv_total : total_steps14 (exp_dv cfg gl co).
Proof.
  intros pG cell1 g. unfold exp_dv.
  apply wp_bind. eapply wp_mono; [|apply Get_Drag_total].
  intros [fd ts] o _. apply wp_bind. eapply wp_mono; [|apply Get_Drag_total].
  intros [fd' ts'] o' _. exact I.
Qed.

Lemma semimp_dv_total : total_steps14 (semimp_dv cfg gl co).
Proof.
  intros pG cell1 g. unfold semimp_dv.
  apply wp_bind. eapply wp_mono; [|apply Get_Drag_total].
  intros [fd ts] o _. exact I.
Qed.

Lemma fulimp_dv_total : total_steps14 (fulimp_dv cfg gl co).
Proof.
  intros pG cell1 g. unfold fulimp_dv.
  apply wp_bind. eapply wp_mono; [|apply Get_Drag_total].
  intros [fd ts] o _. apply wp_bind. eapply wp_mono; [|apply Get_Drag_total].
  intros [fd' ts'] o' _. exact I.
Qed.

(** ** Steps 5 to 7 on one grain *)


Lemma same_frame_refl pG : same_frame pG pG.
Proof. repeat split. Qed.

Lemma same_frame_trans pG1 pG2 pG3 :
  same_frame pG1 pG2 -> same_frame pG2 pG3 -> same_frame pG1 pG3.
Proof. unfold same_frame. intuition congruence. Qed.

Lemma same_frame_store pG p g : same_frame pG (store_particle pG p g).
Proof. unfold store_particle. destruct (0 <=? p)%Z; repeat split. Qed.

Lemma same_frame_set_feedback pG f : same_frame pG (set_feedback pG f).
Proof. repeat split. Qed.

Lemma distribute_frame pG w i j k fb :
  same_frame pG (distribute cfg co pG w i j k fb) /\
  particle (distribute cfg co pG w i j k fb) = particle pG.
Proof.
  unfold distribute.
  destruct (SHEARING_BOX cfg && negb (FARGO cfg)); simpl;
    [destruct (Nx3 pG >? 1)%Z|]; split; first [reflexivity | repeat split].
Qed.

Lemma feedback_corrector_frame pG gri grf cell1 dv1 dv2 dv3 :
  same_frame pG (feedback_corrector cfg gl co pG gri grf cell1 dv1 dv2 dv3) /\
  particle (feedback_corrector cfg gl co pG gri grf cell1 dv1 dv2 dv3) = particle pG.
Proof.
  unfold feedback_corrector.
  destruct (getweight _ _ _ _ _ _) as [[[w i] j] k]. apply distribute_frame.
Qed.

Lemma particle_store pG p g :
  (0 <= p)%Z ->
  particle (store_particle pG p g) = <[Z.to_nat p := g]> (particle pG).
Proof.
  intros Hp. unfold store_particle.
  destruct (0 <=? p)%Z eqn:E; [reflexivity|]. apply Z.leb_gt in E. lia.
Qed.


Lemma stepped_grain_frame pG pG' g dv :
  same_frame pG pG' -> stepped_grain cfg gl pG' g dv = stepped_grain cfg gl pG g dv.
Proof.
  intros (E1 & E2 & E3 & _ & _ & _ & E7 & _). unfold stepped_grain.
  rewrite E1, E2, E3, E7. reflexivity.
Qed.

Lemma update_particle_frame pG p cell1 dv :
  same_frame pG (update_particle cfg gl co pG p cell1 dv).
Proof.
  unfold update_particle. destruct dv as [[dv1 dv2] dv3].
  repeat match goal with
  | |- context [if ?b then _ else _] => destruct b
  end;
  repeat (eapply same_frame_trans; [|apply same_frame_store]);
  repeat first [ apply same_frame_refl
               | eapply same_frame_trans; [|apply feedback_corrector_frame]
               | eapply same_frame_trans; [|apply same_frame_store] ].
Qed.

Lemma particle_at_store pG p g :
  (0 <= p)%Z -> (Z.to_nat p < length (particle pG))%nat ->
  particle_at (store_particle pG p g) p = g.
Proof.
  intros Hp Hlt. unfold particle_at. rewrite particle_store by exact Hp.
  apply list_lookup_total_insert_eq. exact Hlt.
Qed.

Lemma particle_at_feedback_corrector pG gri grf cell1 dv1 dv2 dv3 p :
  particle_at (feedback_corrector cfg gl co pG gri grf cell1 dv1 dv2 dv3) p
  = particle_at pG p.
Proof.
  unfold particle_at.
  rewrite (proj2 (feedback_corrector_frame pG gri grf cell1 dv1 dv2 dv3)).
  reflexivity.
Qed.

Lemma length_store pG p g :
  length (particle (store_particle pG p g)) = length (particle pG).
Proof.
  unfold store_particle. destruct (0 <=? p)%Z; [apply length_insert|reflexivity].
Qed.

Lemma length_feedback_corrector pG gri grf cell1 dv1 dv2 dv3 :
  length (particle (feedback_corrector cfg gl co pG gri grf cell1 dv1 dv2 dv3))
  = length (particle pG).
Proof. rewrite (proj2 (feedback_corrector_frame _ _ _ _ _ _ _)). reflexivity. Qed.

Lemma frame_Nx pG pG' :
  same_frame pG pG' ->
  Nx1 pG' = Nx1 pG /\ Nx2 pG' = Nx2 pG /\ Nx3 pG' = Nx3 pG /\ dt pG' = dt pG.
Proof. unfold same_frame. tauto. Qed.

(** Steps 5 to 7 replace [particle[p]] by [stepped_grain] and leave the other
    grains alone. *)
Lemma update_particle_particle pG p cell1 dv :
  (0 <= p)%Z ->
  particle (update_particle cfg gl co pG p cell1 dv)
  = <[Z.to_nat p := stepped_grain cfg gl pG (particle_at pG p) dv]> (particle pG).
Proof.
  intros Hp. destruct dv as [[dv1 dv2] dv3].
  destruct (decide (Z.to_nat p < length (particle pG))%nat) as [Hlt|Hge].
  - unfold update_particle, stepped_grain.
    destruct (FARGO cfg) eqn:EF; destruct (FEEDBACK cfg) eqn:EB;
      match goal with
      | |- context [crossing cfg gl ?c] => destruct (crossing cfg gl c) eqn:EC
      end;
      repeat first
        [ rewrite particle_store by exact Hp
        | rewrite particle_at_feedback_corrector
        | rewrite (proj2 (feedback_corrector_frame _ _ _ _ _ _ _))
        | rewrite particle_at_store
            by (rewrite ?length_store, ?length_feedback_corrector, ?length_store;
                assumption)
        | rewrite list_insert_insert_eq ];
      reflexivity.
  - assert (Hfix : forall (pG' : Grid) g,
              particle pG' = particle pG ->
              particle (store_particle pG' p g) = particle pG).
    { intros pG' g E. rewrite particle_store by exact Hp. rewrite E.
      apply list_insert_ge. lia. }
    rewrite list_insert_ge by lia.
    unfold update_particle.
    apply Hfix.
    destruct (crossing cfg gl _); [apply Hfix|];
      (destruct (FEEDBACK cfg);
       [rewrite (proj2 (feedback_corrector_frame _ _ _ _ _ _ _))|];
       (destruct (FARGO cfg); [apply Hfix|]; reflexivity)).
Qed.


(** ** Ghost purge *)

(** Overwriting slot [p] by the last of the first [n] entries and dropping
    that last entry removes entry [p] from the segment [p..n). *)
Lemma swap_last_perm {A} `{!Inhabited A} (l : list A) (p n : nat) :
  (p < n <= length l)%nat ->
  drop p (take n l) ≡ₚ
  (l !!! p) :: drop p (take (n - 1) (<[p := l !!! (n - 1)%nat]> l)).
Proof.
  revert l n. induction p as [|p IH]; intros l n [Hp Hn].
  - destruct l as [|x l]; [simpl in Hn; lia|].
    destruct n as [|n]; [lia|]. simpl. rewrite Nat.sub_0_r.
    destruct n as [|j]; [reflexivity|]. simpl in Hn.
    constructor. simpl.
    assert (is_Some (l !! j)) as [y Hy] by (apply lookup_lt_is_Some; lia).
    rewrite (take_S_r _ _ _ Hy).
    rewrite (list_lookup_total_correct _ _ _ Hy).
    symmetry. apply Permutation_cons_append.
  - destruct l as [|x l]; [simpl in Hn; lia|].
    destruct n as [|n]; [lia|]. simpl in Hn. simpl. rewrite Nat.sub_0_r.
    destruct n as [|n']; [lia|].
    specialize (IH l (S n') ltac:(lia)).
    simpl in IH. rewrite Nat.sub_0_r in IH.
    simpl. exact IH.
Qed.



Lemma purge_frame_refl pG : purge_frame pG pG.
Proof. repeat split. Qed.

Lemma purge_frame_trans pG1 pG2 pG3 :
  purge_frame pG1 pG2 -> purge_frame pG2 pG3 -> purge_frame pG1 pG3.
Proof. unfold purge_frame. intuition congruence. Qed.

(** The grid after one removal. *)
Lemma ghost_removal_fields pG p :
  (0 <= p)%Z ->
  let gr := particle_at pG p in
  let pG1 := set_nparticle pG (nparticle pG - 1) in
  let pG2 := alter_grproperty pG1 (property gr) dec_num in
  let pG3 := store_particle pG2 p (particle_at pG2 (nparticle pG2)) in
  purge_frame pG pG3 /\
  nparticle pG3 = (nparticle pG - 1)%Z /\
  particle pG3
  = <[Z.to_nat p := particle pG !!! Z.to_nat (nparticle pG - 1)]> (particle pG) /\
  grproperty pG3
  = (if (0 <=? property gr)%Z
     then alter dec_num (Z.to_nat (property gr)) (grproperty pG)
     else grproperty pG).
Proof.
  intros Hp gr pG1 pG2 pG3.
  assert (E2 : particle pG2 = particle pG /\ nparticle pG2 = (nparticle pG - 1)%Z
               /\ purge_frame pG pG2).
  { unfold pG2, alter_grproperty. destruct (0 <=? property gr)%Z; repeat split. }
  destruct E2 as (E2p & E2n & E2f).
  unfold pG3. unfold store_particle at 1 2 3 4.
  destruct (0 <=? p)%Z eqn:E; [|apply Z.leb_gt in E; lia].
  repeat split; try apply E2f; simpl.
  - exact E2n.
  - unfold particle_at. rewrite E2p, E2n. reflexivity.
  - unfold pG2, alter_grproperty. destruct (0 <=? property gr)%Z; reflexivity.
Qed.

Lemma grains_from_end pG p :
  (nparticle pG <= p)%Z -> (0 <= p)%Z -> grains_from pG p = [].
Proof.
  intros H H0. unfold grains_from. apply drop_ge. rewrite length_take. lia.
Qed.

Lemma grains_from_cons pG p :
  (0 <= p < nparticle pG)%Z ->
  (Z.to_nat (nparticle pG) <= length (particle pG))%nat ->
  grains_from pG p = particle_at pG p :: grains_from pG (p + 1).
Proof.
  intros Hp Hn. unfold grains_from, particle_at.
  replace (Z.to_nat (p + 1)) with (S (Z.to_nat p)) by lia.
  assert (Hl : (Z.to_nat p < length (take (Z.to_nat (nparticle pG)) (particle pG)))%nat)
    by (rewrite length_take; lia).
  apply lookup_lt_is_Some in Hl. destruct Hl as [x Hx].
  rewrite (drop_S _ x _ Hx). f_equal.
  rewrite lookup_take_lt in Hx by lia.
  symmetry. apply list_lookup_total_correct. exact Hx.
Qed.

(** Counters of the species table after decrementing the entry [i]. *)
Lemma num_after_decrement (tbl : list Grain_Property) (i : Z) (s : nat) :
  (s < length tbl)%nat ->
  let tbl' := if (0 <=? i)%Z then alter dec_num (Z.to_nat i) tbl else tbl in
  length tbl' = length tbl /\
  m (tbl' !!! s) = m (tbl !!! s) /\
  num (tbl' !!! s)
  = (num (tbl !!! s) - (if decide (i = Z.of_nat s) then 1 else 0))%Z.
Proof.
  intros Hs tbl'. unfold tbl'.
  destruct (0 <=? i)%Z eqn:E.
  - apply Z.leb_le in E. rewrite length_alter. split; [reflexivity|].
    destruct (decide (i = Z.of_nat s)) as [->|Hne].
    + rewrite Nat2Z.id. rewrite list_lookup_total_alter_eq by exact Hs.
      split; reflexivity.
    + rewrite list_lookup_total_alter_ne by lia. split; [reflexivity|lia].
  - apply Z.leb_gt in E. split; [reflexivity|].
    destruct (decide (i = Z.of_nat s)); [lia|]. split; [reflexivity|lia].
Qed.

Lemma Delete_Ghost_loop_purged (k : nat) : forall (p : Z) pG,
  (0 <= p <= nparticle pG)%Z ->
  (Z.to_nat (nparticle pG) <= length (particle pG))%nat ->
  k = Z.to_nat (nparticle pG - p) ->
  purged p pG (Delete_Ghost_loop k p pG).
Proof.
  induction k as [|k IH]; intros p pG Hp Hn Hk.
  - simpl. assert (p = nparticle pG) as -> by lia.
    unfold purged. rewrite grains_from_end by lia.
    repeat split; try reflexivity; try lia. simpl. lia.
  - simpl. assert (Hlt : (p < nparticle pG)%Z) by lia.
    rewrite (proj2 (Z.ltb_lt _ _) Hlt).
    pose proof (grains_from_cons pG p ltac:(lia) Hn) as Hseg.
    destruct (pos (particle_at pG p) =? 0)%Z eqn:Eg.
    + apply Z.eqb_eq in Eg.
      destruct (ghost_removal_fields pG p ltac:(lia)) as (Hf & En & El & Et).
      cbv zeta in Hf, En, El, Et.
      set (pG3 := store_particle _ _ _) in *.
      assert (Hn3 : (Z.to_nat (nparticle pG3) <= length (particle pG3))%nat)
        by (rewrite En, El, length_insert; lia).
      specialize (IH p pG3 ltac:(lia) Hn3 ltac:(lia)).
      destruct IH as (If & In & Il & Itk & Ip & Itl & Inum).
      assert (Hperm : grains_from pG p ≡ₚ particle_at pG p :: grains_from pG3 p).
      { unfold grains_from, particle_at. rewrite En, El.
        replace (Z.to_nat (nparticle pG - 1)) with (Z.to_nat (nparticle pG) - 1)%nat by lia.
        apply swap_last_perm. lia. }
      assert (Hfilt : filter live (grains_from pG p)
                      ≡ₚ filter live (grains_from pG3 p)).
      { rewrite Hperm. rewrite filter_cons_False; [reflexivity|].
        unfold live. intros H; apply H; exact Eg. }
      unfold purged. split; [eapply purge_frame_trans; eassumption|].
      split; [lia|]. split; [rewrite Il, El; apply length_insert|].
      split.
      { rewrite Itk, El. rewrite take_insert_ge by lia. reflexivity. }
      split; [rewrite Ip, Hfilt; reflexivity|].
      assert (Htl := fun s Hs =>
        num_after_decrement (grproperty pG) (property (particle_at pG p)) s Hs).
      cbv zeta in Htl. rewrite <- Et in Htl.
      split; [rewrite Itl; destruct (grproperty pG) as [|g0 tl];
              [rewrite Et; destruct (0 <=? _)%Z; reflexivity
              |apply (Htl 0%nat); simpl; lia]|].
      intros s Hs. destruct (Htl s Hs) as (Hl3 & Hm3 & Hnum3).
      destruct (Inum s ltac:(rewrite Hl3; exact Hs)) as [Hm Hnum].
      split; [congruence|]. rewrite Hnum, Hnum3, Hperm.
      destruct (decide (property (particle_at pG p) = Z.of_nat s)) as [Es|Es].
      * rewrite filter_cons_True by (split; assumption). simpl length. lia.
      * rewrite filter_cons_False by (intros [_ H]; contradiction). lia.
    + apply Z.eqb_neq in Eg.
      specialize (IH (p + 1)%Z pG ltac:(lia) Hn ltac:(lia)).
      destruct IH as (If & In & Il & Itk & Ip & Itl & Inum).
      set (pG' := Delete_Ghost_loop k (p + 1) pG) in *.
      replace (Z.to_nat (p + 1)) with (S (Z.to_nat p)) in Itk by lia.
      assert (Htk : take (Z.to_nat p) (particle pG') = take (Z.to_nat p) (particle pG)).
      { replace (Z.to_nat p) with (Z.to_nat p `min` S (Z.to_nat p))%nat by lia.
        rewrite <- !take_take. rewrite Itk. reflexivity. }
      assert (Hat : particle_at pG' p = particle_at pG p).
      { unfold particle_at.
        rewrite <- (lookup_total_take_lt (particle pG') (S (Z.to_nat p))) by lia.
        rewrite Itk. apply lookup_total_take_lt. lia. }
      unfold purged. split; [exact If|]. split; [lia|]. split; [exact Il|].
      split; [exact Htk|].
      split.
      { rewrite (grains_from_cons pG' p) by lia. rewrite Hseg, Hat.
        rewrite filter_cons_True by exact Eg. rewrite Ip. reflexivity. }
      split; [exact Itl|].
      intros s Hs. destruct (Inum s Hs) as [Hm Hnum]. split; [exact Hm|].
      rewrite Hnum, Hseg.
      rewrite filter_cons_False; [reflexivity|].
      intros [H _]. contradiction.
Qed.

Lemma Delete_Ghost_purged pG :
  well_sized pG -> purged 0 pG (Delete_Ghost pG).
Proof.
  intros [H0 Hn]. unfold Delete_Ghost.
  apply Delete_Ghost_loop_purged; [lia|exact Hn|f_equal; lia].
Qed.

(** ** The feedback of one grain *)

Lemma Veq_refl a : Veq a a.
Proof. repeat split; reflexivity. Qed.

Lemma Veq_trans a b c : Veq a b -> Veq b c -> Veq a c.
Proof.
  intros (H1 & H2 & H3) (K1 & K2 & K3).
  repeat split; etransitivity; eassumption.
Qed.

Lemma Vadd_assoc_eq a b c a' :
  Veq a' (Vadd a b) -> Veq (Vadd a' c) (Vadd a (Vadd b c)).
Proof.
  intros (H1 & H2 & H3). unfold Veq, Vadd in *. simpl in *.
  rewrite H1, H2, H3. repeat split; ring.
Qed.

Lemma Vadd_zero a : Veq a (Vadd a Vzero).
Proof. unfold Veq, Vadd, Vzero. simpl. repeat split; ring. Qed.

Lemma feedback_corrector_distribute pG gri grf cell1 dv1 dv2 dv3 :
  exists weight is' js ks,
    getweight co pG (0.5 * (x1 gri + x1 grf)) (0.5 * (x2 gri + x2 grf))
      (0.5 * (x3 gri + x3 grf)) cell1 = (weight, is', js, ks) /\
    feedback_corrector cfg gl co pG gri grf cell1 dv1 dv2 dv3
    = distribute cfg co pG weight is' js ks
        (drag_impulse cfg gl pG gri grf (dv1, dv2, dv3)).
Proof.
  unfold feedback_corrector.
  destruct (getweight _ _ _ _ _ _) as [[[w i] j] k].
  exists w, i, j, k. split; reflexivity.
Qed.

Lemma feedback_store pG p g : feedback (store_particle pG p g) = feedback pG.
Proof. unfold store_particle. destruct (0 <=? p)%Z; reflexivity. Qed.

Lemma drag_impulse_frame pG pG' a b a' b' dv :
  same_frame pG pG' ->
  property a' = property a ->
  x1 a' = x1 a -> x2 a' = x2 a -> x3 a' = x3 a ->
  v1 a' = v1 a -> v2 a' = v2 a -> v3 a' = v3 a ->
  x1 b' = x1 b -> x2 b' = x2 b -> x3 b' = x3 b ->
  v1 b' = v1 b -> v2 b' = v2 b -> v3 b' = v3 b ->
  drag_impulse cfg gl pG' a' b' dv = drag_impulse cfg gl pG a b dv.
Proof.
  intros (_ & _ & E3 & _ & _ & _ & E7 & _ & _ & _ & Et & _).
  intros Ep Ea1 Ea2 Ea3 Ea4 Ea5 Ea6 Eb1 Eb2 Eb3 Eb4 Eb5 Eb6.
  unfold drag_impulse, midpoint_force, grproperty_at, Get_Force.
  rewrite Ep, Ea1, Ea2, Ea3, Ea4, Ea5, Ea6, Eb1, Eb2, Eb3, Eb4, Eb5, Eb6, E3, E7, Et.
  reflexivity.
Qed.

(** The feedback array after steps 5 to 7. *)
Lemma update_particle_feedback pG p cell1 dv :
  (0 <= p)%Z -> (Z.to_nat p < length (particle pG))%nat ->
  let a := particle_at pG p in
  (FEEDBACK cfg = false ->
   feedback (update_particle cfg gl co pG p cell1 dv) = feedback pG) /\
  (FEEDBACK cfg = true ->
   forall total, conserving cfg co total ->
     Veq (total (feedback (update_particle cfg gl co pG p cell1 dv)))
         (Vadd (total (feedback pG))
            (drag_impulse cfg gl pG a (stepped_grain cfg gl pG a dv) dv))).
Proof.
  intros Hp Hlt a. destruct dv as [[dv1 dv2] dv3].
  unfold update_particle. fold a.
  set (curP := set_xv a _ _ _ _ _ _).
  set (pGs := if FARGO cfg then store_particle pG p _ else pG).
  assert (Hs : same_frame pG pGs /\ feedback pGs = feedback pG /\
               property (particle_at pGs p) = property a /\
               x1 (particle_at pGs p) = x1 a /\ x2 (particle_at pGs p) = x2 a /\
               x3 (particle_at pGs p) = x3 a /\ v1 (particle_at pGs p) = v1 a /\
               v2 (particle_at pGs p) = v2 a /\ v3 (particle_at pGs p) = v3 a).
  { unfold pGs. destruct (FARGO cfg).
    - rewrite particle_at_store by assumption. rewrite feedback_store.
      split; [apply same_frame_store|]. repeat split.
    - split; [apply same_frame_refl|]. repeat split. }
  destruct Hs as (Hf & Hfb & Hpr & Hx1 & Hx2 & Hx3 & Hv1 & Hv2 & Hv3).
  split; intros EB; rewrite EB.
  - destruct (crossing cfg gl curP); rewrite ?feedback_store; exact Hfb.
  - intros total Hc.
    destruct (feedback_corrector_distribute pGs (particle_at pGs p) curP cell1
                dv1 dv2 dv3) as (w & i & j & k & _ & E).
    assert (Hgoal : Veq (total (feedback
                (feedback_corrector cfg gl co pGs (particle_at pGs p) curP cell1
                   dv1 dv2 dv3)))
              (Vadd (total (feedback pG))
                 (drag_impulse cfg gl pG a (stepped_grain cfg gl pG a (dv1, dv2, dv3))
                    (dv1, dv2, dv3)))).
    { rewrite E. eapply Veq_trans; [apply Hc|]. rewrite Hfb.
      erewrite (drag_impulse_frame pG pGs a _ (particle_at pGs p) curP);
        [apply Veq_refl|assumption..|reflexivity|reflexivity|reflexivity
        |reflexivity|reflexivity|reflexivity]. }
    destruct (crossing cfg gl curP); rewrite ?feedback_store; exact Hgoal.
Qed.

(** ** The loop over the grains *)

Lemma zip_with_pointwise {A B C} (f g : A -> B -> C) (l : list A) (k : list B) :
  (forall a b, f a b = g a b) -> zip_with f l k = zip_with g l k.
Proof.
  intros H. revert k. induction l as [|a l IH]; intros [|b k]; simpl; try reflexivity.
  rewrite H, IH. reflexivity.
Qed.

Lemma particle_loop_looped K cell1 (HK : total_steps14 K) (k : nat) :
  forall (p : Z) pG,
    (0 <= p <= nparticle pG)%Z ->
    (Z.to_nat (nparticle pG) <= length (particle pG))%nat ->
    k = Z.to_nat (nparticle pG - p) ->
    wp (particle_loop (loop_body cfg gl co K cell1) k p pG)
       (fun pG' _ => looped cfg gl co K cell1 p pG pG').
Proof.
  induction k as [|k IH]; intros p pG Hp Hn Hk.
  - simpl. assert (p = nparticle pG) as -> by lia.
    split; [apply same_frame_refl|]. exists [].
    rewrite grains_from_end by lia. simpl.
    split; [constructor|]. split; [symmetry; apply take_drop|].
    split; [reflexivity|]. intros _ total _. apply Vadd_zero.
  - simpl. assert (Hlt : (p < nparticle pG)%Z) by lia.
    rewrite (proj2 (Z.ltb_lt _ _) Hlt).
    apply wp_bind. unfold loop_body at 1. apply wp_bind.
    set (a := particle_at pG p).
    pose proof (HK pG cell1 a) as Hret.
    apply wp_returns in Hret. destruct Hret as (dv & o & EK & _).
    rewrite EK. simpl wp.
    set (pG1 := update_particle cfg gl co pG p cell1 dv).
    pose proof (update_particle_frame pG p cell1 dv) as Hf1. fold pG1 in Hf1.
    pose proof (update_particle_particle pG p cell1 dv ltac:(lia)) as Hl1.
    fold pG1 a in Hl1.
    destruct (update_particle_feedback pG p cell1 dv ltac:(lia) ltac:(lia))
      as [Hfb0 Hfb1]. fold pG1 a in Hfb0, Hfb1.
    assert (En : nparticle pG1 = nparticle pG) by apply Hf1.
    specialize (IH (p + 1)%Z pG1).
    rewrite En, Hl1, length_insert in IH.
    specialize (IH ltac:(lia) Hn ltac:(lia)).
    eapply wp_mono; [|exact IH]. clear IH.
    intros pG' o' (Hf' & dvs & HF2 & Hl' & Hb0 & Hb1).
    assert (Hseg1 : grains_from pG1 (p + 1) = grains_from pG (p + 1)).
    { unfold grains_from. rewrite En, Hl1.
      rewrite take_insert_lt by lia. apply drop_insert_lt. lia. }
    pose proof (grains_from_cons pG p ltac:(lia) Hn) as Hseg. fold a in Hseg.
    rewrite Hseg1 in HF2, Hl', Hb1.
    split; [eapply same_frame_trans; eassumption|].
    exists (dv :: dvs). rewrite Hseg.
    split.
    { constructor.
      - exists pG, o. split; [apply same_frame_refl|exact EK].
      - eapply Forall2_impl; [exact HF2|].
        intros x y (pGi & oi & Hfi & Ei). exists pGi, oi.
        split; [eapply same_frame_trans; eassumption|exact Ei]. }
    split.
    { rewrite Hl'. rewrite En, Hl1.
      replace (Z.to_nat (p + 1)) with (S (Z.to_nat p)) by lia.
      rewrite (take_S_r _ _ (stepped_grain cfg gl pG a dv))
        by (apply list_lookup_insert_eq; lia).
      rewrite take_insert_ge by lia. rewrite drop_insert_lt by lia.
      rewrite <- app_assoc. simpl. do 2 f_equal.
      f_equal. apply zip_with_pointwise. intros x y.
      apply stepped_grain_frame. exact Hf1. }
    split.
    { intros EB. rewrite (Hb0 EB). apply Hfb0. exact EB. }
    intros EB total Hc. simpl.
    eapply Veq_trans; [apply (Hb1 EB total Hc)|].
    rewrite (zip_with_pointwise _
               (fun a dv => drag_impulse cfg gl pG a (stepped_grain cfg gl pG a dv) dv)).
    + apply Vadd_assoc_eq. apply (Hfb1 EB total Hc).
    + intros x y. simpl. rewrite (stepped_grain_frame pG pG1 x y Hf1).
      apply drag_impulse_frame; [exact Hf1|reflexivity..].
Qed.

(** ** The integrators *)

Lemma same_frame_mesh pG pG' : same_frame pG pG' -> same_mesh pG pG'.
Proof. unfold same_frame, same_mesh. tauto. Qed.

Lemma purge_frame_mesh pG pG' : purge_frame pG pG' -> same_mesh pG pG'.
Proof. unfold purge_frame, same_mesh. tauto. Qed.

Lemma same_mesh_trans pG1 pG2 pG3 :
  same_mesh pG1 pG2 -> same_mesh pG2 pG3 -> same_mesh pG1 pG3.
Proof. unfold same_mesh. intuition congruence. Qed.

Lemma stepped_grain_mesh pG pG' g dv :
  same_mesh pG pG' -> stepped_grain cfg gl pG' g dv = stepped_grain cfg gl pG g dv.
Proof.
  intros (E1 & E2 & E3 & _ & _ & _ & E7 & _). unfold stepped_grain.
  rewrite E1, E2, E3, E7. reflexivity.
Qed.

Lemma cell1_of_mesh pG pG' : same_mesh pG pG' -> cell1_of pG' = cell1_of pG.
Proof.
  intros (E1 & E2 & E3 & E4 & E5 & E6 & _). unfold cell1_of.
  rewrite E1, E2, E3, E4, E5, E6. reflexivity.
Qed.

(** The purge leaves the masses of the species table alone. *)
Lemma purged_mass pG pG' (s : Z) :
  purged 0 pG pG' -> m (grproperty_at pG' s) = m (grproperty_at pG s).
Proof.
  intros (_ & _ & _ & _ & _ & Hl & Hs). unfold grproperty_at.
  destruct (decide (Z.to_nat s < length (grproperty pG))%nat) as [Hlt|Hge].
  - apply Hs. exact Hlt.
  - rewrite !list_lookup_total_alt.
    rewrite !lookup_ge_None_2 by lia. reflexivity.
Qed.

Lemma drag_impulse_purged pG pG' a b dv :
  purged 0 pG pG' -> drag_impulse cfg gl pG' a b dv = drag_impulse cfg gl pG a b dv.
Proof.
  intros H. pose proof (purged_mass pG pG' (property a) H) as Hm.
  destruct H as ((_ & _ & E3 & _ & _ & _ & E7 & _) & _).
  unfold drag_impulse, midpoint_force, Get_Force. rewrite Hm, E3, E7. reflexivity.
Qed.

Lemma Vadd_zero_l a s : Veq a Vzero -> Veq (Vadd a s) s.
Proof.
  intros (H1 & H2 & H3). unfold Veq, Vadd, Vzero in *. simpl in *.
  rewrite H1, H2, H3. repeat split; ring.
Qed.

Lemma length_grains pG :
  well_sized pG -> Z.of_nat (length (grains pG)) = nparticle pG.
Proof.
  intros [H0 Hn]. unfold grains, grains_from. simpl. rewrite drop_0, length_take. lia.
Qed.

(** The loop of an integrator, run on the purged grid. *)
Lemma loop_after_purge K (HK : total_steps14 K) pG :
  well_sized pG ->
  let pG0 := if FEEDBACK cfg then set_feedback pG (feedback_clear co pG) else pG in
  let pGd := Delete_Ghost pG0 in
  wp (particle_loop (loop_body cfg gl co K (cell1_of pG0))
        (Z.to_nat (nparticle pGd)) 0 pGd)
     (fun pG' _ => integrated cfg gl co K pG pG').
Proof.
  intros Hws pG0 pGd.
  assert (H0 : same_frame pG pG0 /\ particle pG0 = particle pG /\
               (FEEDBACK cfg = false -> feedback pG0 = feedback pG) /\
               (FEEDBACK cfg = true -> feedback pG0 = feedback_clear co pG)).
  { unfold pG0. destruct (FEEDBACK cfg); repeat split; discriminate. }
  destruct H0 as (Hf0 & Hl0 & Hfb0 & Hfb1).
  assert (Hn0 : nparticle pG0 = nparticle pG) by apply Hf0.
  assert (Hws0 : well_sized pG0) by (unfold well_sized; rewrite Hn0, Hl0; exact Hws).
  assert (Hg0 : grains pG0 = grains pG)
    by (unfold grains, grains_from; rewrite Hn0, Hl0; reflexivity).
  pose proof (Delete_Ghost_purged pG0 Hws0) as Hp. fold pGd in Hp.
  pose proof Hp as (Hpf & Hpn & Hpl & _ & Hperm & _).
  assert (Hwsd : well_sized pGd).
  { destruct Hws0 as [Ha Hb]. split; [lia|]. rewrite Hpl. lia. }
  pose proof (particle_loop_looped K (cell1_of pG0) HK (Z.to_nat (nparticle pGd))
                0%Z pGd ltac:(destruct Hwsd; lia) ltac:(apply Hwsd)
                ltac:(f_equal; lia)) as Hloop.
  eapply wp_mono; [|exact Hloop]. clear Hloop.
  intros pG' o (Hf' & dvs & HF2 & Hl' & Hb0 & Hb1).
  assert (Hmd : same_mesh pG pGd).
  { eapply same_mesh_trans; [apply same_frame_mesh; exact Hf0|].
    apply purge_frame_mesh; exact Hpf. }
  assert (Hc1 : cell1_of pG0 = cell1_of pG)
    by (apply cell1_of_mesh, same_frame_mesh; exact Hf0).
  split; [eapply same_mesh_trans; [exact Hmd|apply same_frame_mesh; exact Hf']|].
  exists (grains pGd), dvs. fold (grains pGd) in HF2, Hl', Hb1.
  split; [rewrite <- Hg0; exact Hperm|].
  split.
  { rewrite length_grains by exact Hwsd. apply Hf'. }
  split.
  { eapply Forall2_impl; [exact HF2|].
    intros a dv (pGi & oi & Hfi & Ei). exists pGi, oi. rewrite <- Hc1.
    split; [|exact Ei].
    eapply same_mesh_trans; [exact Hmd|apply same_frame_mesh; exact Hfi]. }
  split.
  { unfold grains at 1, grains_from. simpl. rewrite drop_0.
    assert (En' : nparticle pG' = nparticle pGd) by apply Hf'.
    rewrite En', Hl'. simpl.
    rewrite take_app_length'.
    - apply zip_with_pointwise. intros a dv. apply stepped_grain_mesh. exact Hmd.
    - rewrite length_zip_with_l_eq by (apply Forall2_length in HF2; exact HF2).
      pose proof (length_grains pGd Hwsd). lia. }
  assert (Hfd : feedback pGd = feedback pG0) by apply Hpf.
  split.
  { intros EB. rewrite (Hb0 EB), Hfd. apply Hfb0. exact EB. }
  intros EB total Hc Hz.
  eapply Veq_trans; [apply (Hb1 EB total Hc)|].
  rewrite Hfd, (Hfb1 EB).
  rewrite (zip_with_pointwise _
             (fun a dv => drag_impulse cfg gl pG a (stepped_grain cfg gl pG a dv) dv)).
  - apply Vadd_zero_l. exact Hz.
  - intros a dv. simpl. rewrite (stepped_grain_mesh pG pGd a dv Hmd).
    rewrite (drag_impulse_purged pG0 pGd) by exact Hp.
    apply drag_impulse_frame; [exact Hf0|reflexivity..].
Qed.

Lemma integrate_particle_exp_integrated pG :
  well_sized pG ->
  wp (integrate_particle_exp cfg gl co pG)
     (fun pG' _ => integrated cfg gl co (exp_dv cfg gl co) pG pG').
Proof.
  intros Hws. unfold integrate_particle_exp. apply wp_bind.
  eapply wp_mono; [|apply (loop_after_purge _ exp_dv_total pG Hws)].
  intros pG' o H. exact H.
Qed.

Lemma integrate_particle_semimp_integrated pG :
  well_sized pG ->
  wp (integrate_particle_semimp cfg gl co pG)
     (fun pG' _ => integrated cfg gl co (semimp_dv cfg gl co) pG pG').
Proof.
  intros Hws. unfold integrate_particle_semimp. apply wp_bind.
  eapply wp_mono; [|apply (loop_after_purge _ semimp_dv_total pG Hws)].
  intros pG' o H. exact H.
Qed.

Lemma integrate_particle_fulimp_integrated pG :
  well_sized pG ->
  wp (integrate_particle_fulimp cfg gl co pG)
     (fun pG' _ => integrated cfg gl co (fulimp_dv cfg gl co) pG pG').
Proof.
  intros Hws. unfold integrate_particle_fulimp. apply wp_bind.
  eapply wp_mono; [|apply (loop_after_purge _ fulimp_dv_total pG Hws)].
  intros pG' o H. exact H.
Qed.

(** ** Relating the grains before and after an integrator *)

Lemma Forall2_zip_with_l {A B} (R : A -> A -> Prop) (f : A -> B -> A)
    (P : A -> B -> Prop) (l : list A) (k : list B) :
  (forall a b, R a (f a b)) -> Forall2 P l k -> Forall2 R l (zip_with f l k).
Proof.
  intros HR H. induction H as [|a b l k _ _ IH]; simpl; constructor; auto.
Qed.

Lemma integrated_grains_related K pG pG' (R : Grain -> Grain -> Prop) :
  (forall a dv, R a (stepped_grain cfg gl pG a dv)) ->
  integrated cfg gl co K pG pG' -> grains_related R pG pG'.
Proof.
  intros HR (_ & survivors & dvs & Hperm & _ & HF2 & Hg & _).
  exists survivors. split; [exact Hperm|]. rewrite Hg.
  eapply Forall2_zip_with_l; [exact HR|exact HF2].
Qed.

Lemma every_integrator_related pG (R : Grain -> Grain -> Prop) :
  well_sized pG ->
  (forall a dv, R a (stepped_grain cfg gl pG a dv)) ->
  every_integrator cfg gl co pG (fun pG' _ => grains_related R pG pG').
Proof.
  intros Hws HR. repeat split.
  - eapply wp_mono; [|apply integrate_particle_exp_integrated; exact Hws].
    intros pG' o H. exact (integrated_grains_related _ pG pG' R HR H).
  - eapply wp_mono; [|apply integrate_particle_semimp_integrated; exact Hws].
    intros pG' o H. exact (integrated_grains_related _ pG pG' R HR H).
  - eapply wp_mono; [|apply integrate_particle_fulimp_integrated; exact Hws].
    intros pG' o H. exact (integrated_grains_related _ pG pG' R HR H).
Qed.

(** The loop returns whatever the grid. *)
Lemma particle_loop_total K cell1 (HK : total_steps14 K) (k : nat) :
  forall (p : Z) pG,
    wp (particle_loop (loop_body cfg gl co K cell1) k p pG) (fun _ _ => True).
Proof.
  induction k as [|k IH]; intros p pG; simpl; [exact I|].
  destruct (p <? nparticle pG)%Z; [|exact I].
  apply wp_bind. unfold loop_body at 1. apply wp_bind.
  eapply wp_mono; [|apply HK]. intros dv o _. simpl.
  eapply wp_mono; [|apply IH]. intros; exact I.
Qed.

Lemma every_integrator_total pG :
  every_integrator cfg gl co pG (fun _ _ => True).
Proof.
  repeat split.
  - unfold integrate_particle_exp. apply wp_bind.
    eapply wp_mono; [|apply particle_loop_total, exp_dv_total]. intros; exact I.
  - unfold integrate_particle_semimp. apply wp_bind.
    eapply wp_mono; [|apply particle_loop_total, semimp_dv_total]. intros; exact I.
  - unfold integrate_particle_fulimp. apply wp_bind.
    eapply wp_mono; [|apply particle_loop_total, fulimp_dv_total]. intros; exact I.
Qed.

(** ** Tagging of the grains that cross the boundary *)

Lemma Rgeb_true (a b : Real) : Rgeb a b = true <-> b <= a.
Proof. unfold Rgeb. apply Qle_bool_iff. Qed.

Lemma Rltb_true (a b : Real) : Rltb a b = true <-> a < b.
Proof.
  unfold Rltb. rewrite negb_true_iff. split.
  - intros H. apply Qnot_le_lt. intros Hle. apply Qle_bool_iff in Hle. congruence.
  - intros H. destruct (Qle_bool b a) eqn:E; [|reflexivity].
    apply Qle_bool_iff in E. apply Qlt_not_le in H. contradiction.
Qed.

Lemma crossing_fargo (g : Grain) :
  FARGO cfg = true ->
  (crossing cfg gl g = true <->
   outside (x1 g) (x1lpar gl) (x1upar gl) \/ outside (x3 g) (x3lpar gl) (x3upar gl)).
Proof.
  intros EF. unfold crossing, outside. rewrite EF. simpl.
  rewrite !orb_true_iff, !Rgeb_true, !Rltb_true. tauto.
Qed.

Lemma crossing_no_fargo (g : Grain) :
  FARGO cfg = false ->
  (crossing cfg gl g = true <->
   outside (x1 g) (x1lpar gl) (x1upar gl) \/ outside (x2 g) (x2lpar gl) (x2upar gl)
   \/ outside (x3 g) (x3lpar gl) (x3upar gl)).
Proof.
  intros EF. unfold crossing, outside. rewrite EF. simpl.
  rewrite !orb_true_iff, !Rgeb_true, !Rltb_true. tauto.
Qed.

(** Position and tag of a stepped grain. *)
Lemma stepped_grain_pos pG a dv :
  pos (stepped_grain cfg gl pG a dv)
  = if crossing cfg gl (stepped_grain cfg gl pG a dv) then 10%Z else pos a.
Proof. destruct dv as [[dv1 dv2] dv3]. reflexivity. Qed.

(** ** Arithmetic *)

(** Replaces an inverse of the goal by another inverse of the goal whose
    argument is equal to its own as a polynomial, so that [ring] sees one
    inverse only. *)
Ltac same_inverses :=
  match goal with
  | |- context [ / ?X ] =>
      match goal with
      | |- context [ / ?Y ] =>
          lazymatch X with
          | Y => fail
          | _ =>
              let H := fresh "Hinv" in
              assert (H : / X == / Y) by (apply Qinv_comp; ring);
              rewrite H; clear H
          end
      end
  end.

(** The factor (2 - a) / (2 + a) of the semi-implicit drag update does not
    increase a distance. *)
Lemma relaxation_bound (a y : Q) :
  0 <= a -> Qabs (((2 - a) / (2 + a)) * y) <= Qabs y.
Proof.
  intros Ha. rewrite Qabs_Qmult.
  assert (Hk : Qabs ((2 - a) / (2 + a)) <= 1).
  { apply Qabs_Qle_condition. split.
    - apply Qle_shift_div_l; lra.
    - apply Qle_shift_div_r; lra. }
  pose proof (Qabs_nonneg y) as Hy.
  apply Qle_trans with (1 * Qabs y).
  - apply Qmult_le_compat_r; assumption.
  - rewrite Qmult_1_l. apply Qle_refl.
Qed.

(** ** From the velocity update to the stored grains *)

Lemma Forall2_zip_with_related {A B} (R : A -> A -> Prop) (f : A -> B -> A)
    (P : A -> B -> Prop) (l : list A) (k : list B) :
  (forall a b, P a b -> R a (f a b)) -> Forall2 P l k -> Forall2 R l (zip_with f l k).
Proof.
  intros HR HF. induction HF as [|a b l k Hab HF IH]; simpl.
  - constructor.
  - constructor; [apply HR; exact Hab|exact IH].
Qed.

(** The grains that an integrator stores are related by [R] to the entry
    grains as soon as [R] holds of every velocity update that steps 1 to 4
    return on a grid of the same mesh and gas. *)
Lemma integrated_related_by_update K pG pG' (R : Grain -> Grain -> Prop) :
  (forall pGi a dv o, same_mesh pG pGi -> K pGi (cell1_of pG) a = Returns dv o ->
                      R a (stepped_grain cfg gl pG a dv)) ->
  integrated cfg gl co K pG pG' -> grains_related R pG pG'.
Proof.
  intros HR (_ & survivors & dvs & Hperm & _ & HF2 & Hg & _).
  exists survivors. split; [exact Hperm|]. rewrite Hg.
  eapply Forall2_zip_with_related; [|exact HF2].
  intros a dv (pGi & o & Hm & HK). exact (HR pGi a dv o Hm HK).
Qed.

Lemma same_mesh_half_step1 pG pGi (a : Grain) :
  same_mesh pG pGi -> half_step1 cfg pGi a = half_step1 cfg pG a.
Proof.
  intros (E1 & E2 & E3 & _ & _ & _ & Edt & _). unfold half_step1.
  rewrite E1, E2, E3, Edt. reflexivity.
Qed.

Lemma same_mesh_fulimp_step1 pG pGi (a : Grain) :
  same_mesh pG pGi -> fulimp_step1 cfg pGi a = fulimp_step1 cfg pG a.
Proof.
  intros (E1 & E2 & E3 & _ & _ & _ & Edt & _). unfold fulimp_step1.
  rewrite E1, E2, E3, Edt. reflexivity.
Qed.

Lemma same_mesh_stepped_grain pG pGi (a : Grain) (dv : Real * Real * Real) :
  same_mesh pG pGi -> stepped_grain cfg gl pGi a dv = stepped_grain cfg gl pG a dv.
Proof.
  intros (E1 & E2 & E3 & _ & _ & _ & Edt & _). unfold stepped_grain.
  rewrite E1, E2, E3, Edt. reflexivity.
Qed.

(** The semi-implicit velocity update on a linear drag. *)
Lemma semimp_dv_relaxation pG (cell1 : Vector) (curG : Grain)
    (weight : Weight) (is' js ks : Z) (gv : GasValues) (ua ub uc tstop : Real) :
  SHEARING_BOX cfg = false ->
  getweight co pG (half_step1 cfg pG curG).1.1 (half_step1 cfg pG curG).1.2
    (half_step1 cfg pG curG).2 cell1 = (weight, is', js, ks) ->
  getvalues co pG weight is' js ks = (0%Z, gv) ->
  gasvshift co (half_step1 cfg pG curG).1.1 (half_step1 cfg pG curG).1.2
    (half_step1 cfg pG curG).2 (u1 gv, u2 gv, u3 gv) = (ua, ub, uc) ->
  get_ts co pG (property curG) (rho gv) (cs gv)
    (sqrt co (SQR (v1 curG - ua) + SQR (v2 curG - ub) + SQR (v3 curG - uc)))
  = tstop ->
  0 < tstop -> 0 < dt pG ->
  wp (semimp_dv cfg gl co pG cell1 curG)
    (fun dv _ =>
       let b := stepped_grain cfg gl pG curG dv in
       spec_relaxation (dt pG) tstop ua (v1 curG) (v1 b) /\
       spec_relaxation (dt pG) tstop ub (v2 curG) (v2 b) /\
       spec_relaxation (dt pG) tstop uc (v3 curG) (v3 b)).
Proof.
  intros ES Ew Ev Es Et Hts Hdt.
  unfold semimp_dv, Get_Drag.
  destruct (half_step1 cfg pG curG) as [[x1n x2n] x3n]. cbn [fst snd] in *.
  rewrite Ew, Ev. cbn [Z.eqb]. rewrite Es, Et.
  cbn [wp bind ret fst snd app].
  unfold semimp_step4, Get_Force. rewrite ES. cbn.
  assert (Ha : 0 < dt pG / tstop) by (apply Qlt_shift_div_l; lra).
  assert (Hts' : ~ tstop == 0) by lra.
  assert (H2a : ~ 2 + dt pG / tstop == 0) by lra.
  assert (Hb : ~ dt pG * (1.0 / tstop) + 2.0 == 0).
  { assert (E : dt pG * (1.0 / tstop) == dt pG / tstop) by (field; exact Hts').
    rewrite E. lra. }
  unfold spec_relaxation.
  assert (Hk : forall v u vnew : Q,
             vnew - u == ((2 - dt pG / tstop) / (2 + dt pG / tstop)) * (v - u) ->
             vnew - u == ((2 - dt pG / tstop) / (2 + dt pG / tstop)) * (v - u) /\
             Qabs (vnew - u) <= Qabs (v - u)).
  { intros v u vnew E. split; [exact E|]. rewrite E. apply relaxation_bound. lra. }
  repeat split; apply Hk; field; repeat split; auto; lra.
Qed.

(** ** The grid after the purge and the loop *)

(** The grid that an integrator purges: [pG] with the feedback array cleared
    when there is feedback. *)
Lemma cleared_grid_facts pG :
  let pG0 := if FEEDBACK cfg then set_feedback pG (feedback_clear co pG) else pG in
  same_frame pG pG0 /\ particle pG0 = particle pG /\ grains pG0 = grains pG /\
  (well_sized pG -> well_sized pG0).
Proof.
  intros pG0. unfold pG0.
  destruct (FEEDBACK cfg); repeat split; auto; apply H.
Qed.

(** Every integrator leaves the purged grid up to the grains and the
    feedback array. *)
Lemma every_integrator_purged_frame pG :
  well_sized pG ->
  every_integrator cfg gl co pG
    (fun pG' _ =>
       exists pGd : Grid,
         purged 0 (if FEEDBACK cfg then set_feedback pG (feedback_clear co pG) else pG)
           pGd /\
         same_frame pGd pG').
Proof.
  intros Hws.
  destruct (cleared_grid_facts pG) as (Hf0 & Hl0 & Hg0 & Hws0).
  cbv zeta in Hf0, Hl0, Hg0, Hws0. specialize (Hws0 Hws).
  set (pG0 := if FEEDBACK cfg then set_feedback pG (feedback_clear co pG) else pG) in *.
  pose proof (Delete_Ghost_purged pG0 Hws0) as Hp.
  assert (Hwsd : well_sized (Delete_Ghost pG0)).
  { destruct Hp as (_ & Hn & Hl & _). destruct Hws0 as [Ha Hb].
    split; [lia|]. rewrite Hl. lia. }
  assert (Hloop : forall K, total_steps14 K ->
            wp (particle_loop (loop_body cfg gl co K (cell1_of pG0))
                  (Z.to_nat (nparticle (Delete_Ghost pG0))) 0 (Delete_Ghost pG0))
               (fun pG' _ => exists pGd : Grid, purged 0 pG0 pGd /\ same_frame pGd pG')).
  { intros K HK.
    eapply wp_mono;
      [|apply (particle_loop_looped K (cell1_of pG0) HK _ 0%Z (Delete_Ghost pG0));
        [destruct Hwsd; lia|apply Hwsd|f_equal; lia]].
    intros pG' o (Hf' & _). exists (Delete_Ghost pG0). split; assumption. }
  repeat split.
  - unfold integrate_particle_exp. apply wp_bind.
    eapply wp_mono; [|apply (Hloop _ exp_dv_total)]. intros pG' o H. exact H.
  - unfold integrate_particle_semimp. apply wp_bind.
    eapply wp_mono; [|apply (Hloop _ semimp_dv_total)]. intros pG' o H. exact H.
  - unfold integrate_particle_fulimp. apply wp_bind.
    eapply wp_mono; [|apply (Hloop _ fulimp_dv_total)]. intros pG' o H. exact H.
Qed.

Lemma every_integrator_conj pG (P Q : Grid -> list Msg -> Prop) :
  every_integrator cfg gl co pG P -> every_integrator cfg gl co pG Q ->
  every_integrator cfg gl co pG (fun pG' o => P pG' o /\ Q pG' o).
Proof.
  intros (H1 & H2 & H3) (K1 & K2 & K3). repeat split; apply wp_conj; assumption.
Qed.

Lemma every_integrator_mono pG (P Q : Grid -> list Msg -> Prop) :
  (forall pG' o, P pG' o -> Q pG' o) ->
  every_integrator cfg gl co pG P -> every_integrator cfg gl co pG Q.
Proof.
  intros HPQ (H1 & H2 & H3). repeat split; eapply wp_mono; eassumption.
Qed.

Lemma every_integrator_integrated pG :
  well_sized pG ->
  every_integrator cfg gl co pG
    (fun pG' _ => exists K, integrated cfg gl co K pG pG').
Proof.
  intros Hws. repeat split.
  - eapply wp_mono; [|apply integrate_particle_exp_integrated; exact Hws].
    intros pG' o H. eexists. exact H.
  - eapply wp_mono; [|apply integrate_particle_semimp_integrated; exact Hws].
    intros pG' o H. eexists. exact H.
  - eapply wp_mono; [|apply integrate_particle_fulimp_integrated; exact Hws].
    intros pG' o H. eexists. exact H.
Qed.

(** ** The output of the integrators *)

Lemma Get_Drag_warns pG type x1 x2 x3 v1 v2 v3 cell1 :
  wp (Get_Drag co pG type x1 x2 x3 v1 v2 v3 cell1)
     (fun _ o => Forall (fun msg => msg = out_of_grid_warning (my_id pG)) o).
Proof.
  unfold Get_Drag.
  destruct (getweight co pG x1 x2 x3 cell1) as [[[w i] j] k].
  destruct (getvalues co pG w i j k) as [status gv].
  destruct (status =? 0)%Z.
  - destruct (gasvshift co x1 x2 x3 (u1 gv, u2 gv, u3 gv)) as [[a b] c].
    simpl. constructor.
  - simpl. repeat constructor.
Qed.

Lemma exp_dv_warns : warning_steps14 (exp_dv cfg gl co).
Proof.
  intros pG cell1 g. unfold exp_dv.
  destruct (half_step1 cfg pG g) as [[x1n x2n] x3n].
  apply wp_bind. eapply wp_mono; [|apply Get_Drag_warns].
  intros [fd ts] o Ho. apply wp_bind. eapply wp_mono; [|apply Get_Drag_warns].
  intros [fd' ts'] o' Ho'. simpl. rewrite app_nil_r. apply Forall_app. split; assumption.
Qed.

Lemma semimp_dv_warns : warning_steps14 (semimp_dv cfg gl co).
Proof.
  intros pG cell1 g. unfold semimp_dv.
  destruct (half_step1 cfg pG g) as [[x1n x2n] x3n].
  apply wp_bind. eapply wp_mono; [|apply Get_Drag_warns].
  intros [fd ts] o Ho. simpl. rewrite app_nil_r. exact Ho.
Qed.

Lemma fulimp_dv_warns : warning_steps14 (fulimp_dv cfg gl co).
Proof.
  intros pG cell1 g. unfold fulimp_dv.
  destruct (fulimp_step1 cfg pG g) as [[x1n x2n] x3n].
  apply wp_bind. eapply wp_mono; [|apply Get_Drag_warns].
  intros [fd ts] o Ho. apply wp_bind. eapply wp_mono; [|apply Get_Drag_warns].
  intros [fd' ts'] o' Ho'. simpl. rewrite app_nil_r. apply Forall_app. split; assumption.
Qed.

Lemma particle_loop_warns K cell1 (HK : warning_steps14 K) (k : nat) :
  forall (p : Z) pG,
    wp (particle_loop (loop_body cfg gl co K cell1) k p pG)
       (fun pG' o => same_frame pG pG' /\
                     Forall (fun msg => msg = out_of_grid_warning (my_id pG)) o).
Proof.
  induction k as [|k IH]; intros p pG; simpl.
  - split; [apply same_frame_refl|constructor].
  - destruct (p <? nparticle pG)%Z; [|split; [apply same_frame_refl|constructor]].
    apply wp_bind. unfold loop_body at 1. apply wp_bind.
    eapply wp_mono; [|apply HK]. intros dv o Ho. simpl.
    pose proof (update_particle_frame pG p cell1 dv) as Hf.
    eapply wp_mono; [|apply IH]. intros pG' o' [Hf' Ho'].
    split; [eapply same_frame_trans; eassumption|].
    rewrite app_nil_r. apply Forall_app. split; [exact Ho|].
    assert (E : my_id (update_particle cfg gl co pG p cell1 dv) = my_id pG) by apply Hf.
    rewrite E in Ho'. exact Ho'.
Qed.

Lemma Delete_Ghost_loop_frame (k : nat) : forall (p : Z) pG,
  (0 <= p)%Z -> purge_frame pG (Delete_Ghost_loop k p pG).
Proof.
  induction k as [|k IH]; intros p pG Hp; simpl; [apply purge_frame_refl|].
  destruct (p <? nparticle pG)%Z; [|apply purge_frame_refl].
  destruct (pos (particle_at pG p) =? 0)%Z.
  - destruct (ghost_removal_fields pG p Hp) as (Hf & _).
    eapply purge_frame_trans; [exact Hf|]. apply IH. exact Hp.
  - apply IH. lia.
Qed.

(** ** More on the ghost purge *)

Lemma Delete_Ghost_loop_no_ghost (k : nat) : forall (p : Z) pG,
  (0 <= p)%Z ->
  (Z.to_nat (nparticle pG) <= length (particle pG))%nat ->
  Forall live (grains_from pG p) ->
  Delete_Ghost_loop k p pG = pG.
Proof.
  induction k as [|k IH]; intros p pG Hp Hn Hl; simpl; [reflexivity|].
  destruct (p <? nparticle pG)%Z eqn:E; [|reflexivity].
  apply Z.ltb_lt in E.
  rewrite (grains_from_cons pG p) in Hl by lia.
  apply Forall_cons in Hl. destruct Hl as [Ha Hl].
  unfold live in Ha. apply Z.eqb_neq in Ha. rewrite Ha.
  apply IH; [lia|exact Hn|exact Hl].
Qed.

Lemma purged_well_sized pG pG' :
  well_sized pG -> purged 0 pG pG' -> well_sized pG'.
Proof.
  intros [Ha Hb] (_ & Hn & Hl & _). split; [lia|]. rewrite Hl. lia.
Qed.

Lemma purged_all_live pG pG' : purged 0 pG pG' -> Forall live (grains pG').
Proof.
  intros (_ & _ & _ & _ & Hperm & _). unfold grains. rewrite Hperm.
  apply Forall_forall. intros x Hx. apply list_elem_of_filter in Hx. apply Hx.
Qed.

(** Proves that an expression is not 0 from a hypothesis that says so of an
    expression equal to it as a polynomial. *)
Ltac nonzero :=
  let H := fresh "Hz" in
  intros H;
  match goal with
  | Hn : ~ _ == 0 |- False => apply Hn; etransitivity; [|exact H]; ring
  end.

(** ** Linear drag towards a uniform gas *)

Lemma Get_Drag_uniform pG (type : Z) (ua ub uc tstop : Real)
    (x1 x2 x3 v1 v2 v3 : Real) (cell1 : Vector) :
  uniform_drag co pG type (ua, ub, uc) tstop ->
  Get_Drag co pG type x1 x2 x3 v1 v2 v3 cell1
  = Returns (Vector.mk (- (1.0 / tstop) * (v1 - ua)) (- (1.0 / tstop) * (v2 - ub))
               (- (1.0 / tstop) * (v3 - uc)), 1.0 / tstop) [].
Proof.
  intros Hu. unfold Get_Drag.
  specialize (Hu x1 x2 x3 cell1
                (sqrt co (SQR (v1 - ua) + SQR (v2 - ub) + SQR (v3 - uc)))).
  destruct (getweight co pG x1 x2 x3 cell1) as [[[w i] j] k].
  destruct Hu as (gv & Ev & Es & Et). rewrite Ev. cbn [Z.eqb]. rewrite Es, Et.
  reflexivity.
Qed.

Lemma scaled_abs_le (k y : Q) : - (1) <= k -> k <= 1 -> Qabs (k * y) <= Qabs y.
Proof.
  intros H1 H2. rewrite Qabs_Qmult.
  assert (Hk : Qabs k <= 1) by (apply Qabs_Qle_condition; split; assumption).
  pose proof (Qabs_nonneg y) as Hy.
  apply Qle_trans with (1 * Qabs y).
  - apply Qmult_le_compat_r; assumption.
  - rewrite Qmult_1_l. apply Qle_refl.
Qed.

Lemma scaled_abs_gt (k y : Q) : 1 < k -> ~ y == 0 -> Qabs y < Qabs (k * y).
Proof.
  intros H1 Hy. rewrite Qabs_Qmult.
  assert (Hk : Qabs k == k) by (apply Qabs_pos; lra).
  rewrite Hk.
  assert (Hpos : 0 < Qabs y).
  { destruct (Qlt_le_dec 0 (Qabs y)) as [H|H]; [exact H|].
    exfalso. apply Hy. pose proof (Qabs_nonneg y).
    assert (E : Qabs y == 0) by lra.
    apply (Qabs_case y (fun a => a == 0 -> y == 0)); [intros _ E0; exact E0| |exact E].
    intros _ E0. lra. }
  nra.
Qed.

Lemma square_nonneg (x : Q) : 0 <= x * x.
Proof.
  destruct (Qlt_le_dec x 0) as [H|H].
  - assert (E : x * x == (- x) * (- x)) by ring. rewrite E.
    apply Qmult_le_0_compat; lra.
  - apply Qmult_le_0_compat; assumption.
Qed.

(** The determinant and the diagonal element of the fully implicit scheme
    are positive for a time step and stopping frequencies that are not
    negative. *)
Lemma fulimp_D_ge_1 pG (ts11 ts12 : Real) :
  0 <= dt pG -> 0 <= ts11 -> 0 <= ts12 -> 1 <= fulimp_D pG ts11 ts12.
Proof.
  intros Hdt H1 H2. unfold fulimp_D.
  assert (0 <= dt pG * ts11 * ts12)
    by (apply Qmult_le_0_compat; [apply Qmult_le_0_compat|]; assumption).
  assert (0 <= dt pG * (ts11 + ts12 + dt pG * ts11 * ts12))
    by (apply Qmult_le_0_compat; lra).
  lra.
Qed.

Lemma fulimp_Det_positive pG (ts11 ts12 : Real) :
  0 <= dt pG -> 0 <= ts11 -> 0 <= ts12 ->
  0 < SQR (fulimp_A cfg gl pG ts11 ts12)
      - fulimp_B gl pG ts11 ts12 * fulimp_C cfg gl pG ts11 ts12.
Proof.
  intros Hdt H1 H2. pose proof (fulimp_D_ge_1 pG ts11 ts12 Hdt H1 H2) as HD.
  unfold fulimp_A, fulimp_C, fulimp_B, SQR.
  set (D := fulimp_D pG ts11 ts12) in *. clearbody D.
  set (w := Omega gl * dt pG).
  assert (Hs : 2 <= 2 + (ts11 + ts12) * dt pG).
  { assert (0 <= (ts11 + ts12) * dt pG) by (apply Qmult_le_0_compat; lra). lra. }
  set (s := 2 + (ts11 + ts12) * dt pG) in *.
  assert (EB : w * (-2.0 - (ts11 + ts12) * dt pG) == - (w * s)) by (unfold s; ring).
  clearbody s w.
  pose proof (square_nonneg w) as Hw2.
  pose proof (square_nonneg (w * s)) as Hws2.
  destruct (Qeq_dec w 0) as [Hw|Hw].
  - assert (HDD : 1 <= D * D).
    { assert (0 <= (D - 1) * (D - 1)) by apply square_nonneg.
      assert (E : D * D == (D - 1) * (D - 1) + 2 * D - 1) by ring. rewrite E. lra. }
    destruct (FARGO cfg); rewrite EB, Hw.
    + assert (E : (D - 0.5 * (0 * 0)) * (D - 0.5 * (0 * 0))
                  - - (0 * s) * (-0.25 * - (0 * s)) == D * D) by ring.
      rewrite E. lra.
    + assert (E : (D - 2.0 * (0 * 0)) * (D - 2.0 * (0 * 0))
                  - - (0 * s) * - - (0 * s) == D * D) by ring.
      rewrite E. lra.
  - assert (Hpos : 0 < (w * s) * (w * s)).
    { assert (Hne : ~ w * s == 0).
      { intros E. apply Hw. assert (Hs0 : ~ s == 0) by lra.
        assert (E' : w == w * s / s) by (field; exact Hs0). rewrite E', E. field. exact Hs0. }
      destruct (Qlt_le_dec 0 (w * s * (w * s))) as [H|H]; [exact H|].
      exfalso. assert (E0 : w * s * (w * s) == 0) by lra.
      apply Qmult_integral in E0. tauto. }
    destruct (FARGO cfg); rewrite EB.
    + pose proof (square_nonneg (D - 0.5 * (w * w))) as HX.
      assert (E : (D - 0.5 * (w * w)) * (D - 0.5 * (w * w))
                  - - (w * s) * (-0.25 * - (w * s))
                  == (D - 0.5 * (w * w)) * (D - 0.5 * (w * w))
                     + (1 # 4) * ((w * s) * (w * s))) by ring.
      rewrite E. lra.
    + pose proof (square_nonneg (D - 2.0 * (w * w))) as HX.
      assert (E : (D - 2.0 * (w * w)) * (D - 2.0 * (w * w))
                  - - (w * s) * - - (w * s)
                  == (D - 2.0 * (w * w)) * (D - 2.0 * (w * w))
                     + (w * s) * (w * s)) by ring.
      rewrite E. lra.
Qed.

(** ** The loop of the predictor feedback *)

Lemma same_but_feedback_refl pG : same_but_feedback pG pG.
Proof. split; [apply same_frame_refl|reflexivity]. Qed.

Lemma same_but_feedback_trans pG1 pG2 pG3 :
  same_but_feedback pG1 pG2 -> same_but_feedback pG2 pG3 ->
  same_but_feedback pG1 pG3.
Proof.
  intros [H1 E1] [H2 E2]. split; [eapply same_frame_trans; eassumption|congruence].
Qed.

Lemma feedback_predictor_body_frame cell1 (p : Z) pG :
  same_but_feedback pG (feedback_predictor_body co cell1 p pG).
Proof.
  unfold feedback_predictor_body.
  destruct (getweight co pG _ _ _ cell1) as [[[w i] j] k].
  destruct (getvalues co pG w i j k) as [status gv].
  destruct (status =? 0)%Z; [|apply same_but_feedback_refl].
  destruct (gasvshift co _ _ _ _) as [[a b] c].
  split; [apply same_frame_set_feedback|reflexivity].
Qed.

Lemma feedback_predictor_loop_frame cell1 (k : nat) : forall (p : Z) pG,
  same_but_feedback pG (feedback_predictor_loop co cell1 k p pG).
Proof.
  induction k as [|k IH]; intros p pG; simpl; [apply same_but_feedback_refl|].
  destruct (p <? nparticle pG)%Z; [|apply same_but_feedback_refl].
  eapply same_but_feedback_trans; [apply feedback_predictor_body_frame|apply IH].
Qed.

Lemma feedback_predictor_body_outside cell1 (p : Z) pG :
  gas_status co pG cell1 (particle_at pG p) <> 0%Z ->
  feedback_predictor_body co cell1 p pG = pG.
Proof.
  unfold gas_status, feedback_predictor_body.
  destruct (getweight co pG _ _ _ cell1) as [[[w i] j] k].
  destruct (getvalues co pG w i j k) as [status gv]. simpl.
  intros Hs. destruct (status =? 0)%Z eqn:E; [|reflexivity].
  apply Z.eqb_eq in E. contradiction.
Qed.

Lemma feedback_predictor_loop_outside cell1 (k : nat) : forall (p : Z) pG,
  (forall i : Z, (p <= i < nparticle pG)%Z ->
                 gas_status co pG cell1 (particle_at pG i) <> 0%Z) ->
  feedback_predictor_loop co cell1 k p pG = pG.
Proof.
  induction k as [|k IH]; intros p pG H; simpl; [reflexivity|].
  destruct (p <? nparticle pG)%Z eqn:E; [|reflexivity].
  apply Z.ltb_lt in E.
  rewrite feedback_predictor_body_outside by (apply H; lia).
  apply IH. intros i Hi. apply H. lia.
Qed.

Lemma feedback_predictor_body_total cell1 (p : Z) pG (total : FeedbackT -> Vector) :
  distrFB_adds co total ->
  Veq (total (feedback (feedback_predictor_body co cell1 p pG)))
      (Vadd (total (feedback pG)) (predictor_deposit co pG cell1 (particle_at pG p))).
Proof.
  intros Hadd. unfold feedback_predictor_body, predictor_deposit.
  destruct (getweight co pG _ _ _ cell1) as [[[w i] j] k].
  destruct (getvalues co pG w i j k) as [status gv].
  destruct (status =? 0)%Z; [|apply Vadd_zero].
  destruct (gasvshift co _ _ _ _) as [[a b] c]. simpl. apply Hadd.
Qed.

Lemma feedback_predictor_loop_total cell1 (total : FeedbackT -> Vector)
    (Hadd : distrFB_adds co total) (k : nat) : forall (p : Z) pG,
  (0 <= p <= nparticle pG)%Z ->
  (Z.to_nat (nparticle pG) <= length (particle pG))%nat ->
  k = Z.to_nat (nparticle pG - p) ->
  exists fbs : list Vector,
    Forall2 (fun g fb => exists pGi : Grid,
                           same_but_feedback pG pGi /\
                           fb = predictor_deposit co pGi cell1 g)
      (grains_from pG p) fbs /\
    Veq (total (feedback (feedback_predictor_loop co cell1 k p pG)))
        (Vadd (total (feedback pG)) (Vsum fbs)).
Proof.
  induction k as [|k IH]; intros p pG Hp Hn Hk.
  - simpl. exists []. rewrite grains_from_end by lia.
    split; [constructor|apply Vadd_zero].
  - simpl. assert (Hlt : (p < nparticle pG)%Z) by lia.
    rewrite (proj2 (Z.ltb_lt _ _) Hlt).
    set (pG1 := feedback_predictor_body co cell1 p pG).
    destruct (feedback_predictor_body_frame cell1 p pG) as [Hf1 Hl1]. fold pG1 in Hf1, Hl1.
    assert (En : nparticle pG1 = nparticle pG) by apply Hf1.
    specialize (IH (p + 1)%Z pG1). rewrite En, Hl1 in IH.
    destruct (IH ltac:(lia) Hn ltac:(lia)) as (fbs & HF & Ht).
    assert (Hseg : grains_from pG1 (p + 1) = grains_from pG (p + 1))
      by (unfold grains_from; rewrite En, Hl1; reflexivity).
    rewrite Hseg in HF.
    exists (predictor_deposit co pG cell1 (particle_at pG p) :: fbs).
    rewrite (grains_from_cons pG p) by lia.
    split.
    + constructor.
      * exists pG. split; [apply same_but_feedback_refl|reflexivity].
      * eapply Forall2_impl; [exact HF|].
        intros g fb (pGi & Hfi & E). exists pGi. split; [|exact E].
        eapply same_but_feedback_trans; [split; eassumption|exact Hfi].
    + eapply Veq_trans; [exact Ht|]. simpl.
      apply Vadd_assoc_eq. apply feedback_predictor_body_total. exact Hadd.
Qed.

(** ** The velocity updates on a linear drag and without drag *)

(** The explicit velocity update on a uniform linear drag. *)
Lemma exp_dv_relaxation pG (cell1 : Vector)
    (curG : Grain) (ua ub uc tstop : Real) :
  SHEARING_BOX cfg = false ->
  uniform_drag co pG (property curG) (ua, ub, uc) tstop ->
  0 < tstop -> 0 <= dt pG ->
  wp (exp_dv cfg gl co pG cell1 curG)
    (fun dv _ =>
       let b := stepped_grain cfg gl pG curG dv in
       spec_explicit_relaxation (dt pG) tstop ua (v1 curG) (v1 b) /\
       spec_explicit_relaxation (dt pG) tstop ub (v2 curG) (v2 b) /\
       spec_explicit_relaxation (dt pG) tstop uc (v3 curG) (v3 b)).
Proof.
  intros ES Hu Hts Hdt. unfold exp_dv.
  destruct (half_step1 cfg pG curG) as [[x1n x2n] x3n].
  rewrite (Get_Drag_uniform pG _ ua ub uc tstop _ _ _ _ _ _ _ Hu).
  cbn [bind]. rewrite (Get_Drag_uniform pG _ ua ub uc tstop _ _ _ _ _ _ _ Hu).
  cbn [wp bind ret fst snd app].
  unfold Get_Force. rewrite ES. cbn.
  assert (Hne : ~ tstop == 0) by lra.
  assert (Ha : 0 <= dt pG / tstop) by (apply Qle_shift_div_l; lra).
  unfold spec_explicit_relaxation.
  assert (Hk : forall v u vnew : Q,
             vnew - u == (1 - dt pG / tstop + dt pG / tstop * (dt pG / tstop) / 2)
                         * (v - u) ->
             vnew - u == (1 - dt pG / tstop + dt pG / tstop * (dt pG / tstop) / 2)
                         * (v - u) /\
             (dt pG <= 2 * tstop -> Qabs (vnew - u) <= Qabs (v - u)) /\
             (2 * tstop < dt pG -> ~ v == u -> Qabs (v - u) < Qabs (vnew - u))).
  { intros v u vnew E. split; [exact E|]. rewrite E.
    set (a := dt pG / tstop) in *.
    split.
    - intros Hle. assert (Ha2 : a <= 2) by (apply Qle_shift_div_r; lra).
      clearbody a. clear - Ha Ha2.
      pose proof (square_nonneg (a - 1)) as H1.
      assert (H2 : 0 <= a * (2 - a)) by (apply Qmult_le_0_compat; lra).
      assert (E1 : 1 - a + a * a / 2 == (1 # 2) * ((a - 1) * (a - 1)) + (1 # 2))
        by (field).
      assert (E2 : 1 - a + a * a / 2 == 1 - (1 # 2) * (a * (2 - a))) by field.
      apply scaled_abs_le; [rewrite E1|rewrite E2]; lra.
    - intros Hgt Hv. assert (Ha2 : 2 < a) by (apply Qlt_shift_div_l; lra).
      clearbody a. clear - Ha Ha2 Hv.
      assert (H2 : 0 < a * (a - 2)) by (apply Qmult_lt_0_compat; lra).
      assert (E2 : 1 - a + a * a / 2 == 1 + (1 # 2) * (a * (a - 2))) by field.
      apply scaled_abs_gt; [rewrite E2; lra|lra]. }
  repeat split; apply Hk; field; exact Hne.
Qed.

(** The fully implicit velocity update on a uniform linear drag. *)
Lemma fulimp_dv_relaxation pG (cell1 : Vector) (curG : Grain)
    (ua ub uc tstop : Real) :
  SHEARING_BOX cfg = false ->
  uniform_drag co pG (property curG) (ua, ub, uc) tstop ->
  0 < tstop -> 0 <= dt pG ->
  wp (fulimp_dv cfg gl co pG cell1 curG)
    (fun dv _ =>
       let b := stepped_grain cfg gl pG curG dv in
       spec_implicit_relaxation (dt pG) tstop ua (v1 curG) (v1 b) /\
       spec_implicit_relaxation (dt pG) tstop ub (v2 curG) (v2 b) /\
       spec_implicit_relaxation (dt pG) tstop uc (v3 curG) (v3 b)).
Proof.
  intros ES Hu Hts Hdt. unfold fulimp_dv.
  destruct (fulimp_step1 cfg pG curG) as [[x1n x2n] x3n].
  rewrite (Get_Drag_uniform pG _ ua ub uc tstop _ _ _ _ _ _ _ Hu).
  cbn [bind]. rewrite (Get_Drag_uniform pG _ ua ub uc tstop _ _ _ _ _ _ _ Hu).
  cbn [wp bind ret fst snd app].
  unfold fulimp_step4, fulimp_ft, fulimp_D, Get_Force. rewrite ES. cbn.
  assert (Hne : ~ tstop == 0) by lra.
  assert (Ha : 0 <= dt pG / tstop) by (apply Qle_shift_div_l; lra).
  assert (Hden : forall a : Q, 0 <= a -> 1 <= 1 + a + a * a / 2).
  { intros a H0. assert (0 <= a * a) by (apply Qmult_le_0_compat; lra).
    assert (E : 1 + a + a * a / 2 == 1 + a + (1 # 2) * (a * a)) by field. rewrite E. lra. }
  pose proof (Hden _ Ha) as Hd.
  assert (HD : ~ 2 * tstop * tstop + 2 * dt pG * tstop + dt pG * dt pG == 0).
  { assert (0 < tstop * tstop) by (apply Qmult_lt_0_compat; lra).
    assert (0 <= dt pG * tstop) by (apply Qmult_le_0_compat; lra).
    assert (0 <= dt pG * dt pG) by (apply Qmult_le_0_compat; lra). lra. }
  assert (HD2 : ~ tstop * tstop + (1 # 2) * dt pG * (2 * tstop + dt pG) == 0).
  { intros E. apply HD. rewrite <- (Qmult_0_r 2), <- E. ring. }
  unfold spec_implicit_relaxation.
  assert (Hk : forall v u vnew : Q,
             vnew - u == (v - u) / (1 + dt pG / tstop + dt pG / tstop * (dt pG / tstop) / 2) ->
             vnew - u == (v - u) / (1 + dt pG / tstop + dt pG / tstop * (dt pG / tstop) / 2) /\
             Qabs (vnew - u) <= Qabs (v - u) /\
             0 <= (vnew - u) * (v - u)).
  { intros v u vnew E. split; [exact E|]. rewrite E.
    set (d := 1 + dt pG / tstop + dt pG / tstop * (dt pG / tstop) / 2) in *.
    clearbody d.
    assert (Hi : 0 < / d) by (apply Qinv_lt_0_compat; lra).
    assert (Hi1 : / d <= 1).
    { assert (E1 : / d == 1 / d) by (field; lra). rewrite E1.
      apply Qle_shift_div_r; lra. }
    unfold Qdiv. split.
    - rewrite (Qmult_comm (v - u)). apply scaled_abs_le; lra.
    - assert (E2 : (v - u) * / d * (v - u) == / d * ((v - u) * (v - u))) by ring.
      rewrite E2. apply Qmult_le_0_compat; [lra|apply square_nonneg]. }
  repeat split; apply Hk; field; repeat split; nonzero.
Qed.

(** The semi-implicit velocity update outside the grid, in the 3D shearing
    sheet with FARGO. *)
Lemma semimp_dv_keeps_epicyclic_energy pG (cell1 : Vector)
    (curG : Grain) (weight : Weight) (is' js ks status : Z) (gv : GasValues) :
  SHEARING_BOX cfg = true -> FARGO cfg = true -> (Nx3 pG > 1)%Z ->
  getweight co pG (half_step1 cfg pG curG).1.1 (half_step1 cfg pG curG).1.2
    (half_step1 cfg pG curG).2 cell1 = (weight, is', js, ks) ->
  getvalues co pG weight is' js ks = (status, gv) ->
  status <> 0%Z ->
  wp (semimp_dv cfg gl co pG cell1 curG)
    (fun dv _ =>
       let b := stepped_grain cfg gl pG curG dv in
       v1 b * v1 b + 4 * (v2 b * v2 b)
       == v1 curG * v1 curG + 4 * (v2 curG * v2 curG)).
Proof.
  intros ES EF EN Ew Ev Hs.
  assert (EN' : (Nx3 pG >? 1)%Z = true) by (apply Z.gtb_lt; lia).
  unfold semimp_dv, Get_Drag.
  destruct (half_step1 cfg pG curG) as [[x1n x2n] x3n]. cbn [fst snd] in *.
  rewrite Ew, Ev.
  destruct (status =? 0)%Z eqn:E; [apply Z.eqb_eq in E; contradiction|].
  cbn [wp bind ret fst snd app ath_perr].
  unfold semimp_step4, Get_Force, SQR. rewrite ES, EF, EN'.
  pose proof (square_nonneg (Omega gl * dt pG)) as Hw.
  assert (Hn : ~ 4 + Omega gl * dt pG * (Omega gl * dt pG) == 0) by lra.
  destruct (VERTICAL_GRAVITY cfg); cbn; field; nonzero.
Qed.

(** * Main results *)

(** C8. For any grain array, [Delete_Ghost] removes exactly the grains with
    [pos = 0]: on return [nparticle] is the number of entry grains with
    [pos <> 0], the surviving entries are the entry grains with [pos <> 0]
    up to order, and the counter [num] of every species is decremented by
    the number of removed ghosts of that species. *)
Theorem Delete_Ghost_removes_exactly_the_ghosts pG :
  well_sized pG ->
  nparticle (Delete_Ghost pG) = Z.of_nat (length (filter live (grains pG))) /\
  grains (Delete_Ghost pG) ≡ₚ filter live (grains pG) /\
  forall s : nat, (s < length (grproperty pG))%nat ->
    num (grproperty (Delete_Ghost pG) !!! s)
    = (num (grproperty pG !!! s)
       - Z.of_nat (length (filter (ghost_of (Z.of_nat s)) (grains pG))))%Z.
Proof.
  intros Hws. pose proof (Delete_Ghost_purged pG Hws) as Hp.
  destruct Hp as (_ & Hn & Hl & _ & Hperm & _ & Hnum).
  assert (Hws' : well_sized (Delete_Ghost pG)).
  { destruct Hws as [Ha Hb]. split; [lia|]. rewrite Hl. lia. }
  split; [|split].
  - rewrite <- (length_grains _ Hws'). unfold grains. rewrite Hperm. reflexivity.
  - exact Hperm.
  - intros s Hs. apply Hnum. exact Hs.
Qed.

(** C1 (as amended). For every grain and every collapsed axis i (Ni = 1),
    the position component x_i of the grain after a call to any of the three
    integrators is exactly equal to its value before the call.  (The velocity
    component v_i is updated like on an active axis.) *)
Theorem collapsed_axis_position_is_kept pG :
  well_sized pG ->
  every_integrator cfg gl co pG
    (fun pG' _ => grains_related (collapsed_position_kept pG) pG pG').
Proof.
  intros Hws. apply every_integrator_related; [exact Hws|].
  intros a [[dv1 dv2] dv3]. unfold collapsed_position_kept, stepped_grain. simpl.
  repeat split; intros ->; reflexivity.
Qed.

(** C2 (as amended). In FARGO mode, for every grain processed by any
    integrator, the exempt axis is x2 whatever Nx3 is: an updated x2 outside
    its interval never causes [pos] to be set to 10 ([pos] keeps its value
    when x1 and x3 are inside their intervals), while an updated x1 or x3
    outside the half-open interval from its lower to its upper bound always
    sets [pos] to 10. *)
Theorem fargo_exempts_x2_from_tagging pG :
  FARGO cfg = true ->
  well_sized pG ->
  every_integrator cfg gl co pG
    (fun pG' _ => grains_related (fargo_tagging_x2_exempt gl) pG pG').
Proof.
  intros EF Hws. apply every_integrator_related; [exact Hws|].
  intros a dv. unfold fargo_tagging_x2_exempt. rewrite stepped_grain_pos.
  pose proof (crossing_fargo (stepped_grain cfg gl pG a dv) EF) as Hc.
  destruct (crossing cfg gl (stepped_grain cfg gl pG a dv)).
  - split; [|reflexivity]. intros H1 H3.
    destruct (proj1 Hc eq_refl); contradiction.
  - split; [reflexivity|]. intros H. apply Hc in H. discriminate H.
Qed.

(** C10. For every grain still in the array when any of the three
    integrators returns, [property] is unchanged and [pos] is its entry value
    or 10, and [shift] is written only when FARGO is enabled: apart from
    position and velocity, tagging to 10 and the FARGO shift, the fields of
    every surviving grain are preserved. *)
Theorem integrators_preserve_grain_frame pG :
  well_sized pG ->
  every_integrator cfg gl co pG
    (fun pG' _ => grains_related (grain_frame cfg) pG pG').
Proof.
  intros Hws. apply every_integrator_related; [exact Hws|].
  intros a dv. unfold grain_frame. rewrite stepped_grain_pos.
  destruct dv as [[dv1 dv2] dv3].
  split; [reflexivity|]. split.
  - destruct (crossing cfg gl _); [right|left]; reflexivity.
  - intros EF. unfold stepped_grain. rewrite EF. reflexivity.
Qed.

(** C3 (as amended). The shearing-sheet fully-implicit integrator makes no
    test on the determinant Det = A^2 - B C: it computes 1/Det and the
    velocity update and returns without aborting, whatever Det is.  Det is
    positive whenever the time step and the two stopping frequencies are not
    negative. *)
Theorem fulimp_never_aborts_and_Det_positive pG (ts11 ts12 : Real) :
  0 <= dt pG -> 0 <= ts11 -> 0 <= ts12 ->
  wp (integrate_particle_fulimp cfg gl co pG) (fun _ _ => True) /\
  0 < SQR (fulimp_A cfg gl pG ts11 ts12)
      - fulimp_B gl pG ts11 ts12 * fulimp_C cfg gl pG ts11 ts12.
Proof.
  intros Hdt H1 H2. split; [apply every_integrator_total|].
  unfold fulimp_A, fulimp_C, fulimp_B, fulimp_D, SQR.
  set (w := Omega gl * dt pG). set (d := dt pG) in *.
  set (s := 2 + (ts11 + ts12) * d).
  assert (Hp1 : 0 <= (ts11 + ts12) * d) by (apply Qmult_le_0_compat; lra).
  assert (Hs : 2 <= s) by (unfold s; lra).
  assert (HD : 1 <= 1.0 + 0.5 * d * (ts11 + ts12 + d * ts11 * ts12)).
  { assert (0 <= d * ts11 * ts12).
    { apply Qmult_le_0_compat; [apply Qmult_le_0_compat|]; assumption. }
    assert (0 <= d * (ts11 + ts12 + d * ts11 * ts12))
      by (apply Qmult_le_0_compat; lra).
    lra. }
  set (D := 1.0 + 0.5 * d * (ts11 + ts12 + d * ts11 * ts12)) in *.
  assert (EB : w * (-2.0 - (ts11 + ts12) * d) == - (w * s)) by (unfold s; ring).
  clearbody D s w. clear Hp1. clearbody d.
  destruct (Qeq_dec w 0) as [Hw|Hw].
  - destruct (FARGO cfg); rewrite EB, Hw; clear - HD; nra.
  - assert (Hw2 : 0 < w * w).
    { clear - Hw. destruct (Qlt_le_dec 0 w) as [q|q]; [nra|].
      assert (w < 0) by (apply Qle_lteq in q; tauto). nra. }
    assert (Hws : 4 * (w * w) <= (w * s) * (w * s)).
    { clear - Hw2 Hs. assert (Hs2 : 0 <= s * s - 4) by nra.
      assert (Hp : 0 <= (w * w) * (s * s - 4)) by (apply Qmult_le_0_compat; lra).
      assert (E : (w * s) * (w * s) == 4 * (w * w) + (w * w) * (s * s - 4)) by ring.
      rewrite E. lra. }
    assert (Hsq : forall x : Q, 0 <= x * x) by (intros x; nra).
    destruct (FARGO cfg); rewrite EB; clear - Hw2 Hws Hsq.
    + pose proof (Hsq (D - 0.5 * (w * w))) as HX.
      assert (E : (D - 0.5 * (w * w)) * (D - 0.5 * (w * w))
                  - - (w * s) * (-0.25 * - (w * s))
                  == (D - 0.5 * (w * w)) * (D - 0.5 * (w * w))
                     + (1 # 4) * ((w * s) * (w * s))) by ring.
      rewrite E. clear E.
      set (X2 := (D - 0.5 * (w * w)) * (D - 0.5 * (w * w))) in *.
      set (P := (w * s) * (w * s)) in *. set (W2 := w * w) in *.
      clearbody X2 P W2. lra.
    + pose proof (Hsq (D - 2.0 * (w * w))) as HX.
      assert (E : (D - 2.0 * (w * w)) * (D - 2.0 * (w * w))
                  - - (w * s) * - - (w * s)
                  == (D - 2.0 * (w * w)) * (D - 2.0 * (w * w))
                     + (w * s) * (w * s)) by ring.
      rewrite E. clear E.
      set (X2 := (D - 2.0 * (w * w)) * (D - 2.0 * (w * w))) in *.
      set (P := (w * s) * (w * s)) in *. set (W2 := w * w) in *.
      clearbody X2 P W2. lra.
Qed.

(** C4 (as amended). In the 2D shearing-sheet fully-implicit path
    (Nx3 = 1), the predictor Coriolis contributions added to the symmetrised
    drive are the non-FARGO 3D contributions with the indices 2 and 3
    swapped, with FARGO and without it: the first component gets
    [- w f_p3] and the third [w f_p1], with [w = Omega dt]. *)
Theorem fulimp_2D_coriolis_ignores_fargo pG (fc fp : Vector) (ts11 : Real) :
  SHEARING_BOX cfg = true ->
  Nx3 pG = 1%Z ->
  Veq (fulimp_ft cfg gl pG fc fp ts11)
      (Vadd (spec_drive (dt pG) ts11 fc fp)
            (spec_coriolis_2D_swapped false (Omega gl * dt pG) fp)).
Proof.
  intros ES EN. unfold fulimp_ft. rewrite ES, EN. simpl.
  unfold Veq, Vadd, spec_drive, spec_coriolis_2D_swapped. simpl.
  repeat split; ring.
Qed.

(** C5. In the 3D shearing-sheet fully-implicit integrator (Nx3 > 1), the
    velocity update of a grain is dv1 = dt (A F1 - B F2) / Det,
    dv2 = dt (- C F1 + A F2) / Det and dv3 = dt F3 / D, where Det = A^2 - B C,
    D = 1 + dt (ts11 + ts12 + dt ts11 ts12) / 2, B = w (- 2 - (ts11 + ts12) dt),
    A = D - w^2 / 2 and C = - B / 4 with FARGO, A = D - 2 w^2 and C = - B
    without, F is the symmetrised drive with the Coriolis terms of the
    predictor, and ts11 and ts12 are the stopping frequencies returned by the
    drag evaluations at the current and at the predictor position. *)
Theorem fulimp_3D_velocity_update pG (cell1 : Vector) (curG : Grain) :
  SHEARING_BOX cfg = true ->
  (Nx3 pG > 1)%Z ->
  wp (Get_Drag co pG (property curG) (x1 curG) (x2 curG) (x3 curG)
        (v1 curG) (v2 curG) (v3 curG) cell1)
    (fun r1 _ =>
  wp (Get_Drag co pG (property curG) (fulimp_step1 cfg pG curG).1.1
        (fulimp_step1 cfg pG curG).1.2 (fulimp_step1 cfg pG curG).2
        (v1 curG) (v2 curG) (v3 curG) cell1)
    (fun r2 _ =>
  wp (fulimp_dv cfg gl co pG cell1 curG)
    (fun dv _ => spec_fulimp_3D_update cfg gl pG curG r1 r2 dv))).
Proof.
  intros ES EN.
  assert (EN' : (Nx3 pG >? 1)%Z = true) by (apply Z.gtb_lt; lia).
  unfold fulimp_dv, spec_fulimp_3D_update.
  destruct (fulimp_step1 cfg pG curG) as [[x1n x2n] x3n]. cbn [fst snd].
  pose proof (Get_Drag_total pG (property curG) (x1 curG) (x2 curG) (x3 curG)
                (v1 curG) (v2 curG) (v3 curG) cell1) as H1.
  apply wp_returns in H1. destruct H1 as ([fd1 ts11] & o1 & E1 & _).
  pose proof (Get_Drag_total pG (property curG) x1n x2n x3n
                (v1 curG) (v2 curG) (v3 curG) cell1) as H2.
  apply wp_returns in H2. destruct H2 as ([fd2 ts12] & o2 & E2 & _).
  rewrite E1, E2. cbn [wp bind ret fst snd].
  unfold fulimp_step4, fulimp_ft, fulimp_A, fulimp_C, fulimp_B, fulimp_D, SQR.
  rewrite ES, EN'.
  unfold spec_drive, spec_coriolis_3D, spec_D, spec_B, spec_A, spec_C, Vadd.
  destruct (FARGO cfg); simpl; unfold Qdiv; repeat split; same_inverses; ring.
Qed.

(** C6. Without a shearing sheet, hence with zero non-drag force, for every
    grain whose interpolated and shift-corrected gas velocity at the midpoint
    is u and whose stopping frequency is 1/t_s, one semi-implicit step yields
    v_new - u = ((2 - a) / (2 + a)) (v - u) componentwise with a = dt / t_s,
    and the drag update is unconditionally stable: |v_new - u| <= |v - u| for
    every dt > 0 and every t_s > 0.  Here v is the velocity of a grain that
    was live when [integrate_particle_semimp] was called, and v_new the
    velocity that the integrator has stored for it in the particle array
    when it returns. *)
Theorem semimp_drag_is_unconditionally_stable pG :
  SHEARING_BOX cfg = false ->
  well_sized pG ->
  0 < dt pG ->
  wp (integrate_particle_semimp cfg gl co pG)
    (fun pG' _ => grains_related (semimp_relaxed cfg co pG) pG pG').
Proof.
  intros ES Hws Hdt.
  eapply wp_mono; [|apply integrate_particle_semimp_integrated; exact Hws].
  intros pG' o HI. eapply integrated_related_by_update; [|exact HI].
  intros pGi a dv o' Hm HK [[ua ub] uc] tstop Hd Hts.
  destruct (Hd pGi Hm) as (weight & is' & js & ks & gv & Ew & Ev & Es & Et).
  rewrite <- (same_mesh_half_step1 pG pGi a Hm) in Ew, Es.
  cbn [fst snd] in Es, Et.
  assert (Edt : dt pGi = dt pG) by apply Hm.
  pose proof (semimp_dv_relaxation pGi (cell1_of pG) a weight is' js ks gv
                ua ub uc tstop ES Ew Ev Es Et Hts) as H.
  rewrite Edt in H. specialize (H Hdt). rewrite HK in H. cbn [wp] in H.
  rewrite (same_mesh_stepped_grain pG pGi a dv Hm) in H.
  exact H.
Qed.


(** C9. For any grain position and velocity at which the gas interpolation
    reports the out-of-domain sentinel, [Get_Drag] emits a non-fatal warning,
    returns the drag force (0, 0, 0) and sets the returned stopping frequency
    to 0, so that the total force on the grain is the non-drag force alone;
    the loops continue and no integrator terminates the process. *)
Theorem Get_Drag_outside_is_free_motion pG (type : Z) (x1 x2 x3 v1 v2 v3 : Real)
    (cell1 : Vector) (weight : Weight) (is' js ks status : Z) (gv : GasValues) :
  getweight co pG x1 x2 x3 cell1 = (weight, is', js, ks) ->
  getvalues co pG weight is' js ks = (status, gv) ->
  status <> 0%Z ->
  (exists fd ts1,
     Get_Drag co pG type x1 x2 x3 v1 v2 v3 cell1
     = Returns (fd, ts1) [Perr 1 "Particle move out of grid %d!\n" [my_id pG]] /\
     Veq fd Vzero /\ ts1 == 0 /\
     forall fr : Vector, Veq (Vadd fd fr) fr) /\
  forall pG0, every_integrator cfg gl co pG0 (fun _ _ => True).
Proof.
  intros Ew Ev Hs. split; [|apply every_integrator_total].
  unfold Get_Drag. rewrite Ew, Ev.
  destruct (status =? 0)%Z eqn:E; [apply Z.eqb_eq in E; contradiction|].
  eexists _, _. split; [reflexivity|].
  unfold Veq, Vadd, Vzero. simpl.
  split; [repeat split; ring|]. split; [reflexivity|].
  intros fr. repeat split; ring.
Qed.

(** * Further properties *)

(** ** Steps 5 to 7 *)

(** X5. For every grain and every active axis, the three integrators
    advance the position by the trapezoidal rule
    x_new = x + dt (v + v_new) / 2. *)
Theorem integrators_advance_by_trapezoidal_rule pG :
  well_sized pG ->
  every_integrator cfg gl co pG
    (fun pG' _ => grains_related (trapezoidal_position pG) pG pG').
Proof.
  intros Hws. apply every_integrator_related; [exact Hws|].
  intros a [[dv1 dv2] dv3]. unfold trapezoidal_position, stepped_grain. simpl.
  repeat split; intros H; apply Z.gt_lt, Z.gtb_lt in H; rewrite H; ring.
Qed.

(** X6. With FARGO, the three integrators set the shift of every grain to
    -3/4 Omega (x1 + x1_new) dt. *)
Theorem integrators_record_fargo_shift pG :
  FARGO cfg = true ->
  well_sized pG ->
  every_integrator cfg gl co pG
    (fun pG' _ => grains_related (fargo_shift gl pG) pG pG').
Proof.
  intros EF Hws. apply every_integrator_related; [exact Hws|].
  intros a [[dv1 dv2] dv3]. unfold fargo_shift, stepped_grain. rewrite EF. simpl.
  ring.
Qed.

(** X7. Without FARGO, the three integrators set [pos] to 10 for every grain
    whose updated x1, x2 or x3 is outside the half-open interval of its
    axis, and keep [pos] for the other grains. *)
Theorem integrators_tag_on_all_axes_without_fargo pG :
  FARGO cfg = false ->
  well_sized pG ->
  every_integrator cfg gl co pG
    (fun pG' _ => grains_related (tagging_all_axes gl) pG pG').
Proof.
  intros EF Hws. apply every_integrator_related; [exact Hws|].
  intros a dv. unfold tagging_all_axes. rewrite stepped_grain_pos.
  pose proof (crossing_no_fargo (stepped_grain cfg gl pG a dv) EF) as Hc.
  destruct (crossing cfg gl (stepped_grain cfg gl pG a dv)).
  - split; [reflexivity|]. intros H1 H2 H3.
    destruct (proj1 Hc eq_refl) as [H|[H|H]]; contradiction.
  - split; [|reflexivity]. intros H. apply Hc in H. discriminate H.
Qed.

(** ** The grid after an integrator *)

(** X8. The output of each integrator consists of out-of-grid warnings of
    [Get_Drag] followed by one status line, which gives the processor and
    the number of particles left. *)
Theorem integrators_print_warnings_then_status pG :
  every_integrator cfg gl co pG
    (fun pG' out =>
       exists ws,
         out = ws ++ [status_line (my_id pG) (nparticle pG')] /\
         Forall (fun msg => msg = out_of_grid_warning (my_id pG)) ws).
Proof.
  assert (Hid : forall pG0 : Grid,
            same_frame pG pG0 ->
            my_id (Delete_Ghost pG0) = my_id pG).
  { intros pG0 Hf. unfold Delete_Ghost.
    pose proof (Delete_Ghost_loop_frame (Z.to_nat (nparticle pG0)) 0 pG0 ltac:(lia))
      as Hp.
    destruct Hp as (_ & _ & _ & _ & _ & _ & _ & _ & E & _). rewrite E. apply Hf. }
  destruct (cleared_grid_facts pG) as (Hf0 & _). cbv zeta in Hf0.
  specialize (Hid _ Hf0).
  set (pG0 := if FEEDBACK cfg then set_feedback pG (feedback_clear co pG) else pG) in *.
  assert (Hloop : forall K, warning_steps14 K ->
            wp (let* pG1 :=
                  particle_loop (loop_body cfg gl co K (cell1_of pG0))
                    (Z.to_nat (nparticle (Delete_Ghost pG0))) 0 (Delete_Ghost pG0) in
                let* _ := ath_pout 0 "In processor %d, there are %ld particles.\n"
                            [my_id pG1; nparticle pG1] in
                ret pG1)
               (fun pG' out =>
                  exists ws,
                    out = ws ++ [status_line (my_id pG) (nparticle pG')] /\
                    Forall (fun msg => msg = out_of_grid_warning (my_id pG)) ws)).
  { intros K HK. apply wp_bind.
    eapply wp_mono; [|apply (particle_loop_warns K _ HK)].
    intros pG' o [Hf Ho]. simpl. exists o.
    assert (E : my_id pG' = my_id pG) by (rewrite <- Hid; apply Hf).
    rewrite E. rewrite Hid in Ho. split; [reflexivity|exact Ho]. }
  repeat split.
  - apply (Hloop _ exp_dv_warns).
  - apply (Hloop _ semimp_dv_warns).
  - apply (Hloop _ fulimp_dv_warns).
Qed.

(** X3. When any of the three integrators returns, [nparticle] is the number
    of entry grains with [pos <> 0] and no grain of the array has [pos = 0]:
    the ghosts are gone, and the grains tagged 10 stay in the array. *)
Theorem integrators_keep_exactly_the_live_grains pG :
  well_sized pG ->
  every_integrator cfg gl co pG
    (fun pG' _ =>
       nparticle pG' = Z.of_nat (length (filter live (grains pG))) /\
       length (grains pG') = length (filter live (grains pG)) /\
       Forall live (grains pG')).
Proof.
  intros Hws. eapply every_integrator_mono; [|apply every_integrator_integrated, Hws].
  intros pG' o (K & _ & survivors & dvs & Hperm & Hn & HF2 & Hg & _).
  assert (Hlen : length survivors = length (filter live (grains pG)))
    by (rewrite Hperm; reflexivity).
  split; [rewrite Hn, Hlen; reflexivity|].
  split.
  { rewrite Hg, length_zip_with_l_eq; [exact Hlen|]. eapply Forall2_length, HF2. }
  assert (Hlive : Forall live survivors).
  { rewrite Hperm. apply Forall_forall. intros x Hx.
    apply list_elem_of_filter in Hx. apply Hx. }
  rewrite Hg. clear Hg Hperm Hn Hlen.
  induction HF2 as [|a dv l k _ _ IH]; simpl; [constructor|].
  apply Forall_cons in Hlive. destruct Hlive as [Ha Hl].
  constructor; [|apply IH; exact Hl].
  unfold live in *. rewrite stepped_grain_pos.
  destruct (crossing cfg gl _); [discriminate|exact Ha].
Qed.

(** X4. The three integrators change the species table only through the
    purge: the table keeps its size and its masses, and the counter of every
    species goes down by the number of ghosts of the species among the entry
    grains. *)
Theorem integrators_count_out_the_ghosts pG :
  well_sized pG ->
  every_integrator cfg gl co pG
    (fun pG' _ =>
       length (grproperty pG') = length (grproperty pG) /\
       forall s : nat, (s < length (grproperty pG))%nat ->
         m (grproperty pG' !!! s) = m (grproperty pG !!! s) /\
         num (grproperty pG' !!! s)
         = (num (grproperty pG !!! s)
            - Z.of_nat (length (filter (ghost_of (Z.of_nat s)) (grains pG))))%Z).
Proof.
  intros Hws.
  eapply every_integrator_mono; [|apply every_integrator_purged_frame, Hws].
  destruct (cleared_grid_facts pG) as (Hf0 & _ & Hg0 & _). cbv zeta in Hf0, Hg0.
  set (pG0 := if FEEDBACK cfg then set_feedback pG (feedback_clear co pG) else pG) in *.
  assert (Et0 : grproperty pG0 = grproperty pG) by apply Hf0.
  intros pG' o (pGd & Hp & Hf).
  assert (Et : grproperty pG' = grproperty pGd) by apply Hf.
  destruct Hp as (_ & _ & _ & _ & _ & Hl & Hnum).
  fold (grains pG0) in Hnum. rewrite Hg0, Et0 in Hnum. rewrite Et0 in Hl.
  rewrite Et. split; [exact Hl|exact Hnum].
Qed.

(** X9. The three integrators leave the mesh, the time step, the processor
    number and the gas of the grid alone, and without feedback also the
    feedback array. *)
Theorem integrators_leave_mesh_and_gas pG :
  well_sized pG ->
  every_integrator cfg gl co pG
    (fun pG' _ =>
       same_mesh pG pG' /\ (FEEDBACK cfg = false -> feedback pG' = feedback pG)).
Proof.
  intros Hws. eapply every_integrator_mono; [|apply every_integrator_integrated, Hws].
  intros pG' o (K & Hm & survivors & dvs & _ & _ & _ & _ & Hfb & _).
  split; assumption.
Qed.

(** ** The ghost purge *)

(** X1. [Delete_Ghost] leaves a grid without ghosts as it is, and purging
    twice is purging once. *)
Theorem Delete_Ghost_is_idempotent pG :
  well_sized pG ->
  (Forall live (grains pG) -> Delete_Ghost pG = pG) /\
  Delete_Ghost (Delete_Ghost pG) = Delete_Ghost pG.
Proof.
  intros Hws.
  assert (Hid : forall pG0 : Grid, well_sized pG0 -> Forall live (grains pG0) ->
                                   Delete_Ghost pG0 = pG0).
  { intros pG0 [Ha Hb] Hl. unfold Delete_Ghost.
    apply Delete_Ghost_loop_no_ghost; [lia|exact Hb|exact Hl]. }
  split; [apply Hid; exact Hws|].
  pose proof (Delete_Ghost_purged pG Hws) as Hp.
  apply Hid; [eapply purged_well_sized; eassumption|].
  eapply purged_all_live; eassumption.
Qed.

(** X2. [Delete_Ghost] leaves no ghost among the grains, never increases
    [nparticle] nor makes it negative, keeps the size of the array and of
    the species table and the masses of the species, and touches neither
    the mesh nor the gas nor the feedback array. *)
Theorem Delete_Ghost_only_shrinks pG :
  well_sized pG ->
  Forall live (grains (Delete_Ghost pG)) /\
  (0 <= nparticle (Delete_Ghost pG) <= nparticle pG)%Z /\
  length (particle (Delete_Ghost pG)) = length (particle pG) /\
  length (grproperty (Delete_Ghost pG)) = length (grproperty pG) /\
  (forall s : Z, m (grproperty_at (Delete_Ghost pG) s) = m (grproperty_at pG s)) /\
  purge_frame pG (Delete_Ghost pG).
Proof.
  intros Hws. pose proof (Delete_Ghost_purged pG Hws) as Hp.
  split; [eapply purged_all_live; eassumption|].
  split; [destruct Hp as (_ & Hn & _); lia|].
  split; [apply Hp|]. split; [apply Hp|].
  split; [intros s; apply purged_mass; exact Hp|apply Hp].
Qed.

(** ** Drag and force *)

(** X10. Inside the grid [Get_Drag] prints nothing and returns the stopping
    frequency 1/t_s and the drag force -(v - u)/t_s, where u is the
    interpolated and shifted gas velocity and t_s the stopping time of
    [get_ts]; for t_s > 0 the drag never pushes the grain away from the gas:
    its scalar product with v - u is not positive. *)
Theorem Get_Drag_inside_is_linear_drag pG (type : Z) (x1 x2 x3 v1 v2 v3 : Real)
    (cell1 : Vector) (weight : Weight) (is' js ks : Z) (gv : GasValues)
    (ua ub uc tstop : Real) :
  getweight co pG x1 x2 x3 cell1 = (weight, is', js, ks) ->
  getvalues co pG weight is' js ks = (0%Z, gv) ->
  gasvshift co x1 x2 x3 (u1 gv, u2 gv, u3 gv) = (ua, ub, uc) ->
  get_ts co pG type (rho gv) (cs gv)
    (sqrt co (SQR (v1 - ua) + SQR (v2 - ub) + SQR (v3 - uc))) = tstop ->
  0 < tstop ->
  exists fd ts1,
    Get_Drag co pG type x1 x2 x3 v1 v2 v3 cell1 = Returns (fd, ts1) [] /\
    ts1 == 1 / tstop /\
    Vector.x1 fd == - (v1 - ua) / tstop /\
    Vector.x2 fd == - (v2 - ub) / tstop /\
    Vector.x3 fd == - (v3 - uc) / tstop /\
    Vector.x1 fd * (v1 - ua) + Vector.x2 fd * (v2 - ub) + Vector.x3 fd * (v3 - uc)
    <= 0.
Proof.
  intros Ew Ev Es Et Hts. unfold Get_Drag. rewrite Ew, Ev. cbn [Z.eqb].
  rewrite Es, Et. eexists _, _. split; [reflexivity|]. simpl.
  assert (Hne : ~ tstop == 0) by lra.
  split; [field; exact Hne|]. split; [field; exact Hne|].
  split; [field; exact Hne|]. split; [field; exact Hne|].
  assert (Hi : 0 < 1.0 / tstop) by (apply Qlt_shift_div_l; lra).
  set (k := 1.0 / tstop) in *. clearbody k.
  assert (Hsq : forall y : Q, 0 <= k * (y * y)).
  { intros y. apply Qmult_le_0_compat; [lra|]. nra. }
  pose proof (Hsq (v1 - ua)). pose proof (Hsq (v2 - ub)). pose proof (Hsq (v3 - uc)).
  assert (E : - k * (v1 - ua) * (v1 - ua) + - k * (v2 - ub) * (v2 - ub)
              + - k * (v3 - uc) * (v3 - uc)
              == - (k * ((v1 - ua) * (v1 - ua)) + k * ((v2 - ub) * (v2 - ub))
                    + k * ((v3 - uc) * (v3 - uc)))) by ring.
  rewrite E. lra.
Qed.

(** X11. In the shearing sheet the Coriolis part of [Get_Force] does no
    work.  Without FARGO the power F . v of the force is that of the tidal
    term 3 Omega^2 x1 v1 and of the vertical gravity alone; with FARGO in 3D
    the force leaves v1^2 + 4 v2^2 alone: F1 v1 + 4 F2 v2 = 0. *)
Theorem Get_Force_coriolis_does_no_work pG (x1 x2 x3 v1 v2 v3 : Real) :
  SHEARING_BOX cfg = true ->
  let F := Get_Force cfg gl pG x1 x2 x3 v1 v2 v3 in
  let z := if (Nx3 pG >? 1)%Z then x3 else x2 in
  let vz := if (Nx3 pG >? 1)%Z then v3 else v2 in
  (FARGO cfg = false \/ (Nx3 pG <= 1)%Z ->
   Vector.x1 F * v1 + Vector.x2 F * v2 + Vector.x3 F * v3
   == 3 * (Omega gl * Omega gl) * x1 * v1
      - (if VERTICAL_GRAVITY cfg then Omega gl * Omega gl * z * vz else 0)) /\
  (FARGO cfg = true -> (Nx3 pG > 1)%Z ->
   Vector.x1 F * v1 + 4 * (Vector.x2 F * v2) == 0).
Proof.
  intros ES F z vz. unfold F, z, vz, Get_Force, SQR. rewrite ES.
  destruct (Nx3 pG >? 1)%Z eqn:EN; split.
  - intros [EF|Hle]; [|apply Z.gtb_lt in EN; lia].
    rewrite EF. destruct (VERTICAL_GRAVITY cfg); simpl; ring.
  - intros EF _. rewrite EF. destruct (VERTICAL_GRAVITY cfg); simpl; ring.
  - intros _. destruct (VERTICAL_GRAVITY cfg); simpl; ring.
  - intros _ H. assert ((Nx3 pG >? 1)%Z = true) by (apply Z.gtb_lt; lia). congruence.
Qed.

(** ** The schemes *)

(** X12. The semi-implicit velocity update is the implicit midpoint rule:
    with (fd, ts1) what the drag evaluation at the predicted position
    returns, dv = dt (fd - ts1 dv / 2 + Get_Force (x', v + dv / 2)), that is
    the drag and the force at the velocity v + dv / 2.  This holds for
    dt >= 0 and ts1 >= 0 without shearing sheet, in the 3D shearing sheet
    with or without FARGO, and in the 2D shearing sheet without FARGO. *)
Theorem semimp_solves_the_implicit_midpoint_rule pG (cell1 : Vector) (curG : Grain) :
  0 <= dt pG ->
  (SHEARING_BOX cfg = true -> FARGO cfg = true -> (Nx3 pG > 1)%Z) ->
  wp (Get_Drag co pG (property curG) (half_step1 cfg pG curG).1.1
        (half_step1 cfg pG curG).1.2 (half_step1 cfg pG curG).2
        (v1 curG) (v2 curG) (v3 curG) cell1)
    (fun r _ =>
  wp (semimp_dv cfg gl co pG cell1 curG)
    (fun dv _ =>
       0 <= r.2 ->
       spec_implicit_midpoint cfg gl pG curG (half_step1 cfg pG curG) r.1 r.2 dv)).
Proof.
  intros Hdt H2D. unfold semimp_dv, spec_implicit_midpoint.
  destruct (half_step1 cfg pG curG) as [[x1n x2n] x3n]. cbn [fst snd].
  pose proof (Get_Drag_total pG (property curG) x1n x2n x3n
                (v1 curG) (v2 curG) (v3 curG) cell1) as H1.
  apply wp_returns in H1. destruct H1 as ([fd ts1] & o1 & E1 & _).
  rewrite E1. cbn [wp bind ret fst snd]. intros Hts.
  assert (Hp : 0 <= dt pG * ts1) by (apply Qmult_le_0_compat; assumption).
  assert (Hb : ~ dt pG * ts1 + 2 == 0) by lra.
  assert (Hsq : forall b w c : Q, 2 <= b -> 0 <= c -> ~ b * b + c * (w * w) == 0).
  { intros b w c Hb2 Hc. assert (0 <= w * w) by nra.
    assert (0 <= c * (w * w)) by (apply Qmult_le_0_compat; assumption).
    assert (4 <= b * b) by nra. lra. }
  pose proof (Hsq (dt pG * ts1 + 2) (Omega gl * dt pG) 1 ltac:(lra) ltac:(lra)) as Hq1.
  pose proof (Hsq (dt pG * ts1 + 2) (Omega gl * dt pG) 4 ltac:(lra) ltac:(lra)) as Hq4.
  unfold semimp_step4, Get_Force, SQR.
  destruct (SHEARING_BOX cfg) eqn:ES.
  - destruct (Nx3 pG >? 1)%Z eqn:EN.
    + destruct (FARGO cfg), (VERTICAL_GRAVITY cfg); cbn; repeat split; field;
        repeat split; nonzero.
    + destruct (FARGO cfg) eqn:EF.
      * specialize (H2D eq_refl eq_refl). apply Z.gt_lt, Z.gtb_lt in H2D. congruence.
      * destruct (VERTICAL_GRAVITY cfg); cbn; repeat split; field;
          repeat split; nonzero.
  - cbn. repeat split; field; nonzero.
Qed.

(** X13. Without shearing sheet, on a linear drag towards a uniform gas of
    velocity u with stopping time t_s > 0, [integrate_particle_exp] stores
    for every grain that was live a velocity v_new with
    v_new - u = (1 - a + a^2 / 2) (v - u), a = dt / t_s, componentwise: the
    distance to the gas velocity does not grow when dt <= 2 t_s and grows
    when dt > 2 t_s. *)
Theorem exp_drag_is_stable_up_to_two_stopping_times pG :
  SHEARING_BOX cfg = false ->
  well_sized pG ->
  0 <= dt pG ->
  wp (integrate_particle_exp cfg gl co pG)
    (fun pG' _ => grains_related (exp_relaxed co pG) pG pG').
Proof.
  intros ES Hws Hdt.
  eapply wp_mono; [|apply integrate_particle_exp_integrated; exact Hws].
  intros pG' o HI. eapply integrated_related_by_update; [|exact HI].
  intros pGi a dv o' Hm HK [[ua ub] uc] tstop Hu Hts.
  assert (Edt : dt pGi = dt pG) by apply Hm.
  pose proof (exp_dv_relaxation pGi (cell1_of pG) a ua ub uc tstop ES
                (Hu pGi Hm) Hts) as H.
  rewrite Edt in H. specialize (H Hdt). rewrite HK in H. cbn [wp] in H.
  rewrite (same_mesh_stepped_grain pG pGi a dv Hm) in H.
  exact H.
Qed.

(** X14. Without shearing sheet, on a linear drag towards a uniform gas of
    velocity u with stopping time t_s > 0, [integrate_particle_fulimp]
    stores for every grain that was live a velocity v_new with
    v_new - u = (v - u) / (1 + a + a^2 / 2), a = dt / t_s, componentwise:
    whatever dt >= 0, the distance to the gas velocity does not grow and the
    relative velocity does not change sign. *)
Theorem fulimp_drag_relaxes_without_overshoot pG :
  SHEARING_BOX cfg = false ->
  well_sized pG ->
  0 <= dt pG ->
  wp (integrate_particle_fulimp cfg gl co pG)
    (fun pG' _ => grains_related (fulimp_relaxed co pG) pG pG').
Proof.
  intros ES Hws Hdt.
  eapply wp_mono; [|apply integrate_particle_fulimp_integrated; exact Hws].
  intros pG' o HI. eapply integrated_related_by_update; [|exact HI].
  intros pGi a dv o' Hm HK [[ua ub] uc] tstop Hu Hts.
  assert (Edt : dt pGi = dt pG) by apply Hm.
  pose proof (fulimp_dv_relaxation pGi (cell1_of pG) a ua ub uc tstop ES
                (Hu pGi Hm) Hts) as H.
  rewrite Edt in H. specialize (H Hdt). rewrite HK in H. cbn [wp] in H.
  rewrite (same_mesh_stepped_grain pG pGi a dv Hm) in H.
  exact H.
Qed.

(** X15. In the shearing sheet, for a time step and stopping frequencies
    that are not negative, the velocity update of the fully implicit
    integrator solves the linear system it inverts: in the rotation plane
    A dv1 + B dv2 = dt F1 and C dv1 + A dv2 = dt F2, out of the plane
    D dv3 = dt F3, with F the total force of step 4; in 2D the plane is
    (1, 3) and the axis out of it is 2. *)
Theorem fulimp_solves_its_linear_system pG (fc fp : Vector) (ts11 ts12 : Real) :
  SHEARING_BOX cfg = true ->
  0 <= dt pG -> 0 <= ts11 -> 0 <= ts12 ->
  let F := fulimp_ft cfg gl pG fc fp ts11 in
  let A := fulimp_A cfg gl pG ts11 ts12 in
  let B := fulimp_B gl pG ts11 ts12 in
  let C := fulimp_C cfg gl pG ts11 ts12 in
  let D := fulimp_D pG ts11 ts12 in
  let dv := fulimp_step4 cfg gl pG fc fp ts11 ts12 in
  if (Nx3 pG >? 1)%Z then
    A * dv.1.1 + B * dv.1.2 == dt pG * Vector.x1 F /\
    C * dv.1.1 + A * dv.1.2 == dt pG * Vector.x2 F /\
    D * dv.2 == dt pG * Vector.x3 F
  else
    A * dv.1.1 + B * dv.2 == dt pG * Vector.x1 F /\
    C * dv.1.1 + A * dv.2 == dt pG * Vector.x3 F /\
    D * dv.1.2 == dt pG * Vector.x2 F.
Proof.
  intros ES Hdt H1 H2 F A B C D dv.
  pose proof (fulimp_Det_positive pG ts11 ts12 Hdt H1 H2) as HDet.
  pose proof (fulimp_D_ge_1 pG ts11 ts12 Hdt H1 H2) as HD.
  unfold dv, fulimp_step4. rewrite ES. fold F A B C D.
  unfold SQR in *. fold A B C in HDet. fold D in HD.
  clearbody F A B C D.
  assert (Hn1 : ~ A * A - B * C == 0) by lra.
  assert (Hn2 : ~ D == 0) by lra.
  destruct (Nx3 pG >? 1)%Z; cbn [fst snd]; repeat split; field; assumption.
Qed.

(** X16. In the 3D shearing sheet with FARGO, [integrate_particle_semimp]
    conserves v1^2 + 4 v2^2 exactly for every grain that was live and whose
    predicted position is outside the grid, hence without drag: the velocity
    stored for the grain has the same v1^2 + 4 v2^2 as the velocity that the
    grain had. *)
Theorem semimp_fargo_free_step_conserves_epicyclic_energy pG :
  SHEARING_BOX cfg = true -> FARGO cfg = true -> (Nx3 pG > 1)%Z ->
  well_sized pG ->
  wp (integrate_particle_semimp cfg gl co pG)
    (fun pG' _ => grains_related (epicyclic_energy_kept cfg co pG) pG pG').
Proof.
  intros ES EF EN Hws.
  eapply wp_mono; [|apply integrate_particle_semimp_integrated; exact Hws].
  intros pG' o HI. eapply integrated_related_by_update; [|exact HI].
  intros pGi a dv o' Hm HK Hout.
  specialize (Hout pGi Hm). unfold status_at in Hout.
  rewrite <- (same_mesh_half_step1 pG pGi a Hm) in Hout.
  destruct (getweight co pGi (half_step1 cfg pGi a).1.1 (half_step1 cfg pGi a).1.2
              (half_step1 cfg pGi a).2 (cell1_of pG))
    as [[[weight is'] js] ks] eqn:Ew.
  destruct (getvalues co pGi weight is' js ks) as [status gv] eqn:Ev.
  cbn [fst] in Hout.
  assert (EN3 : (Nx3 pGi > 1)%Z).
  { destruct Hm as (_ & _ & E3 & _). rewrite E3. exact EN. }
  pose proof (semimp_dv_keeps_epicyclic_energy pGi (cell1_of pG) a weight is' js ks
                status gv ES EF EN3 Ew Ev Hout) as H.
  rewrite HK in H. cbn [wp] in H.
  rewrite (same_mesh_stepped_grain pG pGi a dv Hm) in H.
  exact H.
Qed.

(** ** The predictor feedback *)

(** X17. [feedback_predictor] changes nothing but the gas information and
    the feedback array: the grains, their number, the species table, the
    mesh and the time step are as before, and the gas information is the
    one that [get_gasinfo] computed. *)
Theorem feedback_predictor_leaves_the_grains (get_gasinfo : Grid -> GasT) pG :
  particle (feedback_predictor co get_gasinfo pG) = particle pG /\
  nparticle (feedback_predictor co get_gasinfo pG) = nparticle pG /\
  grproperty (feedback_predictor co get_gasinfo pG) = grproperty pG /\
  same_mesh (set_U pG (get_gasinfo pG)) (feedback_predictor co get_gasinfo pG).
Proof.
  unfold feedback_predictor.
  set (pG0 := set_feedback (set_U pG (get_gasinfo pG)) _).
  destruct (feedback_predictor_loop_frame (cell1_of pG0)
              (Z.to_nat (nparticle pG0)) 0 pG0) as [Hf Hl].
  split; [rewrite Hl; reflexivity|].
  split; [replace (nparticle pG) with (nparticle pG0) by reflexivity; apply Hf|].
  split; [replace (grproperty pG) with (grproperty pG0) by reflexivity; apply Hf|].
  apply same_frame_mesh in Hf. exact Hf.
Qed.

(** X18. The stiffness clamp of [feedback_predictor]: for dt > 0, the
    momentum that the loop deposits for a grain inside the grid is, in
    every component, at most half of m (u - v), however short the stopping
    time; it is exactly half of m (u - v) when the stopping time is not
    larger than dt, and m (u - v) dt / (2 t_s) otherwise. *)
Theorem feedback_predictor_clamps_the_stopping_time pG (cell1 : Vector) (p : Z)
    (weight : Weight) (is' js ks : Z) (gv : GasValues) (ua ub uc : Real) :
  let cur := particle_at pG p in
  let mgr := m (grproperty_at pG (property cur)) in
  let ts := get_ts co pG (property cur) (rho gv) (cs gv)
              (sqrt co ((ua - v1 cur) * (ua - v1 cur) + (ub - v2 cur) * (ub - v2 cur)
                        + (uc - v3 cur) * (uc - v3 cur))) in
  0 < dt pG ->
  getweight co pG (x1 cur) (x2 cur) (x3 cur) cell1 = (weight, is', js, ks) ->
  getvalues co pG weight is' js ks = (0%Z, gv) ->
  gasvshift co (x1 cur) (x2 cur) (x3 cur) (u1 gv, u2 gv, u3 gv) = (ua, ub, uc) ->
  exists fb,
    feedback (feedback_predictor_body co cell1 p pG)
    = distrFB co pG weight is' js ks fb /\
    at_most_half_of_the_momentum_gap mgr (ua, ub, uc) cur fb /\
    (ts <= dt pG ->
     Veq fb (Vector.mk ((1 # 2) * (mgr * (ua - v1 cur)))
               ((1 # 2) * (mgr * (ub - v2 cur))) ((1 # 2) * (mgr * (uc - v3 cur))))) /\
    (dt pG < ts ->
     Veq fb (Vector.mk (mgr * (ua - v1 cur) * dt pG / (2 * ts))
               (mgr * (ub - v2 cur) * dt pG / (2 * ts))
               (mgr * (uc - v3 cur) * dt pG / (2 * ts)))).
Proof.
  intros cur mgr ts Hdt Ew Ev Es.
  unfold feedback_predictor_body. fold cur. rewrite Ew, Ev. cbn [Z.eqb]. rewrite Es.
  fold ts. fold mgr. eexists. split; [reflexivity|].
  set (tstop := MAX ts (dt pG)).
  assert (Hmax : dt pG <= tstop /\ (ts <= dt pG -> tstop = dt pG) /\
                 (dt pG < ts -> tstop = ts)).
  { unfold tstop, MAX. destruct (Rltb (dt pG) ts) eqn:E.
    - apply Rltb_true in E. split; [lra|]. split; [intros; lra|reflexivity].
    - assert (Hle : ts <= dt pG).
      { destruct (Qlt_le_dec (dt pG) ts) as [H|H]; [|exact H].
        apply Rltb_true in H. congruence. }
      split; [lra|]. split; [reflexivity|intros; lra]. }
  destruct Hmax as (Hge & Hclamp & Hfree).
  assert (Hne : ~ tstop == 0) by lra.
  assert (Hh : 0 <= 0.5 * dt pG / tstop /\ 0.5 * dt pG / tstop <= 1 # 2).
  { split; [apply Qle_shift_div_l; lra|apply Qle_shift_div_r; lra]. }
  assert (Hb : forall y : Q,
             Qabs (mgr * y * (0.5 * dt pG / tstop)) <= (1 # 2) * Qabs (mgr * y)).
  { intros y. rewrite Qabs_Qmult.
    assert (E : Qabs (0.5 * dt pG / tstop) == 0.5 * dt pG / tstop)
      by (apply Qabs_pos; apply Hh).
    rewrite E. pose proof (Qabs_nonneg (mgr * y)) as Hy.
    rewrite (Qmult_comm (Qabs (mgr * y))).
    apply Qmult_le_compat_r; [apply Hh|exact Hy]. }
  split; [repeat split; apply Hb|].
  split.
  - intros Hle. rewrite (Hclamp Hle) in *.
    unfold Veq; simpl; repeat split; field; lra.
  - intros Hlt. rewrite (Hfree Hlt) in *.
    unfold Veq; simpl; repeat split; field; lra.
Qed.

(** X19. When every grain of the array is outside the grid, and in
    particular when there is no grain, [feedback_predictor] deposits
    nothing: it returns the grid with the gas information refreshed and the
    feedback array clean. *)
Theorem feedback_predictor_deposits_nothing_outside (get_gasinfo : Grid -> GasT) pG :
  (forall i : Z, (0 <= i < nparticle pG)%Z ->
     gas_status co (predictor_start co get_gasinfo pG)
       (cell1_of (predictor_start co get_gasinfo pG)) (particle_at pG i) <> 0%Z) ->
  feedback_predictor co get_gasinfo pG = predictor_start co get_gasinfo pG.
Proof.
  intros H. unfold feedback_predictor. fold (predictor_start co get_gasinfo pG).
  apply feedback_predictor_loop_outside. exact H.
Qed.

(** X20. If [distrFB] adds what it distributes to the momentum of the
    feedback array and [feedback_clear] leaves none, the momentum of the
    feedback array after [feedback_predictor] is the sum over the grains of
    the array of their deposits m (u - v) dt / (2 max (t_s, dt)), a grain
    outside the grid depositing nothing. *)
Theorem feedback_predictor_sums_the_deposits (get_gasinfo : Grid -> GasT) pG
    (total : FeedbackT -> Vector) :
  well_sized pG ->
  distrFB_adds co total ->
  Veq (total (feedback (predictor_start co get_gasinfo pG))) Vzero ->
  exists fbs : list Vector,
    Forall2 (fun g fb => exists pGi : Grid,
                           same_but_feedback (predictor_start co get_gasinfo pG) pGi /\
                           fb = predictor_deposit co pGi
                                  (cell1_of (predictor_start co get_gasinfo pG)) g)
      (grains pG) fbs /\
    Veq (total (feedback (feedback_predictor co get_gasinfo pG))) (Vsum fbs).
Proof.
  intros [H0 Hn] Hadd Hz. unfold feedback_predictor.
  fold (predictor_start co get_gasinfo pG).
  set (pG0 := predictor_start co get_gasinfo pG) in *.
  destruct (feedback_predictor_loop_total (cell1_of pG0) total Hadd
              (Z.to_nat (nparticle pG0)) 0%Z pG0) as (fbs & HF & Ht).
  - change (nparticle pG0) with (nparticle pG). lia.
  - exact Hn.
  - f_equal. lia.
  - exists fbs. split; [exact HF|].
    eapply Veq_trans; [exact Ht|]. apply Vadd_zero_l. exact Hz.
Qed.

End Properties.

(** * The results on sample grids *)

(** The purge of the five sample grains. *)
Lemma Delete_Ghost_removes_exactly_the_ghosts_witness :
  well_sized (ex_grid 8 1 1 1 ex_five) /\
  nparticle (Delete_Ghost (ex_grid 8 1 1 1 ex_five)) = 2%Z.
Proof.
  assert (H : well_sized (ex_grid 8 1 1 1 ex_five)) by (split; simpl; lia).
  split; [exact H|].
  exact (proj1 (Delete_Ghost_removes_exactly_the_ghosts (ex_grid 8 1 1 1 ex_five) H)).
Defined.

(** The purge of five grains with [pos] 0, 1, 0, 2, 0 leaves two grains and
    takes 3 off the counter of their species. *)
Example Delete_Ghost_five :
  nparticle (Delete_Ghost (ex_grid 8 1 1 1 ex_five)) = 2%Z /\
  map pos (grains (Delete_Ghost (ex_grid 8 1 1 1 ex_five))) = [2; 1]%Z /\
  map num (grproperty (Delete_Ghost (ex_grid 8 1 1 1 ex_five))) = [2]%Z.
Proof. vm_compute. repeat split. Qed.

(** The three integrators on a grid collapsed along x2 and x3. *)
Lemma collapsed_axis_position_is_kept_witness :
  well_sized (ex_grid 8 1 1 (1 # 2) [ex_grain_y]) /\
  every_integrator ex_cfg_plain ex_gl (ex_co 1) (ex_grid 8 1 1 (1 # 2) [ex_grain_y])
    (fun pG' _ =>
       grains_related
         (collapsed_position_kept (ex_grid 8 1 1 (1 # 2) [ex_grain_y]))
         (ex_grid 8 1 1 (1 # 2) [ex_grain_y]) pG').
Proof.
  assert (H : well_sized (ex_grid 8 1 1 (1 # 2) [ex_grain_y])) by (split; simpl; lia).
  split; [exact H|].
  exact (collapsed_axis_position_is_kept ex_cfg_plain ex_gl (ex_co 1) _ H).
Defined.

(** The explicit integrator on a grid collapsed along x2 and x3, with one
    grain of velocity 1 along x2 in a gas at rest: the drag brings the
    velocity along the collapsed axis down to 5/8. *)
Example integrate_particle_exp_collapsed :
  exists pG' out,
    integrate_particle_exp ex_cfg_plain ex_gl (ex_co 1)
      (ex_grid 8 1 1 (1 # 2) [ex_grain_y]) = Returns pG' out /\
    map (fun g => Qred (v2 g)) (grains pG') = [5 # 8].
Proof. eexists _, _. split; [vm_compute; reflexivity|vm_compute; reflexivity]. Qed.

(** C1 as stated fails: on that grid the velocity along the collapsed axis
    x2 is not kept by the integrators. *)
Lemma collapsed_axis_velocity_is_not_kept :
  ~ every_integrator ex_cfg_plain ex_gl (ex_co 1) (ex_grid 8 1 1 (1 # 2) [ex_grain_y])
      (fun pG' _ =>
         grains_related
           (fun a b =>
              collapsed_position_kept (ex_grid 8 1 1 (1 # 2) [ex_grain_y]) a b /\
              collapsed_velocity_kept (ex_grid 8 1 1 (1 # 2) [ex_grain_y]) a b)
           (ex_grid 8 1 1 (1 # 2) [ex_grain_y]) pG').
Proof.
  intros (Hexp & _ & _).
  apply wp_returns in Hexp. destruct Hexp as (pG' & out & E & survivors & Hperm & HF).
  vm_compute in E. injection E as <- _.
  change (filter live (grains (ex_grid 8 1 1 (1 # 2) [ex_grain_y])))
    with [ex_grain_y] in Hperm.
  apply Permutation_singleton_r in Hperm. subst survivors.
  apply Forall2_cons_inv_l in HF. destruct HF as (b & k & [_ (_ & Hv & _)] & _ & Eb).
  vm_compute in Eb. injection Eb as <- _.
  specialize (Hv eq_refl). vm_compute in Hv. discriminate Hv.
Qed.

(** The three integrators with FARGO on a 2D grid. *)
Lemma fargo_exempts_x2_from_tagging_witness :
  FARGO ex_cfg_fargo = true /\
  well_sized (ex_grid 8 8 1 1 [ex_grain_y_edge]) /\
  every_integrator ex_cfg_fargo ex_gl (ex_co 1) (ex_grid 8 8 1 1 [ex_grain_y_edge])
    (fun pG' _ =>
       grains_related (fargo_tagging_x2_exempt ex_gl)
         (ex_grid 8 8 1 1 [ex_grain_y_edge]) pG').
Proof.
  assert (H : well_sized (ex_grid 8 8 1 1 [ex_grain_y_edge])) by (split; simpl; lia).
  split; [reflexivity|]. split; [exact H|].
  exact (fargo_exempts_x2_from_tagging ex_cfg_fargo ex_gl (ex_co 1) _ eq_refl H).
Defined.

(** The explicit integrator with FARGO on a 2D grid ([Nx3 = 1]), one grain
    close to the upper x2 boundary and moving towards it: the grain ends
    at x2 = 17/4, beyond the bound 4, and keeps [pos = 1]. *)
Example integrate_particle_exp_fargo_2D :
  exists pG' out,
    integrate_particle_exp ex_cfg_fargo ex_gl (ex_co 1)
      (ex_grid 8 8 1 1 [ex_grain_y_edge]) = Returns pG' out /\
    map (fun g => (Qred (x2 g), pos g)) (grains pG') = [(17 # 4, 1%Z)].
Proof. eexists _, _. split; vm_compute; reflexivity. Qed.

(** C2 as stated fails: with FARGO and [Nx3 = 1] the axis x2 is active and
    is not the azimuthal axis, and a grain leaving along it is not tagged. *)
Lemma fargo_2D_x2_crossing_is_not_tagged :
  ~ every_integrator ex_cfg_fargo ex_gl (ex_co 1) (ex_grid 8 8 1 1 [ex_grain_y_edge])
      (fun pG' _ =>
         grains_related
           (fargo_tagging_by_azimuth ex_gl (ex_grid 8 8 1 1 [ex_grain_y_edge]))
           (ex_grid 8 8 1 1 [ex_grain_y_edge]) pG').
Proof.
  intros (Hexp & _ & _).
  apply wp_returns in Hexp. destruct Hexp as (pG' & out & E & survivors & Hperm & HF).
  vm_compute in E. injection E as <- _.
  change (filter live (grains (ex_grid 8 8 1 1 [ex_grain_y_edge])))
    with [ex_grain_y_edge] in Hperm.
  apply Permutation_singleton_r in Hperm. subst survivors.
  apply Forall2_cons_inv_l in HF. destruct HF as (b & k & Hb & _ & Eb).
  vm_compute in Eb. injection Eb as <- _.
  destruct Hb as (_ & _ & _ & H2 & _).
  assert (Hpos : (1 = 10)%Z).
  { apply H2; [reflexivity|reflexivity|]. left. vm_compute. discriminate. }
  discriminate Hpos.
Qed.

(** The frame of the grains, with FARGO on a 2D grid. *)
Lemma integrators_preserve_grain_frame_witness :
  well_sized (ex_grid 8 8 1 1 [ex_grain_y_edge]) /\
  every_integrator ex_cfg_fargo ex_gl (ex_co 1) (ex_grid 8 8 1 1 [ex_grain_y_edge])
    (fun pG' _ =>
       grains_related (grain_frame ex_cfg_fargo)
         (ex_grid 8 8 1 1 [ex_grain_y_edge]) pG').
Proof.
  assert (H : well_sized (ex_grid 8 8 1 1 [ex_grain_y_edge])) by (split; simpl; lia).
  split; [exact H|].
  exact (integrators_preserve_grain_frame ex_cfg_fargo ex_gl (ex_co 1) _ H).
Defined.

(** The determinant for stopping frequencies 1 in the 3D shearing sheet. *)
Lemma fulimp_never_aborts_and_Det_positive_witness :
  wp (integrate_particle_fulimp ex_cfg_shear ex_gl (ex_co 1)
        (ex_grid 8 8 8 1 [ex_grain_rest])) (fun _ _ => True) /\
  0 < SQR (fulimp_A ex_cfg_shear ex_gl (ex_grid 8 8 8 1 [ex_grain_rest]) 1 1)
      - fulimp_B ex_gl (ex_grid 8 8 8 1 [ex_grain_rest]) 1 1
        * fulimp_C ex_cfg_shear ex_gl (ex_grid 8 8 8 1 [ex_grain_rest]) 1 1.
Proof.
  apply (fulimp_never_aborts_and_Det_positive ex_cfg_shear ex_gl (ex_co 1)
           (ex_grid 8 8 8 1 [ex_grain_rest]) 1 1); vm_compute; discriminate.
Defined.

(** With FARGO, [Omega dt = 1] and the stopping time -1 at both drag
    evaluations, A = B = C = 0 and the determinant is 0; the fully implicit
    integrator returns all the same. *)
Example integrate_particle_fulimp_singular :
  exists pG' out,
    integrate_particle_fulimp ex_cfg_fargo ex_gl (ex_co (-1))
      (ex_grid 8 8 8 1 [ex_grain_rest]) = Returns pG' out /\
    nparticle pG' = 1%Z.
Proof. eexists _, _. split; vm_compute; reflexivity. Qed.

(** C3 as stated fails: on that grid the only grain is singular and the
    integrator does not abort. *)
Lemma fulimp_does_not_abort_when_singular :
  ~ aborts_when_singular ex_cfg_fargo ex_gl (ex_co (-1))
      (ex_grid 8 8 8 1 [ex_grain_rest]).
Proof.
  intros H. destruct H as [out E].
  - exists ex_grain_rest. split; [|split].
    + change (grains (ex_grid 8 8 8 1 [ex_grain_rest])) with [ex_grain_rest].
      apply list_elem_of_singleton. reflexivity.
    + unfold live. simpl. discriminate.
    + unfold singular_grain. eexists _, _, _, _, _, _.
      split; [vm_compute; reflexivity|]. split; [vm_compute; reflexivity|].
      vm_compute. discriminate.
  - vm_compute in E. discriminate E.
Qed.

(** The total force in 2D with FARGO for the predictor force (1, 0, 0). *)
Lemma fulimp_2D_coriolis_ignores_fargo_witness :
  Veq (fulimp_ft ex_cfg_fargo ex_gl (ex_grid 8 8 1 1 []) Vzero (Vector.mk 1 0 0) 0)
      (Vadd (spec_drive (dt (ex_grid 8 8 1 1 [])) 0 Vzero (Vector.mk 1 0 0))
            (spec_coriolis_2D_swapped false
               (Omega ex_gl * dt (ex_grid 8 8 1 1 [])) (Vector.mk 1 0 0))).
Proof.
  apply (fulimp_2D_coriolis_ignores_fargo ex_cfg_fargo ex_gl (ex_grid 8 8 1 1 []));
    reflexivity.
Defined.

(** C4 as stated fails: with FARGO and [Nx3 = 1], for the predictor force
    (1, 0, 0) and [Omega dt = 1], the third component of the total force gets
    1, not 1/4. *)
Lemma fulimp_2D_coriolis_has_no_fargo_quarter :
  ~ Veq (fulimp_ft ex_cfg_fargo ex_gl (ex_grid 8 8 1 1 []) Vzero (Vector.mk 1 0 0) 0)
        (Vadd (spec_drive (dt (ex_grid 8 8 1 1 [])) 0 Vzero (Vector.mk 1 0 0))
              (spec_coriolis_2D_swapped (FARGO ex_cfg_fargo)
                 (Omega ex_gl * dt (ex_grid 8 8 1 1 [])) (Vector.mk 1 0 0))).
Proof. intros (_ & _ & H). vm_compute in H. discriminate H. Qed.

(** The fully implicit velocity update in the 3D shearing sheet. *)
Lemma fulimp_3D_velocity_update_witness :
  wp (Get_Drag (ex_co 1) (ex_grid 8 8 8 1 [ex_grain_y]) 0 0 0 0 0 1 0 Vzero)
    (fun r1 _ =>
  wp (Get_Drag (ex_co 1) (ex_grid 8 8 8 1 [ex_grain_y]) 0
        (fulimp_step1 ex_cfg_shear (ex_grid 8 8 8 1 [ex_grain_y]) ex_grain_y).1.1
        (fulimp_step1 ex_cfg_shear (ex_grid 8 8 8 1 [ex_grain_y]) ex_grain_y).1.2
        (fulimp_step1 ex_cfg_shear (ex_grid 8 8 8 1 [ex_grain_y]) ex_grain_y).2
        0 1 0 Vzero)
    (fun r2 _ =>
  wp (fulimp_dv ex_cfg_shear ex_gl (ex_co 1) (ex_grid 8 8 8 1 [ex_grain_y])
        Vzero ex_grain_y)
    (fun dv _ =>
       spec_fulimp_3D_update ex_cfg_shear ex_gl (ex_grid 8 8 8 1 [ex_grain_y])
         ex_grain_y r1 r2 dv))).
Proof.
  apply (fulimp_3D_velocity_update ex_cfg_shear ex_gl (ex_co 1)
           (ex_grid 8 8 8 1 [ex_grain_y]) Vzero ex_grain_y);
    [reflexivity|vm_compute; reflexivity].
Defined.

(** One fully implicit step in the 3D shearing sheet, [Omega = 1], [dt = 1],
    stopping time 1, gas at rest, grain at the origin with velocity
    (0, 1, 0): the velocity update is (16/65, -63/65, 0). *)
Example fulimp_dv_3D_shear :
  exists dv out,
    fulimp_dv ex_cfg_shear ex_gl (ex_co 1) (ex_grid 8 8 8 1 [ex_grain_y])
      Vzero ex_grain_y = Returns dv out /\
    (Qred dv.1.1, Qred dv.1.2, Qred dv.2) = (16 # 65, - 63 # 65, 0).
Proof. eexists _, _. split; vm_compute; reflexivity. Qed.

(** On the sample gas every point is inside the grid, the gas is at rest
    and the stopping time is the constant of the sample. *)
Lemma ex_co_drag_at (ts : Real) (pG : Grid unit Vector) (cell1 : Vector) (type : Z)
    (x v : Real * Real * Real) :
  drag_at (ex_co ts) pG cell1 type x v (0, 0, 0) ts.
Proof.
  exists [], 0%Z, 0%Z, 0%Z, (mkGasValues 1 0 0 0 1).
  split; [reflexivity|]. split; [reflexivity|]. split; reflexivity.
Defined.

(** The semi-implicit integrator with a stiff drag, [dt / t_s = 1000]: the
    velocity stored for the grain is the relaxed one. *)
Lemma semimp_drag_is_unconditionally_stable_witness :
  wp (integrate_particle_semimp ex_cfg_plain ex_gl (ex_co (1 # 10000))
        (ex_grid 8 1 1 (1 # 10) [ex_grain_y]))
    (fun pG' _ =>
       grains_related
         (fun a b =>
            spec_relaxation (1 # 10) (1 # 10000) 0 (v1 a) (v1 b) /\
            spec_relaxation (1 # 10) (1 # 10000) 0 (v2 a) (v2 b) /\
            spec_relaxation (1 # 10) (1 # 10000) 0 (v3 a) (v3 b))
         (ex_grid 8 1 1 (1 # 10) [ex_grain_y]) pG').
Proof.
  eapply wp_mono;
    [|apply (semimp_drag_is_unconditionally_stable ex_cfg_plain ex_gl
               (ex_co (1 # 10000)) (ex_grid 8 1 1 (1 # 10) [ex_grain_y]));
      [reflexivity|split; simpl; lia|reflexivity]].
  intros pG' o (survivors & Hperm & HF). exists survivors.
  split; [exact Hperm|]. eapply Forall2_impl; [exact HF|].
  intros a b H. apply (H (0, 0, 0) (1 # 10000)); [|reflexivity].
  intros pGi _. apply ex_co_drag_at.
Defined.

(** The velocity that the semi-implicit integrator stores in that case: 1
    becomes -499/501. *)
Example integrate_particle_semimp_stiff :
  exists pG' out,
    integrate_particle_semimp ex_cfg_plain ex_gl (ex_co (1 # 10000))
      (ex_grid 8 1 1 (1 # 10) [ex_grain_y]) = Returns pG' out /\
    map (fun g => Qred (v2 g)) (grains pG') = [- 499 # 501].
Proof. eexists _, _. split; vm_compute; reflexivity. Qed.

(** One semi-implicit step with the stiff drag [dt / t_s = 1000], gas at
    rest: the velocity 1 becomes -499/501. *)
Example semimp_dv_stiff :
  exists dv out,
    semimp_dv ex_cfg_plain ex_gl (ex_co (1 # 10000))
      (ex_grid 8 1 1 (1 # 10) [ex_grain_y]) Vzero ex_grain_y = Returns dv out /\
    Qred (v2 ex_grain_y + dv.1.2) = - 499 # 501.
Proof. eexists _, _. split; vm_compute; reflexivity. Qed.



(** The explicit integrator with feedback on two grains of mass 1 in a gas
    at rest, one of velocity 1 along x2: the momentum deposited is the
    change -3/8 of the momentum of the grains (there is no other force). *)
Example integrate_particle_exp_feedback :
  exists pG' out,
    integrate_particle_exp ex_cfg_feedback ex_gl (ex_co 1)
      (ex_grid 8 1 1 (1 # 2) [ex_grain_y; ex_grain_rest]) = Returns pG' out /\
    Qred (Vector.x2 (feedback pG')) = - 3 # 8 /\
    map (fun g => Qred (v2 g)) (grains pG') = [5 # 8; 0].
Proof. eexists _, _. split; [|split]; vm_compute; reflexivity. Qed.

(** The drag outside the integrable region. *)
Lemma Get_Drag_outside_is_free_motion_witness :
  (exists fd ts1,
     Get_Drag ex_co_outside (ex_grid 8 1 1 1 [ex_grain_y]) 0 0 0 0 0 1 0 Vzero
     = Returns (fd, ts1) [Perr 1 "Particle move out of grid %d!\n" [0%Z]] /\
     Veq fd Vzero /\ ts1 == 0 /\
     forall fr : Vector, Veq (Vadd fd fr) fr) /\
  forall pG0 : Grid unit Vector,
    every_integrator ex_cfg_plain ex_gl ex_co_outside pG0 (fun _ _ => True).
Proof.
  apply (Get_Drag_outside_is_free_motion ex_cfg_plain ex_gl ex_co_outside
           (ex_grid 8 1 1 1 [ex_grain_y]) 0%Z 0 0 0 0 1 0 Vzero [] 0%Z 0%Z 0%Z 1%Z
           (mkGasValues 0 0 0 0 0)); [reflexivity|reflexivity|discriminate].
Defined.

(** Outside the integrable region the explicit integrator moves the grain
    freely and warns twice, once per drag evaluation. *)
Example integrate_particle_exp_outside :
  exists pG',
    integrate_particle_exp ex_cfg_plain ex_gl ex_co_outside
      (ex_grid 8 8 1 1 [ex_grain_y])
    = Returns pG'
        [Perr 1 "Particle move out of grid %d!\n" [0%Z];
         Perr 1 "Particle move out of grid %d!\n" [0%Z];
         Pout 0 "In processor %d, there are %ld particles.\n" [0%Z; 1%Z]] /\
    map (fun g => (Qred (x2 g), Qred (v2 g))) (grains pG') = [(1, 1)].
Proof. eexists. split; vm_compute; reflexivity. Qed.

(** * The further properties on sample grids *)

Lemma ex_grid_mixed_well_sized : well_sized ex_grid_mixed.
Proof. split; simpl; lia. Defined.

(** The purge of the mixed sample grid. *)
Lemma Delete_Ghost_is_idempotent_witness :
  (Forall live (grains ex_grid_mixed) -> Delete_Ghost ex_grid_mixed = ex_grid_mixed) /\
  Delete_Ghost (Delete_Ghost ex_grid_mixed) = Delete_Ghost ex_grid_mixed.
Proof. exact (Delete_Ghost_is_idempotent ex_grid_mixed ex_grid_mixed_well_sized). Defined.

Lemma Delete_Ghost_only_shrinks_witness :
  Forall live (grains (Delete_Ghost ex_grid_mixed)) /\
  (0 <= nparticle (Delete_Ghost ex_grid_mixed) <= nparticle ex_grid_mixed)%Z /\
  length (particle (Delete_Ghost ex_grid_mixed)) = length (particle ex_grid_mixed) /\
  length (grproperty (Delete_Ghost ex_grid_mixed)) = length (grproperty ex_grid_mixed) /\
  (forall s : Z, m (grproperty_at (Delete_Ghost ex_grid_mixed) s)
                 = m (grproperty_at ex_grid_mixed s)) /\
  purge_frame ex_grid_mixed (Delete_Ghost ex_grid_mixed).
Proof. exact (Delete_Ghost_only_shrinks ex_grid_mixed ex_grid_mixed_well_sized). Defined.

(** The three integrators on the mixed sample grid. *)
Lemma integrators_keep_exactly_the_live_grains_witness :
  every_integrator ex_cfg_plain ex_gl (ex_co 1) ex_grid_mixed
    (fun pG' _ =>
       nparticle pG' = Z.of_nat (length (filter live (grains ex_grid_mixed))) /\
       length (grains pG') = length (filter live (grains ex_grid_mixed)) /\
       Forall live (grains pG')).
Proof.
  exact (integrators_keep_exactly_the_live_grains ex_cfg_plain ex_gl (ex_co 1)
           ex_grid_mixed ex_grid_mixed_well_sized).
Defined.

Lemma integrators_count_out_the_ghosts_witness :
  every_integrator ex_cfg_plain ex_gl (ex_co 1) ex_grid_mixed
    (fun pG' _ =>
       length (grproperty pG') = length (grproperty ex_grid_mixed) /\
       forall s : nat, (s < length (grproperty ex_grid_mixed))%nat ->
         m (grproperty pG' !!! s) = m (grproperty ex_grid_mixed !!! s) /\
         num (grproperty pG' !!! s)
         = (num (grproperty ex_grid_mixed !!! s)
            - Z.of_nat (length (filter (ghost_of (Z.of_nat s)) (grains ex_grid_mixed))))%Z).
Proof.
  exact (integrators_count_out_the_ghosts ex_cfg_plain ex_gl (ex_co 1)
           ex_grid_mixed ex_grid_mixed_well_sized).
Defined.

(** The explicit integrator on the mixed sample grid leaves the three live
    grains, in the order in which the purge left them, and the counter 3. *)
Example integrate_particle_exp_mixed :
  exists pG' out,
    integrate_particle_exp ex_cfg_plain ex_gl (ex_co 1) ex_grid_mixed
    = Returns pG' out /\
    nparticle pG' = 3%Z /\
    map (fun g => (pos g, Qred (x2 g), Qred (v2 g))) (grains pG')
    = [(1%Z, 13 # 32, 5 # 8); (1%Z, 0, 0); (2%Z, 0, 0)] /\
    map num (grproperty pG') = [3%Z] /\
    out = [status_line 0 3].
Proof.
  eexists _, _. split; [vm_compute; reflexivity|].
  split; [|split; [|split]]; vm_compute; reflexivity.
Qed.

Lemma integrators_advance_by_trapezoidal_rule_witness :
  every_integrator ex_cfg_plain ex_gl (ex_co 1) ex_grid_mixed
    (fun pG' _ => grains_related (trapezoidal_position ex_grid_mixed) ex_grid_mixed pG').
Proof.
  exact (integrators_advance_by_trapezoidal_rule ex_cfg_plain ex_gl (ex_co 1)
           ex_grid_mixed ex_grid_mixed_well_sized).
Defined.

Lemma integrators_record_fargo_shift_witness :
  every_integrator ex_cfg_fargo ex_gl (ex_co 1) ex_grid_mixed
    (fun pG' _ => grains_related (fargo_shift ex_gl ex_grid_mixed) ex_grid_mixed pG').
Proof.
  exact (integrators_record_fargo_shift ex_cfg_fargo ex_gl (ex_co 1)
           ex_grid_mixed eq_refl ex_grid_mixed_well_sized).
Defined.

Lemma integrators_tag_on_all_axes_without_fargo_witness :
  every_integrator ex_cfg_shear ex_gl (ex_co 1) ex_grid_mixed
    (fun pG' _ => grains_related (tagging_all_axes ex_gl) ex_grid_mixed pG').
Proof.
  exact (integrators_tag_on_all_axes_without_fargo ex_cfg_shear ex_gl (ex_co 1)
           ex_grid_mixed eq_refl ex_grid_mixed_well_sized).
Defined.

(** Without FARGO the grain that leaves through the upper x2 bound is
    tagged. *)
Example integrate_particle_exp_tags_x2 :
  exists pG' out,
    integrate_particle_exp ex_cfg_shear ex_gl (ex_co 1)
      (ex_grid 8 8 1 1 [ex_grain_y_edge]) = Returns pG' out /\
    map (fun g => (Qred (x2 g), pos g)) (grains pG') = [(17 # 4, 10%Z)].
Proof. eexists _, _. split; vm_compute; reflexivity. Qed.

Lemma integrators_leave_mesh_and_gas_witness :
  every_integrator ex_cfg_plain ex_gl (ex_co 1) ex_grid_mixed
    (fun pG' _ =>
       same_mesh ex_grid_mixed pG' /\
       (FEEDBACK ex_cfg_plain = false -> feedback pG' = feedback ex_grid_mixed)).
Proof.
  exact (integrators_leave_mesh_and_gas ex_cfg_plain ex_gl (ex_co 1)
           ex_grid_mixed ex_grid_mixed_well_sized).
Defined.

(** The sample grids in 3D and with two grains. *)
Lemma ex_co_uniform (ts : Real) (pG : Grid unit Vector) (type : Z) :
  uniform_drag (ex_co ts) pG type (0, 0, 0) ts.
Proof.
  intros a b c cell1 vd. simpl. eexists. split; [reflexivity|]. split; reflexivity.
Defined.

Lemma ex_co_distrFB_adds (ts : Real) : distrFB_adds (ex_co ts) (fun f : Vector => f).
Proof. intros pG w i j k fb. simpl. apply Veq_refl. Defined.

(** The drag on a grain of velocity (0, 1, 0) in the gas at rest with
    stopping time 2. *)
Lemma Get_Drag_inside_is_linear_drag_witness :
  exists fd ts1,
    Get_Drag (ex_co 2) (ex_grid 8 8 8 (1 # 2) [ex_grain_y]) 0 0 0 0 0 1 0 Vzero
    = Returns (fd, ts1) [] /\
    ts1 == 1 / 2 /\
    Vector.x1 fd == - (0 - 0) / 2 /\
    Vector.x2 fd == - (1 - 0) / 2 /\
    Vector.x3 fd == - (0 - 0) / 2 /\
    Vector.x1 fd * (0 - 0) + Vector.x2 fd * (1 - 0) + Vector.x3 fd * (0 - 0) <= 0.
Proof.
  apply (Get_Drag_inside_is_linear_drag (ex_co 2) (ex_grid 8 8 8 (1 # 2) [ex_grain_y])
           0 0 0 0 0 1 0 Vzero [] 0 0 0 (mkGasValues 1 0 0 0 1) 0 0 0 2);
    reflexivity.
Defined.

(** The force on a grain at x1 = 1 of velocity (1, 1, 0) in the 3D shearing
    sheet with FARGO. *)
Lemma Get_Force_coriolis_does_no_work_witness :
  let pG := ex_grid 8 8 8 (1 # 2) [ex_grain_y] in
  let F := Get_Force ex_cfg_fargo ex_gl pG 1 0 0 1 1 0 in
  let z := if (Nx3 pG >? 1)%Z then 0 else 0 in
  let vz := if (Nx3 pG >? 1)%Z then 0 else 1 in
  (FARGO ex_cfg_fargo = false \/ (Nx3 pG <= 1)%Z ->
   Vector.x1 F * 1 + Vector.x2 F * 1 + Vector.x3 F * 0
   == 3 * (Omega ex_gl * Omega ex_gl) * 1 * 1
      - (if VERTICAL_GRAVITY ex_cfg_fargo then Omega ex_gl * Omega ex_gl * z * vz else 0)) /\
  (FARGO ex_cfg_fargo = true -> (Nx3 pG > 1)%Z ->
   Vector.x1 F * 1 + 4 * (Vector.x2 F * 1) == 0).
Proof.
  apply (Get_Force_coriolis_does_no_work ex_cfg_fargo ex_gl
           (ex_grid 8 8 8 (1 # 2) [ex_grain_y]) 1 0 0 1 1 0).
  reflexivity.
Defined.

(** The semi-implicit update in the 3D shearing sheet with FARGO. *)
Lemma semimp_solves_the_implicit_midpoint_rule_witness :
  let pG := ex_grid 8 8 8 (1 # 2) [ex_grain_y] in
  wp (Get_Drag (ex_co 1) pG (property ex_grain_y)
        (half_step1 ex_cfg_fargo pG ex_grain_y).1.1
        (half_step1 ex_cfg_fargo pG ex_grain_y).1.2
        (half_step1 ex_cfg_fargo pG ex_grain_y).2
        (v1 ex_grain_y) (v2 ex_grain_y) (v3 ex_grain_y) Vzero)
    (fun r _ =>
  wp (semimp_dv ex_cfg_fargo ex_gl (ex_co 1) pG Vzero ex_grain_y)
    (fun dv _ =>
       0 <= r.2 ->
       spec_implicit_midpoint ex_cfg_fargo ex_gl pG ex_grain_y
         (half_step1 ex_cfg_fargo pG ex_grain_y) r.1 r.2 dv)).
Proof.
  apply (semimp_solves_the_implicit_midpoint_rule ex_cfg_fargo ex_gl (ex_co 1)
           (ex_grid 8 8 8 (1 # 2) [ex_grain_y]) Vzero ex_grain_y).
  - vm_compute. discriminate.
  - intros _ _. reflexivity.
Defined.

(** The explicit and the fully implicit integrator on a grain of velocity
    (0, 1, 0) in the gas at rest, with dt = 1/2 and stopping time 1. *)
Lemma exp_drag_is_stable_up_to_two_stopping_times_witness :
  wp (integrate_particle_exp ex_cfg_plain ex_gl (ex_co 1)
        (ex_grid 8 8 1 (1 # 2) [ex_grain_y]))
    (fun pG' _ =>
       grains_related
         (fun a b =>
            spec_explicit_relaxation (1 # 2) 1 0 (v1 a) (v1 b) /\
            spec_explicit_relaxation (1 # 2) 1 0 (v2 a) (v2 b) /\
            spec_explicit_relaxation (1 # 2) 1 0 (v3 a) (v3 b))
         (ex_grid 8 8 1 (1 # 2) [ex_grain_y]) pG').
Proof.
  eapply wp_mono;
    [|apply (exp_drag_is_stable_up_to_two_stopping_times ex_cfg_plain ex_gl
               (ex_co 1) (ex_grid 8 8 1 (1 # 2) [ex_grain_y]));
      [reflexivity|split; simpl; lia|vm_compute; discriminate]].
  intros pG' o (survivors & Hperm & HF). exists survivors.
  split; [exact Hperm|]. eapply Forall2_impl; [exact HF|].
  intros a b H. apply (H (0, 0, 0) 1); [|reflexivity].
  intros pGi _. apply ex_co_uniform.
Defined.

Lemma fulimp_drag_relaxes_without_overshoot_witness :
  wp (integrate_particle_fulimp ex_cfg_plain ex_gl (ex_co 1)
        (ex_grid 8 8 1 (1 # 2) [ex_grain_y]))
    (fun pG' _ =>
       grains_related
         (fun a b =>
            spec_implicit_relaxation (1 # 2) 1 0 (v1 a) (v1 b) /\
            spec_implicit_relaxation (1 # 2) 1 0 (v2 a) (v2 b) /\
            spec_implicit_relaxation (1 # 2) 1 0 (v3 a) (v3 b))
         (ex_grid 8 8 1 (1 # 2) [ex_grain_y]) pG').
Proof.
  eapply wp_mono;
    [|apply (fulimp_drag_relaxes_without_overshoot ex_cfg_plain ex_gl
               (ex_co 1) (ex_grid 8 8 1 (1 # 2) [ex_grain_y]));
      [reflexivity|split; simpl; lia|vm_compute; discriminate]].
  intros pG' o (survivors & Hperm & HF). exists survivors.
  split; [exact Hperm|]. eapply Forall2_impl; [exact HF|].
  intros a b H. apply (H (0, 0, 0) 1); [|reflexivity].
  intros pGi _. apply ex_co_uniform.
Defined.

(** The velocities that the two integrators store: 1 becomes 5/8 with the
    explicit scheme, factor 1 - a + a^2 / 2, and 8/13 with the fully
    implicit one, factor 1 / (1 + a + a^2 / 2), for a = 1/2. *)
Example integrate_particle_exp_and_fulimp_relax :
  exists pGe oe pGf oi,
    integrate_particle_exp ex_cfg_plain ex_gl (ex_co 1)
      (ex_grid 8 8 1 (1 # 2) [ex_grain_y]) = Returns pGe oe /\
    integrate_particle_fulimp ex_cfg_plain ex_gl (ex_co 1)
      (ex_grid 8 8 1 (1 # 2) [ex_grain_y]) = Returns pGf oi /\
    map (fun g => Qred (v2 g)) (grains pGe) = [5 # 8] /\
    map (fun g => Qred (v2 g)) (grains pGf) = [8 # 13].
Proof.
  eexists _, _, _, _. split; [vm_compute; reflexivity|].
  split; [vm_compute; reflexivity|]. split; vm_compute; reflexivity.
Qed.

(** The fully implicit update in the 3D shearing sheet, for the forces
    (0, -1, 0) and (0, -1/2, 0) and the stopping frequencies 1 and 1. *)
Lemma fulimp_solves_its_linear_system_witness :
  let pG := ex_grid 8 8 8 (1 # 2) [ex_grain_y] in
  let fc := Vector.mk 0 (-1) 0 in
  let fp := Vector.mk 0 (- (1 # 2)) 0 in
  let F := fulimp_ft ex_cfg_shear ex_gl pG fc fp 1 in
  let A := fulimp_A ex_cfg_shear ex_gl pG 1 1 in
  let B := fulimp_B ex_gl pG 1 1 in
  let C := fulimp_C ex_cfg_shear ex_gl pG 1 1 in
  let D := fulimp_D pG 1 1 in
  let dv := fulimp_step4 ex_cfg_shear ex_gl pG fc fp 1 1 in
  A * dv.1.1 + B * dv.1.2 == dt pG * Vector.x1 F /\
  C * dv.1.1 + A * dv.1.2 == dt pG * Vector.x2 F /\
  D * dv.2 == dt pG * Vector.x3 F.
Proof.
  apply (fulimp_solves_its_linear_system ex_cfg_shear ex_gl
           (ex_grid 8 8 8 (1 # 2) [ex_grain_y])
           (Vector.mk 0 (-1) 0) (Vector.mk 0 (- (1 # 2)) 0) 1 1).
  - reflexivity.
  - vm_compute. discriminate.
  - vm_compute. discriminate.
  - vm_compute. discriminate.
Defined.

(** The semi-implicit integrator without drag in the 3D shearing sheet with
    FARGO. *)
Lemma semimp_fargo_free_step_conserves_epicyclic_energy_witness :
  wp (integrate_particle_semimp ex_cfg_fargo ex_gl ex_co_outside
        (ex_grid 8 8 8 (1 # 2) [ex_grain_y]))
    (fun pG' _ =>
       grains_related
         (fun a b => v1 b * v1 b + 4 * (v2 b * v2 b)
                     == v1 a * v1 a + 4 * (v2 a * v2 a))
         (ex_grid 8 8 8 (1 # 2) [ex_grain_y]) pG').
Proof.
  eapply wp_mono;
    [|apply (semimp_fargo_free_step_conserves_epicyclic_energy ex_cfg_fargo ex_gl
               ex_co_outside (ex_grid 8 8 8 (1 # 2) [ex_grain_y]));
      [reflexivity|reflexivity|reflexivity|split; simpl; lia]].
  intros pG' o (survivors & Hperm & HF). exists survivors.
  split; [exact Hperm|]. eapply Forall2_impl; [exact HF|].
  intros a b H. apply H. intros pGi _. unfold status_at. simpl. lia.
Defined.

(** The velocity that the integrator stores: (0, 1) becomes
    (16/17, 15/17), of the same epicyclic energy 4. *)
Example integrate_particle_semimp_fargo_free :
  exists pG' out,
    integrate_particle_semimp ex_cfg_fargo ex_gl ex_co_outside
      (ex_grid 8 8 8 (1 # 2) [ex_grain_y]) = Returns pG' out /\
    map (fun g => (Qred (v1 g), Qred (v2 g))) (grains pG') = [(16 # 17, 15 # 17)].
Proof. eexists _, _. split; vm_compute; reflexivity. Qed.



(** The predictor deposit of a grain of velocity (0, 1, 0) in the gas at
    rest with stopping time 1/4 and dt = 1/2: the stopping time is clamped
    to dt. *)
Lemma feedback_predictor_clamps_the_stopping_time_witness :
  let pG := ex_grid 8 8 1 (1 # 2) [ex_grain_y] in
  let co := ex_co (1 # 4) in
  let cur := particle_at pG 0 in
  let mgr := m (grproperty_at pG (property cur)) in
  let ts := get_ts co pG (property cur) 1 1
              (sqrt co ((0 - v1 cur) * (0 - v1 cur) + (0 - v2 cur) * (0 - v2 cur)
                        + (0 - v3 cur) * (0 - v3 cur))) in
  exists fb,
    feedback (feedback_predictor_body co Vzero 0 pG)
    = distrFB co pG [] 0 0 0 fb /\
    at_most_half_of_the_momentum_gap mgr (0, 0, 0) cur fb /\
    (ts <= dt pG ->
     Veq fb (Vector.mk ((1 # 2) * (mgr * (0 - v1 cur)))
               ((1 # 2) * (mgr * (0 - v2 cur))) ((1 # 2) * (mgr * (0 - v3 cur))))) /\
    (dt pG < ts ->
     Veq fb (Vector.mk (mgr * (0 - v1 cur) * dt pG / (2 * ts))
               (mgr * (0 - v2 cur) * dt pG / (2 * ts))
               (mgr * (0 - v3 cur) * dt pG / (2 * ts)))).
Proof.
  apply (feedback_predictor_clamps_the_stopping_time (ex_co (1 # 4))
           (ex_grid 8 8 1 (1 # 2) [ex_grain_y]) Vzero 0 [] 0 0 0
           (mkGasValues 1 0 0 0 1) 0 0 0); reflexivity.
Defined.

(** The value of that deposit: half of m (u - v), although dt is two
    stopping times. *)
Example feedback_predictor_body_clamped :
  let fb := feedback (feedback_predictor_body (ex_co (1 # 4)) Vzero 0
                        (ex_grid 8 8 1 (1 # 2) [ex_grain_y])) in
  (Qred (Vector.x1 fb), Qred (Vector.x2 fb), Qred (Vector.x3 fb))
  = (0, - 1 # 2, 0).
Proof. vm_compute. reflexivity. Qed.

(** The predictor on the mixed sample grid when every point is outside. *)
Lemma feedback_predictor_deposits_nothing_outside_witness :
  feedback_predictor ex_co_outside ex_gasinfo ex_grid_mixed
  = predictor_start ex_co_outside ex_gasinfo ex_grid_mixed.
Proof.
  apply (feedback_predictor_deposits_nothing_outside ex_co_outside ex_gasinfo
           ex_grid_mixed).
  intros i _. vm_compute. discriminate.
Defined.

(** The predictor on two grains in the gas at rest. *)
Lemma feedback_predictor_sums_the_deposits_witness :
  let pG := ex_grid 8 8 1 (1 # 2) [ex_grain_y; ex_grain_rest] in
  let start := predictor_start (ex_co 1) ex_gasinfo pG in
  exists fbs : list Vector,
    Forall2 (fun g fb => exists pGi : Grid unit Vector,
                           same_but_feedback start pGi /\
                           fb = predictor_deposit (ex_co 1) pGi (cell1_of start) g)
      (grains pG) fbs /\
    Veq (feedback (feedback_predictor (ex_co 1) ex_gasinfo pG)) (Vsum fbs).
Proof.
  apply (feedback_predictor_sums_the_deposits (ex_co 1) ex_gasinfo
           (ex_grid 8 8 1 (1 # 2) [ex_grain_y; ex_grain_rest]) (fun f : Vector => f)).
  - split; simpl; lia.
  - apply ex_co_distrFB_adds.
  - apply Veq_refl.
Defined.

(** The value of that sum: the moving grain deposits half of its momentum
    gap times dt / t_s, the grain at rest nothing. *)
Example feedback_predictor_two_grains :
  let fb := feedback (feedback_predictor (ex_co 1) ex_gasinfo
                        (ex_grid 8 8 1 (1 # 2) [ex_grain_y; ex_grain_rest])) in
  (Qred (Vector.x1 fb), Qred (Vector.x2 fb), Qred (Vector.x3 fb))
  = (0, - 1 # 4, 0).
Proof. vm_compute. reflexivity. Qed.
